(** * The per-session dispatch engine of the auto-sender (server/sender.ts)

    A shallow embedding of the sender module and of the storage methods it
    calls (server/storage.ts, shared/schema.ts), followed by the properties
    of the engine that the specification states.

    JavaScript runs one synchronous block at a time: control can change
    hands only at an [await] (a timer, a network response, a database
    query).  The embedding follows that discipline: every synchronous block
    of the source is one function on the shared [World], and a task is a
    program counter that names the [await] it is suspended at.  The
    interleavings of the tasks are the executions of the program. *)

From stdpp Require Import gmap strings list fin_maps pretty sorting.
From Stdlib Require Import ZArith Ascii String Lia.

Open Scope string_scope.
Open Scope Z_scope.

(** ** JavaScript string primitives used by the engine

    A string is held as the bytes of its UTF-8 encoding: a character up to
    U+007F is one byte, every other character is two, three or four bytes
    that are all above 127.  Concatenation, the test for the empty string,
    and splitting or matching on ASCII characters mean the same on these
    bytes as on the code units of the JavaScript string; [trim] is the one
    primitive of the engine that looks at characters beyond ASCII. *)

Module JS.

(** The white space that [String.prototype.trim] removes (WhiteSpace and
    LineTerminator of ECMAScript), by the bytes of its encoding.  One byte:
    TAB, LF, VT, FF, CR and SP. *)
Definition isWhiteSpace1 (c : ascii) : bool :=
  let n := N_of_ascii c in ((9 <=? n) && (n <=? 13) || (n =? 32))%N.

(** Two bytes: U+00A0. *)
Definition isWhiteSpace2 (c1 c2 : ascii) : bool :=
  ((N_of_ascii c1 =? 194) && (N_of_ascii c2 =? 160))%N.

(** Three bytes: U+1680; U+2000 to U+200A, U+2028, U+2029 and U+202F;
    U+205F; U+3000; U+FEFF. *)
Definition isWhiteSpace3 (c1 c2 c3 : ascii) : bool :=
  let n1 := N_of_ascii c1 in
  let n2 := N_of_ascii c2 in
  let n3 := N_of_ascii c3 in
  ((n1 =? 225) && (n2 =? 154) && (n3 =? 128)
   || (n1 =? 226) && (n2 =? 128)
      && ((128 <=? n3) && (n3 <=? 138) || (n3 =? 168) || (n3 =? 169) || (n3 =? 175))
   || (n1 =? 226) && (n2 =? 129) && (n3 =? 159)
   || (n1 =? 227) && (n2 =? 128) && (n3 =? 128)
   || (n1 =? 239) && (n2 =? 187) && (n3 =? 191))%N.

Fixpoint trimStart (s : string) : string :=
  match s with
  | EmptyString => EmptyString
  | String c1 r1 =>
      if isWhiteSpace1 c1 then trimStart r1
      else
        match r1 with
        | EmptyString => s
        | String c2 r2 =>
            if isWhiteSpace2 c1 c2 then trimStart r2
            else
              match r2 with
              | EmptyString => s
              | String c3 r3 => if isWhiteSpace3 c1 c2 c3 then trimStart r3 else s
              end
        end
  end.

(** The end of a string is white space from the first position on from
    which the string holds nothing else. *)
Fixpoint trimEnd (s : string) : string :=
  match s with
  | EmptyString => EmptyString
  | String c r =>
      match trimStart s with
      | EmptyString => EmptyString
      | _ => String c (trimEnd r)
      end
  end.

Definition trim (s : string) : string := trimEnd (trimStart s).

(** [s.split(re)] for a regular expression [re] that matches exactly one
    code unit satisfying [sep]: the pieces between the separators, empty
    pieces included; the empty string gives one empty piece. *)
Fixpoint split (sep : ascii -> bool) (s : string) : list string :=
  match s with
  | EmptyString => [EmptyString]
  | String c r =>
      if sep c then EmptyString :: split sep r
      else match split sep r with
           | t :: ts => String c t :: ts
           | [] => [String c EmptyString]
           end
  end.

(** The class [\d]. *)
Definition isDigit (c : ascii) : bool :=
  let n := N_of_ascii c in ((48 <=? n) && (n <=? 57))%N.

Fixpoint allDigits (s : string) : bool :=
  match s with
  | EmptyString => true
  | String c r => isDigit c && allDigits r
  end.

(** [/^\d+$/.test(s)]: one digit or more, and nothing else. *)
Definition test_digits (s : string) : bool :=
  match s with
  | EmptyString => false
  | String c r => isDigit c && allDigits r
  end.

(** The separator class [[,\n]]. *)
Definition isCommaOrNewline (c : ascii) : bool :=
  let n := N_of_ascii c in ((n =? 44) || (n =? 10))%N.

(** Truthiness of a string: [!s] holds exactly for the empty string. *)
Definition falsy (s : string) : bool :=
  match s with EmptyString => true | _ => false end.

(** [if (cached)] on the result of [Map.get]: a non-empty string. *)
Definition truthy (x : option string) : option string :=
  match x with
  | Some s => if falsy s then None else Some s
  | None => None
  end.

(** [Math.ceil(ms / 1000)] on an integral number of milliseconds. *)
Definition ceilSeconds (ms : Z) : Z := - ((- ms) / 1000).

(** [arr.join(sep)]. *)
Fixpoint join (sep : string) (l : list string) : string :=
  match l with
  | [] => EmptyString
  | [x] => x
  | x :: r => x +:+ sep +:+ join sep r
  end.

End JS.

(** [channelIdsStr.split(/[,\n]/).map(id => id.trim()).filter(id => /^\d+$/.test(id))] *)
Definition parseChannelIds (channelIdsStr : string) : list string :=
  List.filter JS.test_digits
    (List.map JS.trim (JS.split JS.isCommaOrNewline channelIdsStr)).


(** ** The persisted configuration (shared/schema.ts, table [configs]) *)

Module Schema.

(** A row of [configs]; [createdAt] only orders listings and is left out. *)
Record Config := mkConfig {
  id : string;
  sessionId : string;
  name : string;
  token : string;
  message : string;
  channelIds : string;
  delay : Z;
  isActive : bool;
  userWantsActive : bool;
  totalSent : Z
}.

(** [Partial<InsertConfig>] as [startSender] fills it:
    [{ token, message, channelIds, delay }], every field optional. *)
Record PartialConfig := mkPartial {
  p_name : option string;
  p_token : option string;
  p_message : option string;
  p_channelIds : option string;
  p_delay : option Z
}.

End Schema.

(** ** DatabaseStorage (server/storage.ts)

    Every method is one or two queries, each of them awaited.  A query is
    atomic; the two queries of a method are not, so each method is given as
    its read part and its write part, and as their sequential composition
    for the callers that are not interleaved with anything. *)

Module Storage.
Import Schema.

Definition Table := list Config.

(** [db.select().from(configs).where(eq(configs.sessionId, sessionId)).limit(1)] *)
Definition getConfig (sid : string) (t : Table) : option Config :=
  List.find (fun c => String.eqb (sessionId c) sid) t.

(** [db.update(configs).set(...).where(eq(configs.id, rowId))] *)
Definition update_where_id (rowId : string) (f : Config -> Config) (t : Table) : Table :=
  List.map (fun c => if String.eqb (id c) rowId then f c else c) t.

Definition set_isActive (b : bool) (c : Config) : Config :=
  mkConfig (id c) (sessionId c) (name c) (token c) (message c) (channelIds c)
           (delay c) b (userWantsActive c) (totalSent c).

Definition set_userWantsActive (b : bool) (c : Config) : Config :=
  mkConfig (id c) (sessionId c) (name c) (token c) (message c) (channelIds c)
           (delay c) (isActive c) b (totalSent c).

Definition set_totalSent (n : Z) (c : Config) : Config :=
  mkConfig (id c) (sessionId c) (name c) (token c) (message c) (channelIds c)
           (delay c) (isActive c) (userWantsActive c) n.

(** [.set(data)]: the columns present in [data] are overwritten. *)
Definition set_data (d : PartialConfig) (c : Config) : Config :=
  mkConfig (id c) (sessionId c)
           (default (name c) (p_name d))
           (default (token c) (p_token d))
           (default (message c) (p_message d))
           (default (channelIds c) (p_channelIds d))
           (default (delay c) (p_delay d))
           (isActive c) (userWantsActive c) (totalSent c).

(** [data.x || dflt] on an optional string. *)
Definition orString (x : option string) (dflt : string) : string :=
  match x with
  | Some s => if JS.falsy s then dflt else s
  | None => dflt
  end.

(** [data.delay || 30]. *)
Definition orDelay (x : option Z) : Z :=
  match x with
  | Some d => if d =? 0 then 30 else d
  | None => 30
  end.

(** The row that [upsertConfig] inserts when the session has none; the
    database supplies [newId] ([gen_random_uuid()]) and the column
    defaults [isActive = false], [userWantsActive = false], [totalSent = 0]. *)
Definition inserted_row (newId sid : string) (d : PartialConfig) : Config :=
  mkConfig newId sid
           (orString (p_name d) "Default Config")
           (orString (p_token d) "")
           (orString (p_message d) "")
           (orString (p_channelIds d) "")
           (orDelay (p_delay d))
           false false 0.

(** The write parts: what each method does with the row [existing] that its
    own earlier [getConfig] returned. *)
Definition updateConfigStatus_write (existing : option Config) (b : bool) (t : Table) : Table :=
  match existing with
  | Some e => update_where_id (id e) (set_isActive b) t
  | None => t
  end.

Definition setUserWantsActive_write (existing : option Config) (b : bool) (t : Table) : Table :=
  match existing with
  | Some e => update_where_id (id e) (set_userWantsActive b) t
  | None => t
  end.

(** [set({ totalSent: existing.totalSent + 1 })]: the new total is computed
    from the row as it was when it was read. *)
Definition incrementSent_write (existing : option Config) (t : Table) : Table :=
  match existing with
  | Some e => update_where_id (id e) (set_totalSent (totalSent e + 1)) t
  | None => t
  end.

Definition upsertConfig_write (existing : option Config) (newId sid : string)
    (d : PartialConfig) (t : Table) : Table :=
  match existing with
  | Some e => update_where_id (id e) (set_data d) t
  | None => (t ++ [inserted_row newId sid d])%list
  end.

(** The methods run without interleaving. *)
Definition updateConfigStatus (sid : string) (b : bool) (t : Table) : Table :=
  updateConfigStatus_write (getConfig sid t) b t.

Definition setUserWantsActive (sid : string) (b : bool) (t : Table) : Table :=
  setUserWantsActive_write (getConfig sid t) b t.

Definition incrementSent (sid : string) (t : Table) : Table :=
  incrementSent_write (getConfig sid t) t.

Definition upsertConfig (newId sid : string) (d : PartialConfig) (t : Table) : Table :=
  upsertConfig_write (getConfig sid t) newId sid d t.

End Storage.

(** ** The sender module (server/sender.ts): state *)

Record SessionSender := mkSession {
  isActive : bool;
  totalSent : Z;
  activeThreads : Z;
  startTime : option Z;
  shouldStop : bool;
  sessionId : string
}.

(** One call of [logCallback(sessionId, message, level)]. *)
Record LogLine := mkLog {
  log_session : string;
  log_message : string;
  log_level : string
}.

(** The value [getStatus] returns. *)
Record Status := mkStatus {
  st_isActive : bool;
  st_totalSent : Z;
  st_activeThreads : Z;
  st_startTime : option Z
}.

(** Everything the tasks share: the module-level maps [sessions] and
    [channelNames], the [configs] table behind [storage], the log lines and
    the status messages that the installed [logCallback] has sent to the
    observers of a session (oldest first), and the value [Date.now()]
    returns.  [emitLog] also appends the line to the [logs] table, detached
    and with its errors swallowed; no property below reads that table and
    it is not part of the world. *)
Record World := mkWorld {
  sessions : gmap string SessionSender;
  channelNames : gmap string string;
  configs : Storage.Table;
  emitted : list LogLine;
  broadcasts : list (string * Status);
  clock : Z
}.

Definition emptyWorld : World := mkWorld ∅ ∅ [] [] [] 0.

(** A synchronous block is a state transformer on the world. *)
Definition M (A : Type) : Type := World -> A * World.

#[global] Instance M_ret : MRet M := fun A a w => (a, w).
#[global] Instance M_bind : MBind M :=
  fun A B k m w => let (a, w') := m w in k a w'.

Definition freshSession (sid : string) : SessionSender :=
  mkSession false 0 0 None false sid.

(** The record a reference to session [sid] points at.  Entries of
    [sessions] are never replaced or removed, so the reference [s] that a
    task obtained from [getSession] earlier and the map entry are the same
    object. *)
Definition deref (sid : string) (w : World) : SessionSender :=
  default (freshSession sid) (sessions w !! sid).

Arguments deref : simpl never.

(** [sessions.set(sessionId, s)] with a new idle record when the session
    has none. *)
Definition touch (sid : string) (w : World) : World :=
  match sessions w !! sid with
  | Some _ => w
  | None =>
      mkWorld (<[sid := freshSession sid]> (sessions w)) (channelNames w)
              (configs w) (emitted w) (broadcasts w) (clock w)
  end.

(** An assignment to fields of the record of session [sid]. *)
Definition assign (sid : string) (f : SessionSender -> SessionSender) (w : World) : World :=
  mkWorld (<[sid := f (deref sid w)]> (sessions w)) (channelNames w)
          (configs w) (emitted w) (broadcasts w) (clock w).

Definition logged (l : LogLine) (w : World) : World :=
  mkWorld (sessions w) (channelNames w) (configs w) (emitted w ++ [l])%list
          (broadcasts w) (clock w).

Definition status_of (s : SessionSender) : Status :=
  mkStatus (isActive s) (totalSent s) (activeThreads s) (startTime s).

(** [broadcastStatus(sessionId)]: the status as it is at this moment goes
    out to the observers of the session. *)
Definition observed (sid : string) (w : World) : World :=
  mkWorld (sessions w) (channelNames w) (configs w) (emitted w)
          (broadcasts w ++ [(sid, status_of (deref sid w))])%list (clock w).

Definition stored (f : Storage.Table -> Storage.Table) (w : World) : World :=
  mkWorld (sessions w) (channelNames w) (f (configs w)) (emitted w) (broadcasts w) (clock w).

Definition named (channelId nm : string) (w : World) : World :=
  mkWorld (sessions w) (<[channelId := nm]> (channelNames w)) (configs w) (emitted w)
          (broadcasts w) (clock w).

Definition at_time (t : Z) (w : World) : World :=
  mkWorld (sessions w) (channelNames w) (configs w) (emitted w) (broadcasts w) t.

(** [getSession]: the record of the session, created idle on first use. *)
Definition getSession (sid : string) : M SessionSender := fun w =>
  (deref sid w, touch sid w).

(** A read through the reference [s]. *)
Definition readS (sid : string) : M SessionSender := fun w => (deref sid w, w).

(** A write through the reference [s]. *)
Definition modifyS (sid : string) (f : SessionSender -> SessionSender) : M unit := fun w =>
  (tt, assign sid f w).

Definition with_isActive (b : bool) (s : SessionSender) : SessionSender :=
  mkSession b (totalSent s) (activeThreads s) (startTime s) (shouldStop s) (sessionId s).
Definition with_totalSent (n : Z) (s : SessionSender) : SessionSender :=
  mkSession (isActive s) n (activeThreads s) (startTime s) (shouldStop s) (sessionId s).
Definition with_activeThreads (n : Z) (s : SessionSender) : SessionSender :=
  mkSession (isActive s) (totalSent s) n (startTime s) (shouldStop s) (sessionId s).
Definition with_startTime (t : option Z) (s : SessionSender) : SessionSender :=
  mkSession (isActive s) (totalSent s) (activeThreads s) t (shouldStop s) (sessionId s).
Definition with_shouldStop (b : bool) (s : SessionSender) : SessionSender :=
  mkSession (isActive s) (totalSent s) (activeThreads s) (startTime s) b (sessionId s).

(** [emitLog]: the call of [logCallback], which is the callback that
    [registerRoutes] installs: [broadcastLog(sessionId, msg, level)] and
    then [broadcastStatus(sessionId)], whose [getStatus] goes through
    [getSession]. *)
Definition emitLog (sid msg level : string) : M unit := fun w =>
  (tt, observed sid (touch sid (logged (mkLog sid msg level) w))).

(** [Date.now()] *)
Definition dateNow : M Z := fun w => (clock w, w).

(** [channelNames.set(channelId, name)] and [channelNames.get(channelId)] *)
Definition cacheName (channelId nm : string) : M unit := fun w =>
  (tt, named channelId nm w).

Definition cachedName (channelId : string) : M (option string) := fun w =>
  (channelNames w !! channelId, w).

(** A write query and a [getConfig] query on the [configs] table. *)
Definition withConfigs (f : Storage.Table -> Storage.Table) : M unit := fun w =>
  (tt, stored f w).

Definition readConfig (sid : string) : M (option Schema.Config) := fun w =>
  (Storage.getConfig sid (configs w), w).

Definition getStatus (sid : string) : M Status :=
  s ← getSession sid;
  mret (status_of s).

(** [getAllStatuses]: the status of every session of the registry. *)
Definition getAllStatuses (w : World) : gmap string Status :=
  status_of <$> sessions w.

(** ** One delivery attempt and one channel loop *)

(** The return type of [channelLoop]; ["done"] is declared and never
    returned. *)
Inductive Outcome := stopped | token_invalid | done.

(** The return type of [senderLoop]. *)
Inductive LoopResult := LStopped | LTokenInvalid.

(** What [sendOneMessage] returns. *)
Record SendResult := mkSend { sent : bool; cooldownMs : Z }.

(** What the awaited [fetch] of [sendOneMessage] produces: a response with
    its status, or a thrown error with its message.  For a 429 response the
    body is awaited too ([response.json()], a failure of which yields
    [retry_after: 5]); [retryAfterMs] is [Math.ceil(data.retry_after * 1000)]
    when the body carries a truthy [retry_after], and [None] otherwise.
    Nothing of the module runs between the two awaits, so they are one
    event here. *)
Inductive FetchOutcome :=
| HttpResponse (status : Z) (retryAfterMs : option Z)
| NetworkError (message : string).

Definition response_ok (status : Z) : bool := (200 <=? status) && (status <=? 299).

(** [sendOneMessage] from the point where [fetch] has settled. *)
Definition sendOneMessage_classify (sid chName : string) (r : FetchOutcome) : M SendResult :=
  match r with
  | HttpResponse status retryAfterMs =>
      if response_ok status then mret (mkSend true 0)
      else if status =? 429 then mret (mkSend false (default 5000 retryAfterMs + 1000))
      else if status =? 401 then mret (mkSend false (-401))
      else if status =? 403 then
        emitLog sid ("No permission for #" +:+ chName +:+ " - will retry later") "warn";;
        mret (mkSend false (-1))
      else mret (mkSend false 5000)
  | NetworkError msg =>
      emitLog sid ("Network error on #" +:+ chName +:+ ": " +:+ msg) "warn";;
      mret (mkSend false 5000)
  end.

(** Where a channel loop is suspended.  [CSleep] is an [interruptibleSleep]
    of [ms] milliseconds of which [ticks] interval callbacks have run; the
    staggered start is the sleep before the first iteration.  [CFailed] is a
    loop whose promise was rejected. *)
Inductive ChannelPc :=
| CSleep (consecutiveErrors : Z) (ms : Z) (ticks : Z)
| CAwaitSend (consecutiveErrors : Z)
| CDone (o : Outcome)
| CFailed.

(** [interruptibleSleep], the synchronous start: [false] when the flag is
    already set and the promise resolves with [false] at once. *)
Definition interruptibleSleep_begin (sid : string) : M bool :=
  s ← getSession sid;
  mret (negb (shouldStop s)).

(** The 200 ms interval callback: [true] when it resolves the sleep with
    [false]. *)
Definition interruptibleSleep_check (sid : string) : M bool :=
  s ← readS sid;
  mret (shouldStop s).

(** The interval callback number [ticks + 1] runs before the timer when it
    falls strictly before [ms]; the timer, created first, runs otherwise. *)
Definition tick_due (ms ticks : Z) : bool := 200 * (ticks + 1) <? ms.
Definition timer_due (ms ticks : Z) : bool := ms <=? 200 * (ticks + 1).

(** The wait of the failure branch of [channelLoop]. *)
Definition backoffMs (result : SendResult) (consecutiveErrors : Z) : Z :=
  if 0 <? cooldownMs result then cooldownMs result
  else if cooldownMs result =? -1 then 60000
  else Z.min (10000 * consecutiveErrors) 120000.

(** [channelLoop] from the point where [sendOneMessage] has returned
    [result], up to the next [await].  [waitSec] is
    [Math.ceil(rand(delaySeconds * 0.9, delaySeconds * 1.1))], a random
    value.  The boolean tells that [storage.incrementSent] was started. *)
Definition channelLoop_examine (sid chName : string) (consecutiveErrors : Z)
    (result : SendResult) (waitSec : Z) : M (ChannelPc * bool) :=
  s ← readS sid;
  if shouldStop s then mret (CDone stopped, false)
  else if cooldownMs result =? -401 then mret (CDone token_invalid, false)
  else if sent result then
    modifyS sid (fun s => with_totalSent (totalSent s + 1) s);;
    s' ← readS sid;
    emitLog sid ("Delivered to #" +:+ chName +:+ " [Total: " +:+ pretty (totalSent s') +:+ "]")
            "success";;
    armed ← interruptibleSleep_begin sid;
    mret (if armed : bool then CSleep 0 (waitSec * 1000) 0 else CDone stopped, true)
  else
    let consecutiveErrors' := consecutiveErrors + 1 in
    let waitMs := backoffMs result consecutiveErrors' in
    let waitSec' := JS.ceilSeconds waitMs in
    (if 5 <? waitSec'
     then emitLog sid ("#" +:+ chName +:+ " waiting " +:+ pretty waitSec' +:+ "s before retry") "warn"
     else mret tt);;
    armed ← interruptibleSleep_begin sid;
    mret (if armed : bool then CSleep consecutiveErrors' waitMs 0 else CDone stopped, false).

(** [channelLoop] at the head of its [while]: the test of the flag, the
    call of [sendOneMessage] and its own test of the flag, up to [fetch]. *)
Definition channelLoop_iterate (sid chName : string) (consecutiveErrors : Z) : M (ChannelPc * bool) :=
  s ← readS sid;
  if shouldStop s then mret (CDone stopped, false)
  else
    s' ← getSession sid;
    if shouldStop s' then channelLoop_examine sid chName consecutiveErrors (mkSend false 0) 0
    else mret (CAwaitSend consecutiveErrors, false).

(** What can wake a channel loop: the settled [fetch] (with the random wait
    drawn after a delivery), the interval callback of its sleep, the timer
    of its sleep, or an exception that rejects its promise.  The module has
    no [throw] of its own: [ChThrow] stands for a fault of a callee, such as
    the installed log callback, and is the only way into the [catch] of the
    run. *)
Inductive ChanEvent :=
| ChResponse (r : FetchOutcome) (waitSec : Z)
| ChTick
| ChTimer
| ChThrow.

Definition channel_step (sid chName : string) (e : ChanEvent) (pc : ChannelPc)
    : option (M (ChannelPc * bool)) :=
  match pc, e with
  | CAwaitSend ce, ChResponse r waitSec =>
      Some (result ← sendOneMessage_classify sid chName r;
            channelLoop_examine sid chName ce result waitSec)
  | CSleep ce ms k, ChTick =>
      if tick_due ms k
      then Some (stop ← interruptibleSleep_check sid;
                 mret (if stop : bool then CDone stopped else CSleep ce ms (k + 1), false))
      else None
  | CSleep ce ms k, ChTimer =>
      if timer_due ms k then Some (channelLoop_iterate sid chName ce) else None
  | CSleep _ _ _, ChThrow => Some (mret (CFailed, false))
  | CAwaitSend _, ChThrow => Some (mret (CFailed, false))
  | _, _ => None
  end.

(** ** Tasks: where each asynchronous function is suspended *)

(** The arguments of [startSender]. *)
Record StartArgs := mkArgs {
  a_sessionId : string;
  a_token : string;
  a_message : string;
  a_channelIdsStr : string;
  a_delay : Z;
  a_isRestore : bool
}.

(** Who awaits the result of [startSender]: a route handler, the restart
    loop of an earlier run (with its [retryNum]) or [restoreAllSessions]. *)
Inductive Caller := ByRoute | BySupervisor (retryNum : Z) | ByRestore.

(** What a finished task returned. *)
Inductive Result :=
| StartResult (success : bool) (error : option string)
| StopResult (success : bool)
| StopAllResult (count : Z)
| Finished.

Inductive StorageCall :=
| CallGetConfig (sid : string)
| CallUpdateConfigStatus (sid : string) (active : bool)
| CallSetUserWantsActive (sid : string) (active : bool)
| CallIncrementSent (sid : string)
| CallUpsertConfig (sid : string) (data : Schema.PartialConfig).

Definition call_sid (c : StorageCall) : string :=
  match c with
  | CallGetConfig sid => sid
  | CallUpdateConfigStatus sid _ => sid
  | CallSetUserWantsActive sid _ => sid
  | CallIncrementSent sid => sid
  | CallUpsertConfig sid _ => sid
  end.

(** What follows an awaited storage call. *)
Inductive Kont :=
| KStartAfterStatus (a : StartArgs) (ids : list string) (c : Caller)
| KStartAfterIntent (a : StartArgs) (ids : list string) (c : Caller)
| KStartAfterUpsert (a : StartArgs) (ids : list string) (c : Caller)
| KFinally (sid : string) (loopResult : LoopResult) (userWantedStop : bool)
| KTokenInvalid (sid : string)
| KSupervisor (sid : string) (retryNum : Z)
| KStopReturn
| KStopAll (rest : list string) (count : Z)
| KDetached.

(** The program counter of a task.
    - [PStartWait]: [startSender] in the 300 ms timer of its drain loop;
    - [PStorage call existing k]: inside a storage method, before its
      [getConfig] has answered ([existing = None]) or before its write has
      ([existing = Some row]);
    - [PResolve]: [senderLoop] awaiting [fetchChannelName] for [ids[i]],
      [cached] being the cache entry found when it was called;
    - [PLoops]: [senderLoop] awaiting [Promise.all] of its channel loops;
    - [PDetached]: channel loops that outlive a rejected [Promise.all];
    - [PSupSleep]: the restart loop in its [interruptibleSleep];
    - [PDone]: returned. *)
Inductive Pc :=
| PStartWait (a : StartArgs) (c : Caller) (waited : Z)
| PStorage (call : StorageCall) (existing : option (option Schema.Config)) (k : Kont)
| PResolve (a : StartArgs) (ids : list string) (i : nat) (names : list string)
           (cached : option string)
| PLoops (a : StartArgs) (chNames : list string) (pool : list ChannelPc)
| PDetached (sid : string) (chNames : list string) (pool : list ChannelPc)
| PSupSleep (sid : string) (retryNum : Z) (ms : Z) (ticks : Z)
| PDone (r : Result).

(** *** The run: [senderLoop] and the [finally] of the launcher *)

(** The synchronous part of the [finally] block, up to
    [await storage.updateConfigStatus(sessionId, false)]. *)
Definition run_finally (sid : string) (loopResult : LoopResult) : M Pc :=
  s ← readS sid;
  let userWantedStop := shouldStop s in
  modifyS sid (with_isActive false);;
  modifyS sid (with_activeThreads 0);;
  modifyS sid (with_startTime None);;
  modifyS sid (with_shouldStop false);;
  mret (PStorage (CallUpdateConfigStatus sid false) None
                 (KFinally sid loopResult userWantedStop)).

(** The [catch] block followed by [finally]. *)
Definition run_catch (sid message : string) : M Pc :=
  emitLog sid ("Sender error: " +:+ message) "error";;
  run_finally sid LStopped.

Definition is_token_invalid (o : Outcome) : bool :=
  match o with token_invalid => true | _ => false end.

(** [senderLoop] after [Promise.all] has resolved with [results]. *)
Definition senderLoop_aggregate (sid : string) (results : list Outcome) : M LoopResult :=
  if existsb is_token_invalid results then
    modifyS sid (with_shouldStop true);;
    mret LTokenInvalid
  else
    emitLog sid "All channel loops ended" "warn";;
    mret LStopped.

(** [channelIds.map((channelId, i) => interruptibleSleep(sessionId, i * 2000)...)]:
    the start of every staggered sleep, from index [i] on. *)
Fixpoint launch_loops (sid : string) (i : Z) (ids : list string) : M (list ChannelPc) :=
  match ids with
  | [] => mret []
  | _ :: rest =>
      armed ← interruptibleSleep_begin sid;
      pool ← launch_loops sid (i + 1) rest;
      mret ((if armed : bool then CSleep 0 (i * 2000) 0 else CDone stopped) :: pool)
  end.

(** [names[i] || channelId] for every channel. *)
Fixpoint loop_names (names ids : list string) : list string :=
  match ids with
  | [] => []
  | cid :: ids' =>
      match names with
      | n :: names' => (if JS.falsy n then cid else n) :: loop_names names' ids'
      | [] => cid :: loop_names [] ids'
      end
  end.

(** [senderLoop] once every name is resolved: the two log lines and the
    launch of the loops. *)
Definition senderLoop_launch (a : StartArgs) (ids names : list string) : M Pc :=
  let sid := a_sessionId a in
  emitLog sid ("Resolved channels: " +:+ JS.join ", " (List.map (fun n => "#" +:+ n) names)) "info";;
  emitLog sid ("Sender active - " +:+ pretty (Z.of_nat (List.length ids)) +:+ " channel(s), "
               +:+ pretty (a_delay a) +:+ "s delay each") "success";;
  pool ← launch_loops sid 0 ids;
  mret (PLoops a (loop_names names ids) pool).

(** The head of [for (const id of channelIds)] at index [i]. *)
Definition senderLoop_for (a : StartArgs) (ids : list string) (i : nat) (names : list string)
    : M Pc :=
  let sid := a_sessionId a in
  match ids !! i with
  | Some cid =>
      s ← readS sid;
      if shouldStop s then run_finally sid LStopped
      else
        cached ← cachedName cid;
        mret (PResolve a ids i names (JS.truthy cached))
  | None => senderLoop_launch a ids names
  end.

(** [fetchChannelName] from the point where it returns: [cached] is the
    truthy cache entry it found on entry, if any; [fetched] is
    [Some data.name] of a successful response (the empty string when the
    body has none) and [None] for a failed or unsuccessful request. *)
Definition fetchChannelName_finish (cid : string) (cached fetched : option string) : M string :=
  match cached with
  | Some c => mret c
  | None =>
      match fetched with
      | Some n =>
          let nm := if JS.falsy n then cid else n in
          cacheName cid nm;;
          mret nm
      | None => mret cid
      end
  end.

(** [senderLoop] from its first line. *)
Definition senderLoop_begin (a : StartArgs) (ids : list string) : M Pc :=
  let sid := a_sessionId a in
  _ ← getSession sid;
  modifyS sid (with_activeThreads (Z.of_nat (List.length ids)));;
  senderLoop_for a ids 0 [].

(** *** The restart loop of the [finally] block and [startSender] *)

(** One turn of [while (true)] from [retryNum++] to the sleep. *)
Definition supervisor_iterate (sid : string) (retryNum : Z) : M Pc :=
  let retryNum' := retryNum + 1 in
  let waitTime := Z.min (retryNum' * 5) 60 in
  emitLog sid ("Unexpected stop - auto-restart #" +:+ pretty retryNum' +:+ " in "
               +:+ pretty waitTime +:+ "s...") "warn";;
  armed ← interruptibleSleep_begin sid;
  mret (if armed : bool then PSupSleep sid retryNum' (waitTime * 1000) 0 else PDone Finished).

(** [startSender] returns to its caller.  The restart loop leaves on a
    success and logs and goes round again on a failure. *)
Definition startSender_return (sid : string) (c : Caller) (success : bool) (error : string)
    : M Pc :=
  match c with
  | BySupervisor retryNum =>
      if success then mret (PDone Finished)
      else
        emitLog sid ("Restart failed: " +:+ error +:+ " - will retry") "warn";;
        supervisor_iterate sid retryNum
  | _ => mret (PDone (StartResult success (if success then None else Some error)))
  end.

(** [startSender] from [if (s.isActive)] to the first storage call. *)
Definition startSender_validate (a : StartArgs) (c : Caller) : M Pc :=
  let sid := a_sessionId a in
  s ← readS sid;
  if isActive s then startSender_return sid c false "Sender is already running"
  else
    let channelIds := parseChannelIds (a_channelIdsStr a) in
    if (List.length channelIds =? 0)%nat
    then startSender_return sid c false "No valid channel IDs provided"
    else if JS.falsy (a_token a) then startSender_return sid c false "Token is required"
    else if JS.falsy (a_message a)
    then startSender_return sid c false "Message content is required"
    else
      modifyS sid (with_isActive true);;
      modifyS sid (with_shouldStop false);;
      now ← dateNow;
      modifyS sid (with_startTime (Some now));;
      mret (PStorage (CallUpdateConfigStatus sid true) None (KStartAfterStatus a channelIds c)).

(** [startSender] from its first line. *)
Definition startSender_entry (a : StartArgs) (c : Caller) : M Pc :=
  let sid := a_sessionId a in
  s ← getSession sid;
  if isActive s && shouldStop s then
    if isActive s && (0 <? 5000) then mret (PStartWait a c 0)
    else startSender_validate a c
  else startSender_validate a c.

(** The 300 ms timer of the drain loop has fired. *)
Definition startSender_wake (a : StartArgs) (c : Caller) (waited : Z) : M Pc :=
  let sid := a_sessionId a in
  let waited' := waited + 300 in
  s ← readS sid;
  if isActive s && (waited' <? 5000) then mret (PStartWait a c waited')
  else startSender_validate a c.

(** [startSender] after [upsertConfig]: the start-up lines, the launch of
    the run up to its first [await], and the return of [{ success: true }]
    (the second component). *)
Definition startSender_launch (a : StartArgs) (ids : list string) (c : Caller) : M (Pc * list Pc) :=
  let sid := a_sessionId a in
  (if a_isRestore a
   then emitLog sid "Auto-resumed from previous session" "success"
   else emitLog sid "System initialized - Protocol active" "success");;
  emitLog sid ("Config: " +:+ pretty (Z.of_nat (List.length ids)) +:+ " target(s), "
               +:+ pretty (a_delay a) +:+ "s delay") "info";;
  run ← senderLoop_begin a ids;
  back ← startSender_return sid c true "";
  mret (run, [back]).

(** The restart loop after [await storage.getConfig(sessionId)]. *)
Definition supervisor_afterConfig (sid : string) (retryNum : Z) (config : option Schema.Config)
    : M Pc :=
  match config with
  | None =>
      emitLog sid "Auto-restart cancelled - user stopped or config removed" "warn";;
      mret (PDone Finished)
  | Some cfg =>
      if negb (Schema.userWantsActive cfg) then
        emitLog sid "Auto-restart cancelled - user stopped or config removed" "warn";;
        mret (PDone Finished)
      else if JS.falsy (Schema.token cfg) || JS.falsy (Schema.message cfg)
              || JS.falsy (Schema.channelIds cfg) then
        emitLog sid "Auto-restart waiting - incomplete config" "warn";;
        supervisor_iterate sid retryNum
      else
        emitLog sid "Auto-restarting sender..." "success";;
        startSender_entry
          (mkArgs sid (Schema.token cfg) (Schema.message cfg) (Schema.channelIds cfg)
                  (Schema.delay cfg) true)
          (BySupervisor retryNum)
  end.

(** The [finally] block after [await storage.updateConfigStatus(sessionId, false)]. *)
Definition run_afterStatus (sid : string) (loopResult : LoopResult) (userWantedStop : bool)
    : M Pc :=
  match loopResult with
  | LTokenInvalid =>
      mret (PStorage (CallSetUserWantsActive sid false) None (KTokenInvalid sid))
  | LStopped =>
      if negb userWantedStop then supervisor_iterate sid 0
      else
        emitLog sid "System shutdown complete" "warn";;
        mret (PDone Finished)
  end.

Definition run_tokenInvalid_log (sid : string) : M Pc :=
  emitLog sid "TOKEN INVALID - Sender stopped. Your token is invalid or has been changed. Please update your token and restart." "error";;
  mret (PDone Finished).

(** *** [stopSender], [stopAllSenders], [restoreAllSessions] *)

Definition stopSender_entry (sid : string) : M Pc :=
  s ← getSession sid;
  if negb (isActive s) then mret (PDone (StopResult false))
  else
    emitLog sid "Abort signal received - shutting down..." "warn";;
    modifyS sid (with_shouldStop true);;
    mret (PStorage (CallSetUserWantsActive sid false) None KStopReturn).

(** [stopAllSenders] over the entries it copied on entry, up to its next
    [await].  The source walks the registry in insertion order; the order
    of [map_to_list] stands for it, and no property below depends on it. *)
Fixpoint stopAllSenders_scan (entries : list string) (count : Z) : M Pc :=
  match entries with
  | [] => mret (PDone (StopAllResult count))
  | sid :: rest =>
      s ← readS sid;
      if isActive s then
        modifyS sid (with_shouldStop true);;
        mret (PStorage (CallSetUserWantsActive sid false) None (KStopAll rest count))
      else stopAllSenders_scan rest count
  end.

Definition stopAllSenders_entry : M Pc := fun w =>
  stopAllSenders_scan (map_to_list (sessions w)).*1 0 w.

(** The body of the loop of [restoreAllSessions] for a configuration that
    passes its guards, up to the first [await] of [startSender]. *)
Definition restore_one (cfg : Schema.Config) : M Pc :=
  let sid := Schema.sessionId cfg in
  _ ← getSession sid;
  modifyS sid (with_totalSent (Schema.totalSent cfg));;
  emitLog sid "Previous active session detected - auto-resuming..." "success";;
  startSender_entry
    (mkArgs sid (Schema.token cfg) (Schema.message cfg) (Schema.channelIds cfg)
            (Schema.delay cfg) true)
    ByRestore.

(** The guard of that loop. *)
Definition restorable (cfg : Schema.Config) : bool :=
  Schema.userWantsActive cfg && negb (JS.falsy (Schema.token cfg))
  && negb (JS.falsy (Schema.message cfg)) && negb (JS.falsy (Schema.channelIds cfg))
  && negb (JS.falsy (Schema.sessionId cfg)).

(** *** Storage calls as seen by a task *)

(** Whether the method issues a second query after its [getConfig] has
    returned [existing]: [getConfig] itself never, [upsertConfig] always,
    the others only [if (existing)]. *)
Definition needs_write (call : StorageCall) (existing : option Schema.Config) : bool :=
  match call with
  | CallGetConfig _ => false
  | CallUpsertConfig _ _ => true
  | _ => match existing with Some _ => true | None => false end
  end.

Definition storage_write (call : StorageCall) (existing : option Schema.Config)
    (newId : string) : M unit :=
  withConfigs
    match call with
    | CallGetConfig _ => fun t => t
    | CallUpdateConfigStatus _ b => Storage.updateConfigStatus_write existing b
    | CallSetUserWantsActive _ b => Storage.setUserWantsActive_write existing b
    | CallIncrementSent _ => Storage.incrementSent_write existing
    | CallUpsertConfig sid d => Storage.upsertConfig_write existing newId sid d
    end.

(** The continuation of an awaited storage call; [config] is what its
    [getConfig] returned.  The second component lists the tasks it starts. *)
Definition resume (k : Kont) (config : option Schema.Config) : M (Pc * list Pc) :=
  match k with
  | KStartAfterStatus a ids c =>
      mret (PStorage (CallSetUserWantsActive (a_sessionId a) true) None
                     (KStartAfterIntent a ids c), [])
  | KStartAfterIntent a ids c =>
      mret (PStorage (CallUpsertConfig (a_sessionId a)
                        (Schema.mkPartial None (Some (a_token a)) (Some (a_message a))
                                          (Some (a_channelIdsStr a)) (Some (a_delay a))))
                     None (KStartAfterUpsert a ids c), [])
  | KStartAfterUpsert a ids c => startSender_launch a ids c
  | KFinally sid loopResult userWantedStop =>
      pc ← run_afterStatus sid loopResult userWantedStop; mret (pc, [])
  | KTokenInvalid sid => pc ← run_tokenInvalid_log sid; mret (pc, [])
  | KSupervisor sid retryNum => pc ← supervisor_afterConfig sid retryNum config; mret (pc, [])
  | KStopReturn => mret (PDone (StopResult true), [])
  | KStopAll rest count => pc ← stopAllSenders_scan rest (count + 1); mret (pc, [])
  | KDetached => mret (PDone Finished, [])
  end.

(** A query of the task has completed. *)
Definition storage_step (call : StorageCall) (existing : option (option Schema.Config))
    (k : Kont) (newId : string) : M (Pc * list Pc) :=
  match existing with
  | None =>
      e ← readConfig (call_sid call);
      if needs_write call e then mret (PStorage call (Some e) k, [])
      else resume k e
  | Some e =>
      storage_write call e newId;;
      resume k e
  end.

(** ** The transition system *)

(** What wakes a task: the timer or the interval callback it waits for, a
    completed query ([newId] is the identifier the database gives a row it
    inserts), the settled request of [fetchChannelName], an event of the
    channel loop [j], [Promise.all] resolving, or the rejection that the
    [catch] of the run receives. *)
Inductive Event :=
| EvTimer
| EvTick
| EvDb (newId : string)
| EvName (fetched : option string)
| EvChannel (j : nat) (e : ChanEvent)
| EvAllSettled
| EvRejected (message : string).

Definition outcome_of (c : ChannelPc) : option Outcome :=
  match c with CDone o => Some o | _ => None end.

(** [Promise.all]: the results when every loop has returned. *)
Fixpoint all_settled (pool : list ChannelPc) : option (list Outcome) :=
  match pool with
  | [] => Some []
  | c :: rest =>
      match outcome_of c, all_settled rest with
      | Some o, Some os => Some (o :: os)
      | _, _ => None
      end
  end.

Definition is_failed (c : ChannelPc) : bool :=
  match c with CFailed => true | _ => false end.

Definition pool_step (sid : string) (chNames : list string) (pool : list ChannelPc)
    (j : nat) (e : ChanEvent) : option (M (list ChannelPc * list Pc)) :=
  match pool !! j with
  | Some c =>
      match channel_step sid (default "" (chNames !! j)) e c with
      | Some m =>
          Some (r ← m;
                mret (<[j := r.1]> pool,
                      if r.2 : bool then [PStorage (CallIncrementSent sid) None KDetached]
                      else []))
      | None => None
      end
  | None => None
  end.

Definition task_step (e : Event) (pc : Pc) : option (M (Pc * list Pc)) :=
  match pc, e with
  | PStartWait a c waited, EvTimer =>
      Some (pc' ← startSender_wake a c waited; mret (pc', []))
  | PStorage call existing k, EvDb newId => Some (storage_step call existing k newId)
  | PResolve a ids i names cached, EvName fetched =>
      Some (nm ← fetchChannelName_finish (default "" (ids !! i)) cached fetched;
            pc' ← senderLoop_for a ids (S i) (names ++ [nm])%list;
            mret (pc', []))
  | PResolve a ids i names cached, EvRejected msg =>
      Some (pc' ← run_catch (a_sessionId a) msg; mret (pc', []))
  | PLoops a chNames pool, EvChannel j ce =>
      match pool_step (a_sessionId a) chNames pool j ce with
      | Some m => Some (r ← m; mret (PLoops a chNames r.1, r.2))
      | None => None
      end
  | PLoops a chNames pool, EvAllSettled =>
      match all_settled pool with
      | Some results =>
          Some (loopResult ← senderLoop_aggregate (a_sessionId a) results;
                pc' ← run_finally (a_sessionId a) loopResult;
                mret (pc', []))
      | None => None
      end
  | PLoops a chNames pool, EvRejected msg =>
      if existsb is_failed pool
      then Some (pc' ← run_catch (a_sessionId a) msg;
                 mret (pc', [PDetached (a_sessionId a) chNames pool]))
      else None
  | PDetached sid chNames pool, EvChannel j ce =>
      match pool_step sid chNames pool j ce with
      | Some m => Some (r ← m; mret (PDetached sid chNames r.1, r.2))
      | None => None
      end
  | PSupSleep sid retryNum ms k, EvTick =>
      if tick_due ms k
      then Some (stop ← interruptibleSleep_check sid;
                 mret (if stop : bool then PDone Finished else PSupSleep sid retryNum ms (k + 1), []))
      else None
  | PSupSleep sid retryNum ms k, EvTimer =>
      if timer_due ms k
      then Some (mret (PStorage (CallGetConfig sid) None (KSupervisor sid retryNum), []))
      else None
  | _, _ => None
  end.

Record State := mkState { world : World; tasks : list Pc }.

Definition initial : State := mkState emptyWorld [].

(** The moves of the system: a call from outside the module, a write of
    another module to the [configs] table, the clock, or the next
    synchronous block of task [i].  [Call_restore cfg] is one turn of the
    loop of [restoreAllSessions] for a configuration that is resumed; a
    turn that removes the configuration of a session that is not approved
    is a write to the table, [Env_storage]. *)
Inductive Label :=
| Call_startSender (a : StartArgs)
| Call_stopSender (sid : string)
| Call_stopAllSenders
| Call_getStatus (sid : string)
| Call_restore (cfg : Schema.Config)
| Env_storage (f : Storage.Table -> Storage.Table)
| Env_clock (t : Z)
| Resume (i : nat) (e : Event).

Definition spawn (m : M Pc) (st : State) : State :=
  let (pc, w) := m (world st) in mkState w (tasks st ++ [pc])%list.

Definition step (l : Label) (st : State) : option State :=
  match l with
  | Call_startSender a => Some (spawn (startSender_entry a ByRoute) st)
  | Call_stopSender sid => Some (spawn (stopSender_entry sid) st)
  | Call_stopAllSenders => Some (spawn stopAllSenders_entry st)
  | Call_getStatus sid => Some (mkState (getStatus sid (world st)).2 (tasks st))
  | Call_restore cfg =>
      if restorable cfg then Some (spawn (restore_one cfg) st) else None
  | Env_storage f => Some (mkState (stored f (world st)) (tasks st))
  | Env_clock t => Some (mkState (at_time t (world st)) (tasks st))
  | Resume i e =>
      match tasks st !! i with
      | Some pc =>
          match task_step e pc with
          | Some m =>
              let (r, w) := m (world st) in
              Some (mkState w (<[i := r.1]> (tasks st) ++ r.2)%list)
          | None => None
          end
      | None => None
      end
  end.

Fixpoint exec (ls : list Label) (st : State) : option State :=
  match ls with
  | [] => Some st
  | l :: ls' =>
      match step l st with
      | Some st' => exec ls' st'
      | None => None
      end
  end.

Definition reachable (st : State) : Prop := exists ls, exec ls initial = Some st.

(** ** The other tables (shared/schema.ts) *)

Module Tables.

(** The rows of [logs], [site_settings], [access_requests],
    [approved_users] and [saved_configs].  [createdAt] is the time of the
    insert ([defaultNow()]). *)
Record Log := mkLogRow {
  l_id : string;
  l_configId : string;
  l_message : string;
  l_level : string;
  l_createdAt : Z
}.

Record SiteSettings := mkSettings {
  ss_id : string;
  ss_isLocked : bool
}.

Record AccessRequest := mkRequest {
  ar_id : string;
  ar_sessionId : string;
  ar_applicationText : string;
  ar_status : string;
  ar_createdAt : Z
}.

Record ApprovedUser := mkUser {
  au_id : string;
  au_sessionId : string;
  au_displayName : string;
  au_createdAt : Z
}.

Record SavedConfig := mkSaved {
  sc_id : string;
  sc_sessionId : string;
  sc_name : string;
  sc_token : string;
  sc_message : string;
  sc_channelIds : string;
  sc_delay : Z;
  sc_createdAt : Z
}.

(** The database: the rows of every table, in the order of their insertion. *)
Record Database := mkDb {
  db_configs : Storage.Table;
  db_logs : list Log;
  db_siteSettings : list SiteSettings;
  db_accessRequests : list AccessRequest;
  db_approvedUsers : list ApprovedUser;
  db_savedConfigs : list SavedConfig
}.

Definition emptyDb : Database := mkDb [] [] [] [] [] [].

Definition on_configs (f : Storage.Table -> Storage.Table) (d : Database) : Database :=
  mkDb (f (db_configs d)) (db_logs d) (db_siteSettings d) (db_accessRequests d)
       (db_approvedUsers d) (db_savedConfigs d).

Definition on_logs (f : list Log -> list Log) (d : Database) : Database :=
  mkDb (db_configs d) (f (db_logs d)) (db_siteSettings d) (db_accessRequests d)
       (db_approvedUsers d) (db_savedConfigs d).

Definition on_siteSettings (f : list SiteSettings -> list SiteSettings) (d : Database)
    : Database :=
  mkDb (db_configs d) (db_logs d) (f (db_siteSettings d)) (db_accessRequests d)
       (db_approvedUsers d) (db_savedConfigs d).

Definition on_accessRequests (f : list AccessRequest -> list AccessRequest) (d : Database)
    : Database :=
  mkDb (db_configs d) (db_logs d) (db_siteSettings d) (f (db_accessRequests d))
       (db_approvedUsers d) (db_savedConfigs d).

Definition on_approvedUsers (f : list ApprovedUser -> list ApprovedUser) (d : Database)
    : Database :=
  mkDb (db_configs d) (db_logs d) (db_siteSettings d) (db_accessRequests d)
       (f (db_approvedUsers d)) (db_savedConfigs d).

Definition on_savedConfigs (f : list SavedConfig -> list SavedConfig) (d : Database)
    : Database :=
  mkDb (db_configs d) (db_logs d) (db_siteSettings d) (db_accessRequests d)
       (db_approvedUsers d) (f (db_savedConfigs d)).

End Tables.

(** [orderBy(desc(createdAt))]: the newest row first.  The database leaves
    the order of rows with equal timestamps open; the sort used here is
    one such order. *)
Definition newer {A : Type} (createdAt : A -> Z) : relation A :=
  fun a b => createdAt b <= createdAt a.

#[global] Instance newer_dec {A : Type} (createdAt : A -> Z) : RelDecision (newer createdAt).
Proof. intros a b. unfold newer. apply _. Defined.

Definition newest_first {A : Type} (createdAt : A -> Z) (rows : list A) : list A :=
  merge_sort (newer createdAt) rows.

(** ** DatabaseStorage (server/storage.ts): the other methods

    Each method is given as it runs when no other query comes between its
    own.  [newId] is the identifier and [now] the timestamp that the
    database gives a row it inserts. *)

Module DatabaseStorage.
Import Tables.

Definition getAllActiveConfigs (d : Database) : list Schema.Config :=
  List.filter Schema.userWantsActive (db_configs d).

Definition addLog (newId : string) (now : Z) (configId message level : string)
    (d : Database) : Log * Database :=
  let log := mkLogRow newId configId message level now in
  (log, on_logs (fun t => t ++ [log])%list d).

(** [getLogs(configId, limit = 50)] *)
Definition getLogs (configId : string) (limit : option nat) (d : Database) : list Log :=
  take (default 50%nat limit)
       (newest_first l_createdAt
          (List.filter (fun l => String.eqb (l_configId l) configId) (db_logs d))).

Definition deleteLogsByConfigId (configId : string) (d : Database) : Database :=
  on_logs (List.filter (fun l => negb (String.eqb (l_configId l) configId))) d.

Definition deleteConfig (sessionId : string) (d : Database) : Database :=
  match Storage.getConfig sessionId (db_configs d) with
  | Some config =>
      on_configs
        (List.filter (fun c => negb (String.eqb (Schema.id c) (Schema.id config))))
        (deleteLogsByConfigId (Schema.id config) d)
  | None => d
  end.

(** [eq(siteSettings.id, "main")] *)
Definition is_main (s : SiteSettings) : bool := String.eqb (ss_id s) "main".

Definition getSiteSettings (d : Database) : SiteSettings * Database :=
  match List.find is_main (db_siteSettings d) with
  | Some settings => (settings, d)
  | None =>
      let created := mkSettings "main" false in
      (created, on_siteSettings (fun t => t ++ [created])%list d)
  end.

(** [const [updated] = ...returning()]: the first of the rows updated. *)
Definition setSiteLocked (locked : bool) (d : Database) : option SiteSettings * Database :=
  let (_, d1) := getSiteSettings d in
  let d2 :=
    on_siteSettings
      (List.map (fun s => if is_main s then mkSettings (ss_id s) locked else s)) d1 in
  (List.find is_main (db_siteSettings d2), d2).

Definition createAccessRequest (newId : string) (now : Z) (sessionId text : string)
    (d : Database) : AccessRequest * Database :=
  let req := mkRequest newId sessionId text "pending" now in
  (req, on_accessRequests (fun t => t ++ [req])%list d).


Definition getAccessRequestBySession (sessionId : string) (d : Database)
    : option AccessRequest :=
  List.find (fun r => String.eqb (ar_sessionId r) sessionId
                      && String.eqb (ar_status r) "pending")
            (db_accessRequests d).


Definition getApprovedUser (sessionId : string) (d : Database) : option ApprovedUser :=
  List.find (fun u => String.eqb (au_sessionId u) sessionId) (db_approvedUsers d).

Definition with_displayName (displayName : string) (u : ApprovedUser) : ApprovedUser :=
  mkUser (au_id u) (au_sessionId u) displayName (au_createdAt u).

Definition updateApprovedUserName (id displayName : string) (d : Database) : Database :=
  on_approvedUsers
    (List.map (fun u => if String.eqb (au_id u) id then with_displayName displayName u
                        else u)) d.

Definition addApprovedUser (newId : string) (now : Z) (sessionId displayName : string)
    (d : Database) : option ApprovedUser * Database :=
  match getApprovedUser sessionId d with
  | Some existing =>
      let d1 := updateApprovedUserName (au_id existing) displayName d in
      (List.find (fun u => String.eqb (au_id u) (au_id existing)) (db_approvedUsers d1), d1)
  | None =>
      let user := mkUser newId sessionId displayName now in
      (Some user, on_approvedUsers (fun t => t ++ [user])%list d)
  end.

Definition getAllApprovedUsers (d : Database) : list ApprovedUser :=
  newest_first au_createdAt (db_approvedUsers d).

Definition removeApprovedUser (id : string) (d : Database) : Database :=
  match List.find (fun u => String.eqb (au_id u) id) (db_approvedUsers d) with
  | Some user =>
      on_accessRequests
        (List.filter (fun r => negb (String.eqb (ar_sessionId r) (au_sessionId user))))
        (on_approvedUsers
           (List.filter (fun u => negb (String.eqb (au_id u) id)))
           (deleteConfig (au_sessionId user) d))
  | None => d
  end.

Definition getSavedConfigs (sessionId : string) (d : Database) : list SavedConfig :=
  newest_first sc_createdAt
    (List.filter (fun s => String.eqb (sc_sessionId s) sessionId) (db_savedConfigs d)).

Definition createSavedConfig (newId : string) (now : Z) (sessionId name token message
    channelIds : string) (delay : Z) (d : Database) : SavedConfig * Database :=
  let saved := mkSaved newId sessionId name token message channelIds delay now in
  (saved, on_savedConfigs (fun t => t ++ [saved])%list d).

Definition deleteSavedConfig (id sessionId : string) (d : Database) : Database :=
  on_savedConfigs
    (List.filter (fun s => negb (String.eqb (sc_id s) id
                                 && String.eqb (sc_sessionId s) sessionId))) d.

(** [upsertConfig] with the row it returns: the first of the rows updated,
    or the row inserted. *)
Definition upsertConfig (newId sessionId : string) (data : Schema.PartialConfig)
    (d : Database) : option Schema.Config * Database :=
  let d1 := on_configs (Storage.upsertConfig newId sessionId data) d in
  (match Storage.getConfig sessionId (db_configs d) with
   | Some existing =>
       List.find (fun c => String.eqb (Schema.id c) (Schema.id existing)) (db_configs d1)
   | None => Some (Storage.inserted_row newId sessionId data)
   end, d1).

End DatabaseStorage.

(** ** The route handlers that only use the storage (server/routes.ts)

    A handler is a function of the session identifier that [ensureSession]
    returned, of the fields of the request body (absent fields are [None])
    and of whether the request carries the administrator's cookie
    ([isAdmin(req)]).  Its result is the response and the database it
    leaves. *)

Module Routes.
Import Tables DatabaseStorage.

Record AccessStatus := mkAccess {
  locked : bool;
  hasAccess : bool;
  status : string;
  displayName : option string
}.

Inductive Body :=
| Success
| Access (a : AccessStatus)
| ConfigBody (c : option Schema.Config)
| SavedBody (s : SavedConfig)
| SavedList (l : list SavedConfig).

(** [res.json(body)] and [res.status(code).json({ message })]. *)
Inductive Response :=
| Json (body : Body)
| Error (code : Z) (message : string).

(** [!x] on a field of the body that is a string when present. *)
Definition missing (x : option string) : bool :=
  match x with Some s => JS.falsy s | None => true end.

(** [Math.min(250, Math.max(10, delay || 30))] *)
Definition clampDelay (delay : option Z) : Z :=
  Z.min 250 (Z.max 10 (Storage.orDelay delay)).

Definition checkAccess (sessionId : string) (d : Database) : bool * Database :=
  let (settings, d1) := getSiteSettings d in
  if negb (ss_isLocked settings) then (true, d1)
  else (match getApprovedUser sessionId d1 with Some _ => true | None => false end, d1).

(** GET /api/access-status *)
Definition get_access_status (sessionId : string) (d : Database) : Response * Database :=
  let (settings, d1) := getSiteSettings d in
  if negb (ss_isLocked settings) then (Json (Access (mkAccess false true "open" None)), d1)
  else
    match getApprovedUser sessionId d1 with
    | Some approved =>
        (Json (Access (mkAccess true true "approved" (Some (au_displayName approved)))), d1)
    | None =>
        match getAccessRequestBySession sessionId d1 with
        | Some _ => (Json (Access (mkAccess true false "pending" None)), d1)
        | None => (Json (Access (mkAccess true false "none" None)), d1)
        end
    end.

(** POST /api/apply *)
Definition post_apply (sessionId : string) (applicationText : option string)
    (newId : string) (now : Z) (d : Database) : Response * Database :=
  if missing applicationText || JS.falsy (JS.trim (default "" applicationText))
  then (Error 400 "Application text is required", d)
  else
    match getAccessRequestBySession sessionId d with
    | Some _ => (Error 400 "You already have a pending application", d)
    | None =>
        match getApprovedUser sessionId d with
        | Some _ => (Error 400 "You already have access", d)
        | None =>
            (Json Success,
             (createAccessRequest newId now sessionId
                                  (JS.trim (default "" applicationText)) d).2)
        end
    end.



(** GET /api/config *)
Definition get_config (sessionId newId : string) (d : Database) : Response * Database :=
  let (ok, d1) := checkAccess sessionId d in
  if negb ok then (Error 403 "Access denied", d1)
  else
    match Storage.getConfig sessionId (db_configs d1) with
    | Some config => (Json (ConfigBody (Some config)), d1)
    | None =>
        let (config, d2) :=
          upsertConfig newId sessionId
            (Schema.mkPartial (Some "Default Config") None None None None) d1 in
        (Json (ConfigBody config), d2)
    end.

(** POST /api/config *)
Definition post_config (sessionId : string) (name token message channelIds : option string)
    (delay : option Z) (newId : string) (d : Database) : Response * Database :=
  let (ok, d1) := checkAccess sessionId d in
  if negb ok then (Error 403 "Access denied", d1)
  else
    let (config, d2) :=
      upsertConfig newId sessionId
        (Schema.mkPartial (Some (Storage.orString name "Default Config"))
                          (Some (Storage.orString token ""))
                          (Some (Storage.orString message ""))
                          (Some (Storage.orString channelIds ""))
                          (Some (clampDelay delay))) d1 in
    (Json (ConfigBody config), d2).

(** GET /api/saved-configs *)
Definition get_saved_configs (sessionId : string) (d : Database) : Response * Database :=
  let (ok, d1) := checkAccess sessionId d in
  if negb ok then (Error 403 "Access denied", d1)
  else (Json (SavedList (getSavedConfigs sessionId d1)), d1).

(** POST /api/saved-configs *)
Definition post_saved_configs (sessionId : string) (name token message channelIds
    : option string) (delay : option Z) (newId : string) (now : Z) (d : Database)
    : Response * Database :=
  let (ok, d1) := checkAccess sessionId d in
  if negb ok then (Error 403 "Access denied", d1)
  else if missing name || JS.falsy (JS.trim (default "" name))
  then (Error 400 "Config name is required", d1)
  else
    let (saved, d2) :=
      createSavedConfig newId now sessionId (JS.trim (default "" name))
                        (Storage.orString token "") (Storage.orString message "")
                        (Storage.orString channelIds "") (clampDelay delay) d1 in
    (Json (SavedBody saved), d2).

(** DELETE /api/saved-configs/:id *)
Definition delete_saved_config (sessionId id : string) (d : Database) : Response * Database :=
  let (ok, d1) := checkAccess sessionId d in
  if negb ok then (Error 403 "Access denied", d1)
  else (Json Success, deleteSavedConfig id sessionId d1).

(** POST /api/admin/toggle-lock, the loop that follows [stopAllSenders]
    when the site has just been locked: [allConfigs] is the answer of
    [getAllConfigs], and the configuration of every session that is not
    approved is deleted. *)
Fixpoint purge (approvedSessionIds : list string) (allConfigs : list Schema.Config)
    (d : Database) : Database :=
  match allConfigs with
  | [] => d
  | config :: rest =>
      purge approvedSessionIds rest
        (if bool_decide (Schema.sessionId config ∈ approvedSessionIds) then d
         else deleteConfig (Schema.sessionId config) d)
  end.

Definition purge_unapproved (allConfigs : list Schema.Config) (d : Database) : Database :=
  purge (au_sessionId <$> getAllApprovedUsers d) allConfigs d.

End Routes.

(** ** Notions used to state the properties *)

(** *** One task on its own *)

(** The pending queries of one task answered one after the other, nothing
    else running in between: at most [fuel] queries. *)
Fixpoint settle (fuel : nat) (newId : string) (pc : Pc) : M (Pc * list Pc) :=
  match fuel, pc with
  | S fuel', PStorage call existing k =>
      r ← storage_step call existing k newId;
      r' ← settle fuel' newId r.1;
      mret (r'.1, (r.2 ++ r'.2)%list)
  | _, _ => mret (pc, [])
  end.

(** The world after a storage method of the shape "read the row of the
    session, then update it by its id" has run on its own: nothing is
    written when the session has no row. *)
Definition write_if_found (sid : string) (f : Schema.Config -> Schema.Config) (w : World)
    : World :=
  match Storage.getConfig sid (configs w) with
  | Some e => stored (Storage.update_where_id (Schema.id e) f) w
  | None => w
  end.

(** The world after [emitLog(sid, msg, level)]. *)
Definition emit (sid msg level : string) (w : World) : World :=
  (emitLog sid msg level w).2.

(** *** The words of the claims *)

(** A token "composed entirely of digits", in the words of the
    specification: at least one character, and digits only. *)
Definition composed_of_digits (t : string) : Prop :=
  t <> "" /\ forall c, In c (list_ascii_of_string t) -> JS.isDigit c = true.

(** The line feed. *)
Definition LF : string := String (ascii_of_nat 10) "".

(** The two characters that separate tokens: the comma and the newline. *)
Definition separator (c : ascii) : Prop := c = ","%char \/ c = ascii_of_nat 10.

Definition separator_free (s : string) : Prop :=
  forall c, In c (list_ascii_of_string s) -> ~ separator c.

(** The white space of ECMAScript by code point: TAB, LF, VT, FF, CR, SP,
    NBSP, the other space separators of Unicode, the line and paragraph
    separators, and the byte order mark. *)
Definition white_space_code_points : list N :=
  [0x9; 0xA; 0xB; 0xC; 0xD; 0x20; 0xA0; 0x1680;
   0x2000; 0x2001; 0x2002; 0x2003; 0x2004; 0x2005; 0x2006; 0x2007; 0x2008; 0x2009; 0x200A;
   0x2028; 0x2029; 0x202F; 0x205F; 0x3000; 0xFEFF]%N.

(** The UTF-8 encoding of a code point below U+10000. *)
Definition utf8 (cp : N) : string :=
  (if cp <? 0x80 then String (ascii_of_N cp) ""
   else if cp <? 0x800 then
     String (ascii_of_N (0xC0 + cp / 64)) (String (ascii_of_N (0x80 + cp mod 64)) "")
   else
     String (ascii_of_N (0xE0 + cp / 4096))
       (String (ascii_of_N (0x80 + (cp / 64) mod 64))
          (String (ascii_of_N (0x80 + cp mod 64)) "")))%N.

Definition white_space : list string := List.map utf8 white_space_code_points.

(** A string of white space and nothing else. *)
Inductive blank : string -> Prop :=
  | blank_nil : blank ""
  | blank_cons w s : In w white_space -> blank s -> blank (w +:+ s).

Definition starts_with (p s : string) : Prop := exists r, s = p +:+ r.

Definition ends_with (p s : string) : Prop := exists r, s = r +:+ p.

(** A delivery attempt that the specification calls [TransientError]: a
    network failure, or a status that is neither a success nor 429, 401
    or 403. *)
Definition transient (r : FetchOutcome) : bool :=
  match r with
  | NetworkError _ => true
  | HttpResponse status _ =>
      negb (response_ok status) && negb (status =? 429) && negb (status =? 401)
      && negb (status =? 403)
  end.

(** Where a channel loop is after its delivery attempt has settled with
    [r] while the loop had counted [consecutiveErrors] failures: the wait
    it enters and the error count it carries, or its outcome. *)
Definition loop_after (sid chName : string) (consecutiveErrors : Z) (r : FetchOutcome)
    (waitSec : Z) (w : World) : option ChannelPc :=
  match channel_step sid chName (ChResponse r waitSec) (CAwaitSend consecutiveErrors) with
  | Some m => Some (m w).1.1
  | None => None
  end.

(** The channel loop [j] of the run that is task [i]. *)
Definition loop_state (i j : nat) (st : State) : option ChannelPc :=
  match tasks st !! i with
  | Some (PLoops _ _ pool) => pool !! j
  | _ => None
  end.

(** A channel loop that has returned. *)
Definition returned (c : ChannelPc) : Prop := exists o, c = CDone o.

(** The error line of a run that ended with an invalid token. *)
Definition token_invalid_line (sid : string) : LogLine :=
  mkLog sid "TOKEN INVALID - Sender stopped. Your token is invalid or has been changed. Please update your token and restart." "error".

(** A stored configuration is complete when the restart loop can start
    from it: token, message and channel list are all non-empty. *)
Definition complete (cfg : Schema.Config) : bool :=
  negb (JS.falsy (Schema.token cfg) || JS.falsy (Schema.message cfg)
        || JS.falsy (Schema.channelIds cfg)).

(** The arguments the restart loop passes to [startSender]. *)
Definition restart_args (sid : string) (cfg : Schema.Config) : StartArgs :=
  mkArgs sid (Schema.token cfg) (Schema.message cfg) (Schema.channelIds cfg)
         (Schema.delay cfg) true.

(** *** The idle invariant

    What the specification requires of every status that can be observed:
    an inactive session has no active threads and no start time. *)
Definition idle_ok (st : Status) : Prop :=
  st_isActive st = false -> st_activeThreads st = 0 /\ st_startTime st = None.

(** A task is live for a session when it is a run of that session that
    has marked the session active and has not yet executed its [finally]
    block: [startSender] past its checks, or [senderLoop]. *)
Definition args_live (sid : string) (a : StartArgs) : bool :=
  bool_decide (a_sessionId a = sid).

Definition is_live (sid : string) (pc : Pc) : bool :=
  match pc with
  | PStorage _ _ (KStartAfterStatus a _ _) => args_live sid a
  | PStorage _ _ (KStartAfterIntent a _ _) => args_live sid a
  | PStorage _ _ (KStartAfterUpsert a _ _) => args_live sid a
  | PResolve a _ _ _ _ => args_live sid a
  | PLoops a _ _ => args_live sid a
  | _ => false
  end.

Definition b2n (b : bool) : nat := if b then 1%nat else 0%nat.

Fixpoint live (sid : string) (ts : list Pc) : nat :=
  match ts with
  | [] => 0%nat
  | pc :: r => (b2n (is_live sid pc) + live sid r)%nat
  end.

(** The record of a session against the number [n] of its live tasks: an
    active session has at most one, an inactive session has none, and is
    idle in every field. *)
Definition good (s : SessionSender) (n : nat) : Prop :=
  if isActive s then (n <= 1)%nat
  else n = 0%nat /\ activeThreads s = 0 /\ startTime s = None /\ shouldStop s = false.

(** The invariant of a world in which session [sid] has [cnt sid] live
    tasks: every record is [good], and every status that was broadcast
    satisfied [idle_ok]. *)
Definition winv (cnt : string -> nat) (w : World) : Prop :=
  (forall sid, good (deref sid w) (cnt sid))
  /\ Forall (fun b => idle_ok b.2) (broadcasts w).

Definition Inv (st : State) : Prop := winv (fun sid => live sid (tasks st)) (world st).

(** One more live task for session [sid]. *)
Definition plus_live (cnt : string -> nat) (sid : string) : string -> nat :=
  fun s => (cnt s + b2n (bool_decide (sid = s)))%nat.

(** The invariant after a block that leaves its task at [r.1] in the world
    [r.2], [cnt] counting the live tasks other than this one; and the same
    for a block that also starts the tasks [r.1.2]. *)
Definition after (cnt : string -> nat) (r : Pc * World) : Prop :=
  winv (fun s => (cnt s + b2n (is_live s r.1))%nat) r.2.

Definition after2 (cnt : string -> nat) (r : Pc * list Pc * World) : Prop :=
  winv (fun s => (cnt s + b2n (is_live s r.1.1) + live s r.1.2)%nat) r.2.

(** *** Counting deliveries *)

(** The in-memory total and the stored total of a session. *)
Definition memory_total (sid : string) (st : State) : Z :=
  totalSent (deref sid (world st)).

Definition stored_total (sid : string) (st : State) : option Z :=
  Schema.totalSent <$> Storage.getConfig sid (configs (world st)).

(** The channel loops of session [sid] that a task holds. *)
Definition pool_of (sid : string) (pc : Pc) : option (list ChannelPc) :=
  match pc with
  | PLoops a _ pool => if bool_decide (a_sessionId a = sid) then Some pool else None
  | PDetached sid' _ pool => if bool_decide (sid' = sid) then Some pool else None
  | _ => None
  end.

Definition in_flight (c : ChannelPc) : bool :=
  match c with CAwaitSend _ => true | _ => false end.

Definition succeeds (r : FetchOutcome) : bool :=
  match r with HttpResponse status _ => response_ok status | NetworkError _ => false end.

(** A move of the system is a delivery for session [sid] when it hands a
    successful response to a request that a channel loop of that session
    has in flight: the upstream service has accepted a message. *)
Definition delivery (sid : string) (l : Label) (st : State) : bool :=
  match l with
  | Resume i (EvChannel j (ChResponse r _)) =>
      match tasks st !! i ≫= pool_of sid with
      | Some pool => succeeds r && default false (in_flight <$> pool !! j)
      | None => false
      end
  | _ => false
  end.

(** A delivery is counted when the cancellation flag of the session is
    clear at that moment. *)
Definition counted (sid : string) (l : Label) (st : State) : bool :=
  delivery sid l st && negb (shouldStop (deref sid (world st))).

(** [restoreAllSessions] overwrites the in-memory total of the session. *)
Definition seeds (sid : string) (l : Label) : bool :=
  match l with
  | Call_restore cfg => bool_decide (Schema.sessionId cfg = sid)
  | _ => false
  end.

(** The number of counted deliveries along an execution. *)
Fixpoint counted_deliveries (sid : string) (ls : list Label) (st : State) : Z :=
  match ls with
  | [] => 0
  | l :: ls' =>
      match step l st with
      | Some st' => (if counted sid l st then 1 else 0) + counted_deliveries sid ls' st'
      | None => 0
      end
  end.

(** The number of deliveries along an execution, counted or not. *)
Fixpoint deliveries (sid : string) (ls : list Label) (st : State) : Z :=
  match ls with
  | [] => 0
  | l :: ls' =>
      match step l st with
      | Some st' => (if delivery sid l st then 1 else 0) + deliveries sid ls' st'
      | None => 0
      end
  end.

(** The totals of every session are the same in two worlds. *)
Definition same_totals (w w' : World) : Prop :=
  forall sid, totalSent (deref sid w') = totalSent (deref sid w).

(** *** A sample session *)

(** A session in the middle of a run, with the cancellation flag as
    given. *)
Definition running_world (sid : string) (stop : bool) : World :=
  mkWorld {[ sid := mkSession true 0 1 (Some 0) stop sid ]} ∅ [] [] [] 0.

(** Session ["s1"] has a stored configuration for the channels ["1"] and
    ["2"]; a route starts it at time 1000, the six queries of
    [startSender] are answered, and the two names are resolved (the first
    by the service, the second not), which launches the two channel loops:
    the run is task 0 and the result of the call is task 1. *)
Definition sample_args : StartArgs := mkArgs "s1" "tok" "hi" "1,2" 10 false.

Definition sample_row : Schema.Config :=
  Schema.mkConfig "r1" "s1" "Default Config" "tok" "hi" "1,2" 10 false false 0.

Definition db : Event := EvDb "r2".

Definition sample_launch : list Label :=
  [Env_storage (fun t => t ++ [sample_row])%list; Env_clock 1000;
   Call_startSender sample_args;
   Resume 0 db; Resume 0 db; Resume 0 db; Resume 0 db; Resume 0 db; Resume 0 db;
   Resume 0 (EvName (Some "general")); Resume 0 (EvName None)].

Definition sample_launch_state : State :=
  default initial (exec sample_launch initial).

(** The request of the first loop comes back with status 401 while the
    second loop is still in its staggered start. *)
Definition sample_one_unauthorized : list Label :=
  (sample_launch ++
   [Resume 0 (EvChannel 0 ChTimer);
    Resume 0 (EvChannel 0 (ChResponse (HttpResponse 401 None) 0))])%list.

(** The second loop then starts, and its request succeeds. *)
Definition sample_other_delivers : list Label :=
  (replicate 9 (Resume 0 (EvChannel 1 ChTick)) ++
   [Resume 0 (EvChannel 1 ChTimer);
    Resume 0 (EvChannel 1 (ChResponse (HttpResponse 200 None) 10))])%list.

(** The first loop starts its request and a route calls [stopSender] while
    the request is in flight. *)
Definition sample_stop_in_flight : list Label :=
  (sample_launch ++
   [Resume 0 (EvChannel 0 ChTimer); Call_stopSender "s1"])%list.

(** That request comes back with status 401. *)
Definition sample_unauthorized : Label :=
  Resume 0 (EvChannel 0 (ChResponse (HttpResponse 401 None) 0)).

(** That request succeeds instead. *)
Definition sample_delivered_after_stop : list Label :=
  (sample_stop_in_flight ++
   [Resume 0 (EvChannel 0 (ChResponse (HttpResponse 200 None) 10))])%list.

(** Both requests of the sample session come back with status 401: the
    first loop sends at once, the second after its staggered start of
    2000 ms (nine interval callbacks, then the timer). *)
Definition sample_both_unauthorized : list Label :=
  (sample_launch ++
   [Resume 0 (EvChannel 0 ChTimer);
    Resume 0 (EvChannel 0 (ChResponse (HttpResponse 401 None) 0))] ++
   replicate 9 (Resume 0 (EvChannel 1 ChTick)) ++
   [Resume 0 (EvChannel 1 ChTimer);
    Resume 0 (EvChannel 1 (ChResponse (HttpResponse 401 None) 0))])%list.

Definition sample_both_unauthorized_state : State :=
  default initial (exec sample_both_unauthorized initial).

(** The promise of the first loop of the sample session is rejected and
    the [catch] of the run receives the error: the [finally] block resets
    the session and, the cancellation flag being clear, enters the restart
    loop, which is left sleeping before its first attempt. *)
Definition sample_crash : list Label :=
  (sample_launch ++
   [Resume 0 (EvChannel 0 ChThrow); Resume 0 (EvRejected "boom");
    Resume 0 db; Resume 0 db])%list.

Definition sample_crash_state : State :=
  default initial (exec sample_crash initial).

(** Both requests of the sample session succeed, which starts two detached
    calls of [storage.incrementSent], the tasks 2 and 3. *)
Definition sample_two_deliveries : list Label :=
  (sample_launch ++
   [Resume 0 (EvChannel 0 ChTimer)] ++
   replicate 9 (Resume 0 (EvChannel 1 ChTick)) ++
   [Resume 0 (EvChannel 1 ChTimer);
    Resume 0 (EvChannel 0 (ChResponse (HttpResponse 200 None) 11));
    Resume 0 (EvChannel 1 (ChResponse (HttpResponse 200 None) 9))])%list.

(** The two calls interleave: both read the row before either writes it. *)
Definition sample_race : list Label :=
  (sample_two_deliveries ++ [Resume 2 db; Resume 3 db; Resume 2 db; Resume 3 db])%list.

(** The same two calls, one after the other. *)
Definition sample_no_race : list Label :=
  (sample_two_deliveries ++ [Resume 2 db; Resume 2 db; Resume 3 db; Resume 3 db])%list.

(** *** Rows of a session *)

(** The number of rows that a table holds for a session. *)
Definition rows_of (s : string) (t : Storage.Table) : nat :=
  List.length (List.filter (fun c => String.eqb (Schema.sessionId c) s) t).

(** * Properties *)

Ltac munfold := unfold mbind, mret, M_bind, M_ret.

Ltac prims :=
  repeat progress
    (unfold interruptibleSleep_begin, interruptibleSleep_check, getSession, readS, modifyS,
            emitLog, dateNow, cacheName, cachedName, withConfigs, readConfig;
     munfold; simpl).

(** Normalises the projections of a world built from the transformers. *)
Ltac wsimpl := repeat progress (simpl; autorewrite with deref).

(** ** The world transformers, seen through [deref] *)

Lemma deref_touch sid sid' w : deref sid' (touch sid w) = deref sid' w.
Proof.
  unfold touch, deref. destruct (sessions w !! sid) eqn:E; simpl; [done|].
  destruct (decide (sid = sid')) as [->|Hne].
  - by rewrite lookup_insert_eq, E.
  - by rewrite lookup_insert_ne.
Qed.

Lemma deref_assign_eq sid f w : deref sid (assign sid f w) = f (deref sid w).
Proof. unfold assign, deref at 1. simpl. by rewrite lookup_insert_eq. Qed.

Lemma deref_assign_ne sid sid' f w :
  sid <> sid' -> deref sid' (assign sid f w) = deref sid' w.
Proof. intros. unfold assign, deref. simpl. by rewrite lookup_insert_ne. Qed.

Lemma deref_logged sid l w : deref sid (logged l w) = deref sid w.
Proof. done. Qed.

Lemma deref_stored sid f w : deref sid (stored f w) = deref sid w.
Proof. done. Qed.

Lemma deref_named sid c n w : deref sid (named c n w) = deref sid w.
Proof. done. Qed.

Lemma deref_at_time sid t w : deref sid (at_time t w) = deref sid w.
Proof. done. Qed.

Lemma configs_touch sid w : configs (touch sid w) = configs w.
Proof. unfold touch. by destruct (sessions w !! sid). Qed.

Lemma emitted_touch sid w : emitted (touch sid w) = emitted w.
Proof. unfold touch. by destruct (sessions w !! sid). Qed.

Lemma broadcasts_touch sid w : broadcasts (touch sid w) = broadcasts w.
Proof. unfold touch. by destruct (sessions w !! sid). Qed.

Lemma deref_observed sid sid' w : deref sid' (observed sid w) = deref sid' w.
Proof. done. Qed.

Lemma touch_present sid w : is_Some (sessions w !! sid) -> touch sid w = w.
Proof. intros [s Hs]. unfold touch. by rewrite Hs. Qed.

Create Rewrite HintDb deref.
#[local] Hint Rewrite deref_touch deref_assign_eq deref_logged deref_stored deref_named
  deref_at_time deref_observed configs_touch emitted_touch broadcasts_touch : deref.

(** ** Parsing the destination identifiers *)

Lemma allDigits_spec t :
  JS.allDigits t = true <-> forall c, In c (list_ascii_of_string t) -> JS.isDigit c = true.
Proof.
  induction t as [|c r IH]; simpl.
  - split; [intros _ c []|done].
  - rewrite andb_true_iff, IH. split.
    + intros [Hc Hr] c' [<-|Hin]; auto.
    + intros H. split; [apply H; by left|intros c' Hin; apply H; by right].
Qed.

Lemma test_digits_spec t : JS.test_digits t = true <-> composed_of_digits t.
Proof.
  unfold composed_of_digits. destruct t as [|c r].
  - simpl. split; [done|intros [H _]; by destruct H].
  - change (JS.test_digits (String c r)) with (JS.allDigits (String c r)).
    rewrite allDigits_spec. split; [intros H; split; [done|exact H]|intros [_ H]; exact H].
Qed.

(** No piece of a split contains a separator, and there is one piece more
    than there are separators. *)
Lemma split_pieces sep s :
  Forall (fun piece => forall c, In c (list_ascii_of_string piece) -> sep c = false)
         (JS.split sep s)
  /\ List.length (JS.split sep s)
     = S (List.length (List.filter sep (list_ascii_of_string s))).
Proof.
  induction s as [|c r [IH1 IH2]]; simpl.
  - split; [repeat constructor; intros c []|done].
  - destruct (sep c) eqn:Hc; simpl.
    + split; [constructor; [intros c' []|exact IH1]|by rewrite IH2].
    + destruct (JS.split sep r) as [|t ts] eqn:E; [simpl in IH2; lia|].
      inversion IH1 as [|? ? Ht Hts]; subst. split; [|exact IH2].
      constructor; [|exact Hts].
      intros c' [<-|Hin]; [exact Hc|by apply Ht].
Qed.

Lemma split_app_sep sep a c b :
  sep c = true ->
  JS.split sep (a +:+ String c b) = (JS.split sep a ++ JS.split sep b)%list.
Proof.
  intros Hc. induction a as [|d a IH]; simpl.
  - by rewrite Hc.
  - rewrite IH. destruct (sep d); [done|].
    destruct (JS.split sep a) as [|t ts] eqn:E; [|done].
    pose proof (proj2 (split_pieces sep a)) as Hlen. rewrite E in Hlen. done.
Qed.

Lemma split_sep_free sep s :
  (forall c, In c (list_ascii_of_string s) -> sep c = false) -> JS.split sep s = [s].
Proof.
  induction s as [|c r IH]; simpl; [done|]. intros H.
  rewrite (H c) by (by left). rewrite IH; [done|]. intros c' Hin. apply H. by right.
Qed.

Lemma byte_eq c n : N_of_ascii c = n -> c = ascii_of_N n.
Proof. intros <-. by rewrite ascii_N_embedding. Qed.

Lemma isCommaOrNewline_spec c : JS.isCommaOrNewline c = true <-> separator c.
Proof.
  unfold JS.isCommaOrNewline, separator. rewrite orb_true_iff, !N.eqb_eq. split.
  - intros [H|H]; apply byte_eq in H; subst; [by left|by right].
  - intros [->| ->]; [by left|by right].
Qed.

Lemma separator_free_spec s :
  separator_free s <-> forall c, In c (list_ascii_of_string s) -> JS.isCommaOrNewline c = false.
Proof.
  unfold separator_free. split; intros H c Hin.
  - apply not_true_iff_false. rewrite isCommaOrNewline_spec. by apply H.
  - rewrite <- isCommaOrNewline_spec. rewrite (H c Hin). done.
Qed.

(** *** Strings *)

Lemma append_cons c a b : String c a +:+ b = String c (a +:+ b).
Proof. reflexivity. Qed.

Lemma append_nil_r s : s +:+ "" = s.
Proof. induction s as [|c s IH]; [done|by rewrite append_cons, IH]. Qed.

Lemma append_assoc a b c : (a +:+ b) +:+ c = a +:+ (b +:+ c).
Proof. induction a as [|d a IH]; [done|by rewrite !append_cons, IH]. Qed.

Lemma length_append a b : String.length (a +:+ b) = (String.length a + String.length b)%nat.
Proof. induction a as [|d a IH]; [done|rewrite append_cons; simpl; by rewrite IH]. Qed.

Lemma string_length_ind (P : string -> Prop) :
  (forall s, (forall t, (String.length t < String.length s)%nat -> P t) -> P s) ->
  forall s, P s.
Proof.
  intros H s. remember (String.length s) as n eqn:Hn. revert s Hn.
  induction n as [n IH] using lt_wf_ind. intros s ->.
  apply H. intros t Ht. by apply (IH _ Ht).
Qed.

(** *** White space *)

Lemma white_space_1 c : JS.isWhiteSpace1 c = true -> In (String c "") white_space.
Proof.
  unfold JS.isWhiteSpace1. rewrite orb_true_iff, andb_true_iff, !N.leb_le, N.eqb_eq.
  intros H.
  assert (N_of_ascii c = 9 \/ N_of_ascii c = 10 \/ N_of_ascii c = 11 \/ N_of_ascii c = 12
          \/ N_of_ascii c = 13 \/ N_of_ascii c = 32)%N as Hc by lia.
  repeat (destruct Hc as [Hc|Hc]); apply byte_eq in Hc; subst; vm_compute; tauto.
Qed.

Lemma white_space_2 c1 c2 :
  JS.isWhiteSpace2 c1 c2 = true -> In (String c1 (String c2 "")) white_space.
Proof.
  unfold JS.isWhiteSpace2. rewrite andb_true_iff, !N.eqb_eq.
  intros [H1 H2]. apply byte_eq in H1, H2. subst. vm_compute. tauto.
Qed.

Lemma white_space_3 c1 c2 c3 :
  JS.isWhiteSpace3 c1 c2 c3 = true -> In (String c1 (String c2 (String c3 ""))) white_space.
Proof.
  unfold JS.isWhiteSpace3.
  rewrite !orb_true_iff, !andb_true_iff, !orb_true_iff, !andb_true_iff, !N.leb_le, !N.eqb_eq.
  intros H.
  assert (exists n1 n2 n3,
             (N_of_ascii c1 = n1 /\ N_of_ascii c2 = n2 /\ N_of_ascii c3 = n3)
             /\ In (n1, n2, n3)
                  [(225, 154, 128); (226, 128, 128); (226, 128, 129); (226, 128, 130);
                   (226, 128, 131); (226, 128, 132); (226, 128, 133); (226, 128, 134);
                   (226, 128, 135); (226, 128, 136); (226, 128, 137); (226, 128, 138);
                   (226, 128, 168); (226, 128, 169); (226, 128, 175); (226, 129, 159);
                   (227, 128, 128); (239, 187, 191)]%N)
    as (n1 & n2 & n3 & (H1 & H2 & H3) & Hin).
  { exists (N_of_ascii c1), (N_of_ascii c2), (N_of_ascii c3). split; [done|].
    simpl.
    assert (N_of_ascii c3 = 128 \/ N_of_ascii c3 = 129 \/ N_of_ascii c3 = 130
            \/ N_of_ascii c3 = 131 \/ N_of_ascii c3 = 132 \/ N_of_ascii c3 = 133
            \/ N_of_ascii c3 = 134 \/ N_of_ascii c3 = 135 \/ N_of_ascii c3 = 136
            \/ N_of_ascii c3 = 137 \/ N_of_ascii c3 = 138 \/ N_of_ascii c3 = 168
            \/ N_of_ascii c3 = 169 \/ N_of_ascii c3 = 175 \/ N_of_ascii c3 = 159
            \/ N_of_ascii c3 = 191)%N as H3 by lia.
    repeat (destruct H3 as [H3|H3]); rewrite H3 in *;
      (destruct H as [[[[H|H]|H]|H]|H]; try lia;
       destruct H as [[-> ->] _]; tauto). }
  apply byte_eq in H1, H2, H3. subst c1 c2 c3.
  simpl in Hin.
  repeat (destruct Hin as [[= <- <- <-]|Hin]; [vm_compute; tauto|]). destruct Hin.
Qed.

Lemma white_space_nonempty w : In w white_space -> exists c r, w = String c r.
Proof.
  intros H. vm_compute in H.
  repeat (destruct H as [<-|H]; [by eexists _, _|]). destruct H.
Qed.

(** [trimStart] steps over a white-space character. *)
Lemma trimStart_head w s : In w white_space -> JS.trimStart (w +:+ s) = JS.trimStart s.
Proof.
  intros H. vm_compute in H.
  repeat (destruct H as [<-|H]; [reflexivity|]). destruct H.
Qed.

Lemma trimStart_blank l s : blank l -> JS.trimStart (l +:+ s) = JS.trimStart s.
Proof.
  induction 1 as [|w l Hw Hl IH]; [done|].
  by rewrite append_assoc, trimStart_head.
Qed.

Lemma trimStart_of_blank l : blank l -> JS.trimStart l = "".
Proof. intros H. rewrite <- (append_nil_r l). by rewrite trimStart_blank. Qed.

(** What [trimStart] removes is white space. *)
Lemma trimStart_decomp s : exists l, blank l /\ s = l +:+ JS.trimStart s.
Proof.
  induction s as [s IH] using string_length_ind.
  destruct s as [|c1 r1]; [exists ""; split; [constructor|done]|].
  simpl. destruct (JS.isWhiteSpace1 c1) eqn:E1.
  { destruct (IH r1) as (l & Hl & Hr1); [simpl; lia|].
    exists (String c1 "" +:+ l). split.
    - constructor; [by apply white_space_1|done].
    - change (String c1 r1 = String c1 (l +:+ JS.trimStart r1)). by rewrite <- Hr1. }
  destruct r1 as [|c2 r2]; [exists ""; split; [constructor|done]|].
  destruct (JS.isWhiteSpace2 c1 c2) eqn:E2.
  { destruct (IH r2) as (l & Hl & Hr2); [simpl; lia|].
    exists (String c1 (String c2 "") +:+ l). split.
    - constructor; [by apply white_space_2|done].
    - change (String c1 (String c2 r2) = String c1 (String c2 (l +:+ JS.trimStart r2))).
      by rewrite <- Hr2. }
  destruct r2 as [|c3 r3]; [exists ""; split; [constructor|done]|].
  destruct (JS.isWhiteSpace3 c1 c2 c3) eqn:E3.
  { destruct (IH r3) as (l & Hl & Hr3); [simpl; lia|].
    exists (String c1 (String c2 (String c3 "")) +:+ l). split.
    - constructor; [by apply white_space_3|done].
    - change (String c1 (String c2 (String c3 r3))
              = String c1 (String c2 (String c3 (l +:+ JS.trimStart r3)))).
      by rewrite <- Hr3. }
  exists "". split; [constructor|done].
Qed.

Lemma trimStart_idem s : JS.trimStart (JS.trimStart s) = JS.trimStart s.
Proof.
  induction s as [s IH] using string_length_ind.
  destruct s as [|c1 r1]; [done|].
  simpl. destruct (JS.isWhiteSpace1 c1) eqn:E1; [apply IH; simpl; lia|].
  destruct r1 as [|c2 r2]; [simpl; by rewrite E1|].
  destruct (JS.isWhiteSpace2 c1 c2) eqn:E2; [apply IH; simpl; lia|].
  destruct r2 as [|c3 r3]; [simpl; by rewrite E1, E2|].
  destruct (JS.isWhiteSpace3 c1 c2 c3) eqn:E3; [apply IH; simpl; lia|].
  simpl. by rewrite E1, E2, E3.
Qed.

(** What [trimStart] leaves does not start with white space. *)
Lemma trimStart_no_white_space s w :
  In w white_space -> ~ starts_with w (JS.trimStart s).
Proof.
  intros Hw [x Hx].
  pose proof (trimStart_idem s) as Hi. rewrite Hx, trimStart_head in Hi by done.
  destruct (trimStart_decomp x) as (l & _ & Hl).
  apply (f_equal String.length) in Hl. rewrite length_append, Hi, length_append in Hl.
  destruct (white_space_nonempty w Hw) as (c & r & ->). simpl in Hl. lia.
Qed.

Lemma trimEnd_cons c r :
  JS.trimEnd (String c r)
  = match JS.trimStart (String c r) with
    | "" => ""
    | _ => String c (JS.trimEnd r)
    end.
Proof. reflexivity. Qed.

(** What [trimEnd] removes is white space. *)
Lemma trimEnd_decomp s : exists r, blank r /\ s = JS.trimEnd s +:+ r.
Proof.
  induction s as [|c s (r & Hr & Hs)]; [exists ""; split; [constructor|done]|].
  rewrite trimEnd_cons. destruct (JS.trimStart (String c s)) as [|d u] eqn:E.
  - destruct (trimStart_decomp (String c s)) as (l & Hl & Hd).
    rewrite E, append_nil_r in Hd. exists (String c s). split; [by rewrite Hd|done].
  - exists r. split; [done|]. by rewrite append_cons, <- Hs.
Qed.

(** What [trimEnd] leaves does not end with white space. *)
Lemma trimEnd_no_white_space s w :
  In w white_space -> ~ ends_with w (JS.trimEnd s).
Proof.
  intros Hw. induction s as [|c s IH]; intros [x Hx].
  - destruct (white_space_nonempty w Hw) as (d & r & ->). by destruct x.
  - rewrite trimEnd_cons in Hx.
    destruct (JS.trimStart (String c s)) as [|d u] eqn:E.
    + destruct (white_space_nonempty w Hw) as (d & r & ->). by destruct x.
    + destruct x as [|c' x]; simpl in Hx.
      * destruct (trimEnd_decomp s) as (r & Hr & Hs).
        assert (blank (String c s)) as Hb.
        { rewrite Hs. change (String c (JS.trimEnd s +:+ r))
            with (String c (JS.trimEnd s) +:+ r). rewrite Hx. by constructor. }
        apply trimStart_of_blank in Hb. by rewrite Hb in E.
      * injection Hx as _ Hx. apply IH. by exists x.
Qed.

(** [trim] removes white space at both ends, and leaves none there. *)
Lemma trim_spec s :
  exists l r,
    s = l +:+ JS.trim s +:+ r /\ blank l /\ blank r
    /\ forall w, In w white_space ->
                 ~ starts_with w (JS.trim s) /\ ~ ends_with w (JS.trim s).
Proof.
  destruct (trimStart_decomp s) as (l & Hl & Hs).
  destruct (trimEnd_decomp (JS.trimStart s)) as (r & Hr & Hu).
  exists l, r. unfold JS.trim. split_and!; [by rewrite <- Hu|done|done|].
  intros w Hw. split; [|by apply trimEnd_no_white_space].
  intros [x Hx]. apply (trimStart_no_white_space s w Hw).
  exists (x +:+ r). by rewrite Hu, Hx, append_assoc.
Qed.

(** A digit is no byte of a white-space character. *)
Lemma trimStart_digit c s : JS.isDigit c = true -> JS.trimStart (String c s) = String c s.
Proof.
  unfold JS.isDigit. rewrite andb_true_iff, !N.leb_le. intros Hc.
  assert (JS.isWhiteSpace1 c = false) as E1.
  { unfold JS.isWhiteSpace1. apply not_true_iff_false.
    rewrite orb_true_iff, andb_true_iff, !N.leb_le, N.eqb_eq. lia. }
  assert (forall c2, JS.isWhiteSpace2 c c2 = false) as E2.
  { intros c2. unfold JS.isWhiteSpace2. apply not_true_iff_false.
    rewrite andb_true_iff, !N.eqb_eq. lia. }
  assert (forall c2 c3, JS.isWhiteSpace3 c c2 c3 = false) as E3.
  { intros c2 c3. unfold JS.isWhiteSpace3. apply not_true_iff_false.
    rewrite !orb_true_iff, !andb_true_iff, !N.eqb_eq. lia. }
  simpl. rewrite E1. destruct s as [|c2 [|c3 s]]; [done|by rewrite E2|by rewrite E2, E3].
Qed.

Lemma trimEnd_of_blank r : blank r -> JS.trimEnd r = "".
Proof.
  intros H. destruct r as [|c r]; [done|].
  rewrite trimEnd_cons. by rewrite (trimStart_of_blank _ H).
Qed.

Lemma trimEnd_digits t r :
  (forall c, In c (list_ascii_of_string t) -> JS.isDigit c = true) ->
  blank r -> JS.trimEnd (t +:+ r) = t.
Proof.
  intros Ht Hr. induction t as [|c t IH]; [by apply trimEnd_of_blank|].
  change (String c t +:+ r) with (String c (t +:+ r)).
  rewrite trimEnd_cons, trimStart_digit by (apply Ht; by left).
  rewrite IH; [done|]. intros c' Hin. apply Ht. by right.
Qed.

(** A token between white space is what [trim] gives. *)
Lemma trim_digits l t r :
  composed_of_digits t -> blank l -> blank r -> JS.trim (l +:+ t +:+ r) = t.
Proof.
  intros [Hne Ht] Hl Hr. unfold JS.trim. rewrite trimStart_blank by done.
  destruct t as [|c t]; [done|].
  change (String c t +:+ r) with (String c (t +:+ r)).
  rewrite trimStart_digit by (apply Ht; by left).
  by apply (trimEnd_digits (String c t)).
Qed.

Lemma parseChannelIds_app a c b :
  separator c ->
  parseChannelIds (a +:+ String c b) = (parseChannelIds a ++ parseChannelIds b)%list.
Proof.
  intros Hc. unfold parseChannelIds.
  rewrite split_app_sep by (by apply isCommaOrNewline_spec).
  by rewrite map_app, List.filter_app.
Qed.

Lemma parseChannelIds_piece s :
  separator_free s ->
  parseChannelIds s = if JS.test_digits (JS.trim s) then [JS.trim s] else [].
Proof.
  intros Hs. unfold parseChannelIds.
  rewrite split_sep_free by (by apply separator_free_spec). reflexivity.
Qed.

(** C8. [startSender] parses the destination input as follows.  Trimming
    removes the white space at both ends of a string and leaves none there.
    The input is cut at every comma and at every line feed: the
    destinations of [a], a separator and [b] are those of [a] followed by
    those of [b].  A piece without separator gives one destination when it
    is a token of digits (one at least, and nothing else) between white
    space, namely that token, and gives none otherwise.  The input
    ["123, 456\n789abc"] gives ["123"] and ["456"] and rejects ["789abc"];
    white space after a token, and white space beyond ASCII, is trimmed
    too; and when nothing is kept, a start on an idle session fails with
    "No valid channel IDs provided". *)
Theorem C8_destination_parsing :
  (forall s, exists l r,
       s = l +:+ JS.trim s +:+ r /\ blank l /\ blank r
       /\ forall w, In w white_space ->
                    ~ starts_with w (JS.trim s) /\ ~ ends_with w (JS.trim s))
  /\ (forall a c b,
         separator c ->
         parseChannelIds (a +:+ String c b) = (parseChannelIds a ++ parseChannelIds b)%list)
  /\ (forall s,
         separator_free s ->
         (forall t, parseChannelIds s = [t] <->
                    composed_of_digits t
                    /\ exists l r, blank l /\ blank r /\ s = l +:+ t +:+ r)
         /\ (parseChannelIds s = [] \/ exists t, parseChannelIds s = [t]))
  /\ parseChannelIds ("123, 456" +:+ LF +:+ "789abc") = ["123"; "456"]
  /\ parseChannelIds "123 ,456" = ["123"; "456"]
  /\ parseChannelIds (utf8 0xFEFF +:+ "123" +:+ utf8 0x3000 +:+ "," +:+ utf8 0xA0
                      +:+ "456" +:+ utf8 0x2028 +:+ LF +:+ "7 8,9x,,") = ["123"; "456"]
  /\ (forall a w,
         isActive (deref (a_sessionId a) w) = false ->
         parseChannelIds (a_channelIdsStr a) = [] ->
         startSender_entry a ByRoute w
         = (PDone (StartResult false (Some "No valid channel IDs provided")),
            touch (a_sessionId a) w)).
Proof.
  split_and!.
  - apply trim_spec.
  - apply parseChannelIds_app.
  - intros s Hs. rewrite (parseChannelIds_piece s Hs). split.
    + intros t. split.
      * destruct (JS.test_digits (JS.trim s)) eqn:E; [|done].
        intros [= <-]. split; [by apply test_digits_spec|].
        destruct (trim_spec s) as (l & r & H & Hl & Hr & _). by exists l, r.
      * intros (Ht & l & r & Hl & Hr & ->).
        rewrite (trim_digits l t r Ht Hl Hr).
        by rewrite (proj2 (test_digits_spec t) Ht).
    + destruct (JS.test_digits (JS.trim s)); [right; by eexists|by left].
  - reflexivity.
  - reflexivity.
  - reflexivity.
  - intros a w Hidle Hnone. unfold startSender_entry. prims.
    rewrite Hidle. simpl. unfold startSender_validate. prims.
    autorewrite with deref. rewrite Hidle, Hnone. reflexivity.
Qed.

Lemma C8_destination_parsing_witness :
  parseChannelIds ("123 " +:+ String "," "456")
  = (parseChannelIds "123 " ++ parseChannelIds "456")%list
  /\ parseChannelIds "123 " = ["123"]
  /\ startSender_entry (mkArgs "s1" "token" "hello" "789abc, x" 30 false) ByRoute emptyWorld
     = (PDone (StartResult false (Some "No valid channel IDs provided")),
        touch "s1" emptyWorld).
Proof.
  destruct C8_destination_parsing as (_ & Happ & Hpiece & _ & _ & _ & Hfail).
  split_and!.
  - apply Happ. by left.
  - apply (Hpiece "123 ").
    + intros c Hin [->| ->]; vm_compute in Hin; intuition discriminate.
    + split.
      * split; [done|]. intros c Hin. vm_compute in Hin.
        destruct Hin as [<-|[<-|[<-|[]]]]; reflexivity.
      * exists "", " ". split_and!; [constructor| |reflexivity].
        apply (blank_cons " " ""); [vm_compute; tauto|constructor].
  - apply (Hfail (mkArgs "s1" "token" "hello" "789abc, x" 30 false) emptyWorld); reflexivity.
Defined.

(** ** The channel loop after a delivery attempt *)

Lemma loop_after_unfold sid chName ce r waitSec w :
  loop_after sid chName ce r waitSec w
  = Some (channelLoop_examine sid chName ce (sendOneMessage_classify sid chName r w).1
            waitSec (sendOneMessage_classify sid chName r w).2).1.1.
Proof.
  unfold loop_after. simpl. munfold.
  by destruct (sendOneMessage_classify sid chName r w).
Qed.

Lemma classify_deref sid chName r sid' w :
  deref sid' (sendOneMessage_classify sid chName r w).2 = deref sid' w.
Proof.
  destruct r as [status ra|msg]; simpl; [|by autorewrite with deref].
  repeat (match goal with |- context [if ?b then _ else _] => destruct b end);
    simpl; by autorewrite with deref.
Qed.

Lemma classify_transient sid chName r w :
  transient r = true ->
  (sendOneMessage_classify sid chName r w).1 = mkSend false 5000.
Proof.
  destruct r as [status ra|msg]; simpl; [|done].
  destruct (response_ok status); [done|].
  destruct (status =? 429); [done|]. destruct (status =? 401); [done|].
  destruct (status =? 403); done.
Qed.

(** The claim of C9 as the specification words it fails on the first
    transient error already: the loop waits 5000 ms, not 10000 ms. *)
Lemma C9_counterexample :
  loop_after "s1" "general" 0 (NetworkError "socket hang up") 0 (running_world "s1" false)
  = Some (CSleep 1 5000 0)
  /\ 5000 <> Z.min (10000 * 1) 120000.
Proof. split; [reflexivity|discriminate]. Qed.

(** C9, amended.  While the session is not cancelled, a delivery attempt
    that ends in a transient error makes the loop count one more
    consecutive error and wait the fixed 5000 ms that the attempt reports,
    whatever the count; a delivery resets the count to 0; and the
    escalating wait [min(10 s * count, 120 s)] is what the loop applies to
    a failed result that carries no cooldown of its own. *)
Theorem C9_backoff_after_transient_error :
  forall sid chName w k waitSec,
    shouldStop (deref sid w) = false ->
    (forall r, transient r = true ->
       loop_after sid chName k r waitSec w = Some (CSleep (k + 1) 5000 0))
    /\ (forall status ra, response_ok status = true ->
          loop_after sid chName k (HttpResponse status ra) waitSec w
          = Some (CSleep 0 (waitSec * 1000) 0))
    /\ backoffMs (mkSend false 0) (k + 1) = Z.min (10000 * (k + 1)) 120000.
Proof.
  intros sid chName w k waitSec Hrun. split; [|split].
  - intros r Hr. rewrite loop_after_unfold, (classify_transient _ _ _ _ Hr).
    unfold channelLoop_examine. prims.
    rewrite classify_deref, Hrun. simpl.
    autorewrite with deref. rewrite classify_deref, Hrun. reflexivity.
  - intros status ra Hok. rewrite loop_after_unfold. simpl. rewrite Hok. simpl.
    unfold channelLoop_examine. prims. rewrite Hrun. simpl.
    autorewrite with deref. simpl. rewrite Hrun. reflexivity.
  - reflexivity.
Qed.

Lemma C9_backoff_after_transient_error_witness :
  loop_after "s1" "general" 3 (HttpResponse 500 None) 0 (running_world "s1" false)
  = Some (CSleep (3 + 1) 5000 0).
Proof.
  destruct (C9_backoff_after_transient_error "s1" "general" (running_world "s1" false) 3 0)
    as (H & _ & _); [reflexivity|].
  apply (H (HttpResponse 500 None)). reflexivity.
Defined.

(** The claim of C2 as the specification words it fails when the session
    was cancelled while the request was in flight: the attempt returns
    Unauthorized, the flag is set when the result is examined, and the loop
    ends with [stopped]. *)
Lemma C2_counterexample :
  (exec sample_stop_in_flight initial ≫= loop_state 0 0) = Some (CAwaitSend 0)
  /\ (shouldStop ∘ deref "s1" ∘ world <$> exec sample_stop_in_flight initial) = Some true
  /\ (exec (sample_stop_in_flight ++ [sample_unauthorized]) initial ≫= loop_state 0 0)
     = Some (CDone stopped)
  /\ CDone stopped <> CDone token_invalid.
Proof. split_and!; [vm_compute; reflexivity..|discriminate]. Qed.

(** C2, amended.  When a delivery attempt returns Unauthorized (status
    401), the loop ends at once with [token_invalid] provided the
    cancellation flag is clear when the result is examined; when the flag
    is set at that moment the loop ends with [stopped] instead.  Nothing
    else changes in either case. *)
Theorem C2_unauthorized_ends_loop :
  forall sid chName w ce ra waitSec,
  exists m,
    channel_step sid chName (ChResponse (HttpResponse 401 ra) waitSec) (CAwaitSend ce) = Some m
    /\ (shouldStop (deref sid w) = false -> m w = ((CDone token_invalid, false), w))
    /\ (shouldStop (deref sid w) = true -> m w = ((CDone stopped, false), w)).
Proof.
  intros sid chName w ce ra waitSec. eexists. split; [reflexivity|].
  unfold channelLoop_examine. prims.
  split; intros H; rewrite H; reflexivity.
Qed.

Lemma C2_unauthorized_ends_loop_witness :
  exists m,
    channel_step "s1" "general" (ChResponse (HttpResponse 401 None) 0) (CAwaitSend 2) = Some m
    /\ m (running_world "s1" false) = ((CDone token_invalid, false), running_world "s1" false)
    /\ m (running_world "s1" true) = ((CDone stopped, false), running_world "s1" true).
Proof.
  destruct (C2_unauthorized_ends_loop "s1" "general" (running_world "s1" false) 2 None 0)
    as (m & Hm & Hgo & _).
  destruct (C2_unauthorized_ends_loop "s1" "general" (running_world "s1" true) 2 None 0)
    as (m' & Hm' & _ & Hstop).
  exists m. split; [exact Hm|]. split; [apply Hgo; reflexivity|].
  assert (m = m') as -> by congruence. apply Hstop; reflexivity.
Defined.

(** ** The checks of [startSender] *)

Lemma falsy_empty s : JS.falsy s = true <-> s = "".
Proof. by destruct s. Qed.

Lemma falsy_nonempty s : JS.falsy s = false <-> s <> "".
Proof. destruct s; simpl; split; intros H; done. Qed.

(** C4.  [startSender] checks in a fixed order and the first failure wins.
    A session that is active with cancellation requested makes it wait:
    the wait goes in increments of 300 ms and another increment is begun
    only while the session is still active and fewer than 5000 ms have
    been waited.  After the wait, or at once when there was none, a
    session that is active fails the start with "Sender is already
    running"; otherwise an empty list of parsed destinations fails it,
    then an empty token, then an empty message; otherwise the run begins.
    A start on a session that is active and not shutting down fails with
    the already-running error without any wait. *)
Theorem C4_start_validation_order :
  forall a c w,
    let sid := a_sessionId a in
    let s := deref sid w in
    (isActive s = true -> shouldStop s = true ->
       startSender_entry a c w = (PStartWait a c 0, touch sid w))
    /\ (forall waited,
          startSender_wake a c waited w
          = if isActive s && (waited + 300 <? 5000)
            then (PStartWait a c (waited + 300), w)
            else startSender_validate a c w)
    /\ (isActive s && shouldStop s = false ->
          startSender_entry a c w = startSender_validate a c (touch sid w))
    /\ (isActive s = true ->
          startSender_validate a c w
          = startSender_return sid c false "Sender is already running" w)
    /\ (isActive s = false -> parseChannelIds (a_channelIdsStr a) = [] ->
          startSender_validate a c w
          = startSender_return sid c false "No valid channel IDs provided" w)
    /\ (isActive s = false -> parseChannelIds (a_channelIdsStr a) <> [] ->
          a_token a = "" ->
          startSender_validate a c w
          = startSender_return sid c false "Token is required" w)
    /\ (isActive s = false -> parseChannelIds (a_channelIdsStr a) <> [] ->
          a_token a <> "" -> a_message a = "" ->
          startSender_validate a c w
          = startSender_return sid c false "Message content is required" w)
    /\ (isActive s = false -> parseChannelIds (a_channelIdsStr a) <> [] ->
          a_token a <> "" -> a_message a <> "" ->
          startSender_validate a c w
          = (PStorage (CallUpdateConfigStatus sid true) None
                      (KStartAfterStatus a (parseChannelIds (a_channelIdsStr a)) c),
             assign sid (with_startTime (Some (clock w)))
               (assign sid (with_shouldStop false) (assign sid (with_isActive true) w))))
    /\ (forall e, startSender_return sid ByRoute false e w
                  = (PDone (StartResult false (Some e)), w))
    /\ (isActive s = true -> shouldStop s = false ->
          startSender_entry a ByRoute w
          = (PDone (StartResult false (Some "Sender is already running")), touch sid w)).
Proof.
  intros a c w sid s. subst s.
  split_and!.
  - intros Ha Hs. unfold startSender_entry. prims. fold sid. by rewrite Ha, Hs.
  - intros waited. unfold startSender_wake. prims. fold sid.
    by destruct (isActive (deref sid w) && (waited + 300 <? 5000)).
  - intros H. unfold startSender_entry. prims. fold sid. by rewrite H.
  - intros Ha. unfold startSender_validate. prims. fold sid. by rewrite Ha.
  - intros Ha Hp. unfold startSender_validate. prims. fold sid. by rewrite Ha, Hp.
  - intros Ha Hp Ht. unfold startSender_validate. prims. fold sid. rewrite Ha, Ht.
    by destruct (parseChannelIds (a_channelIdsStr a)).
  - intros Ha Hp Ht Hm. unfold startSender_validate. prims. fold sid. rewrite Ha, Hm.
    apply falsy_nonempty in Ht. rewrite Ht.
    by destruct (parseChannelIds (a_channelIdsStr a)).
  - intros Ha Hp Ht Hm. unfold startSender_validate. prims. fold sid. rewrite Ha.
    apply falsy_nonempty in Ht, Hm. rewrite Ht, Hm.
    by destruct (parseChannelIds (a_channelIdsStr a)).
  - reflexivity.
  - intros Ha Hs. unfold startSender_entry. prims. fold sid. rewrite Ha, Hs. simpl.
    unfold startSender_validate. prims. fold sid. autorewrite with deref. by rewrite Ha.
Qed.

(** The drain loop is left after seventeen increments at the latest,
    whatever the session does. *)
Lemma startSender_wake_last a c w waited :
  4700 <= waited -> startSender_wake a c waited w = startSender_validate a c w.
Proof.
  intros H. unfold startSender_wake. prims.
  replace (waited + 300 <? 5000) with false by (symmetry; apply Z.ltb_ge; lia).
  by rewrite andb_false_r.
Qed.

Lemma C4_start_validation_order_witness :
  startSender_entry sample_args ByRoute (running_world "s1" false)
  = (PDone (StartResult false (Some "Sender is already running")),
     touch "s1" (running_world "s1" false))
  /\ startSender_entry sample_args ByRoute (running_world "s1" true)
     = (PStartWait sample_args ByRoute 0, touch "s1" (running_world "s1" true)).
Proof.
  split.
  - destruct (C4_start_validation_order sample_args ByRoute (running_world "s1" false))
      as (_ & _ & _ & _ & _ & _ & _ & _ & _ & H).
    apply H; reflexivity.
  - destruct (C4_start_validation_order sample_args ByRoute (running_world "s1" true))
      as (H & _).
    apply H; reflexivity.
Defined.

(** ** The restart loop *)

Lemma supervisor_iterate_unfold sid retryNum w :
  supervisor_iterate sid retryNum w
  = let n := retryNum + 1 in
    let wait := Z.min (5 * n) 60 in
    let w' := emit sid ("Unexpected stop - auto-restart #" +:+ pretty n +:+ " in "
                        +:+ pretty wait +:+ "s...") "warn" w in
    (if shouldStop (deref sid w) then PDone Finished else PSupSleep sid n (wait * 1000) 0,
     touch sid w').
Proof.
  unfold supervisor_iterate, emit. prims. autorewrite with deref.
  replace (5 * (retryNum + 1)) with ((retryNum + 1) * 5) by lia.
  by destruct (shouldStop (deref sid w)).
Qed.

(** C6.  When a run has ended with [stopped] and the cancellation flag was
    clear, the [finally] block enters the restart loop with the attempt
    counter at 1.  Attempt [n] logs a warning that names [n] and the wait
    of [min(5 n, 60)] seconds and sleeps that long, interruptibly; a
    cancellation seen at the start of the sleep or by one of its interval
    callbacks ends the loop.  After the sleep the loop reads the stored
    configuration again: without a configuration, or with the intent flag
    false, it logs and ends; with an incomplete configuration it logs and
    goes to attempt [n + 1] without starting; otherwise it calls
    [startSender] with the stored values and [isRestore = true], ends when
    that succeeds and goes to attempt [n + 1] when it fails. *)
Theorem C6_restart_supervisor :
  forall sid w n,
    run_afterStatus sid LStopped false w = supervisor_iterate sid 0 w
    /\ supervisor_iterate sid (n - 1) w
       = (if shouldStop (deref sid w) then PDone Finished
          else PSupSleep sid n (Z.min (5 * n) 60 * 1000) 0,
          touch sid (emit sid ("Unexpected stop - auto-restart #" +:+ pretty n +:+ " in "
                               +:+ pretty (Z.min (5 * n) 60) +:+ "s...") "warn" w))
    /\ (forall ms k, tick_due ms k = true ->
          exists m, task_step EvTick (PSupSleep sid n ms k) = Some m
                    /\ m w = (if shouldStop (deref sid w) then PDone Finished
                              else PSupSleep sid n ms (k + 1), [], w))
    /\ (forall ms k, timer_due ms k = true ->
          task_step EvTimer (PSupSleep sid n ms k)
          = Some (mret (PStorage (CallGetConfig sid) None (KSupervisor sid n), [])))
    /\ (forall newId,
          storage_step (CallGetConfig sid) None (KSupervisor sid n) newId w
          = ((supervisor_afterConfig sid n (Storage.getConfig sid (configs w)) w).1, [],
             (supervisor_afterConfig sid n (Storage.getConfig sid (configs w)) w).2))
    /\ supervisor_afterConfig sid n None w
       = (PDone Finished,
          emit sid "Auto-restart cancelled - user stopped or config removed" "warn" w)
    /\ (forall cfg, Schema.userWantsActive cfg = false ->
          supervisor_afterConfig sid n (Some cfg) w
          = (PDone Finished,
             emit sid "Auto-restart cancelled - user stopped or config removed" "warn" w))
    /\ (forall cfg, Schema.userWantsActive cfg = true -> complete cfg = false ->
          supervisor_afterConfig sid n (Some cfg) w
          = supervisor_iterate sid n
              (emit sid "Auto-restart waiting - incomplete config" "warn" w))
    /\ (forall cfg, Schema.userWantsActive cfg = true -> complete cfg = true ->
          supervisor_afterConfig sid n (Some cfg) w
          = startSender_entry (restart_args sid cfg) (BySupervisor n)
              (emit sid "Auto-restarting sender..." "success" w))
    /\ (forall e, startSender_return sid (BySupervisor n) true e w = (PDone Finished, w))
    /\ (forall e, startSender_return sid (BySupervisor n) false e w
                  = supervisor_iterate sid n
                      (emit sid ("Restart failed: " +:+ e +:+ " - will retry") "warn" w)).
Proof.
  intros sid w n. split_and!.
  - reflexivity.
  - rewrite supervisor_iterate_unfold. simpl.
    by replace (n - 1 + 1) with n by lia.
  - intros ms k Hdue. simpl. rewrite Hdue. eexists. split; [reflexivity|].
    prims. by destruct (shouldStop (deref sid w)).
  - intros ms k Hdue. simpl. by rewrite Hdue.
  - intros newId. unfold storage_step. prims.
    by destruct (supervisor_afterConfig sid n (Storage.getConfig sid (configs w)) w).
  - reflexivity.
  - intros cfg Hint. unfold supervisor_afterConfig. by rewrite Hint.
  - intros cfg Hint Hc. unfold supervisor_afterConfig, complete in *. rewrite Hint. simpl.
    apply negb_false_iff in Hc. by rewrite Hc.
  - intros cfg Hint Hc. unfold supervisor_afterConfig, complete in *. rewrite Hint. simpl.
    apply negb_true_iff in Hc. by rewrite Hc.
  - reflexivity.
  - reflexivity.
Qed.

(** The waits of the first attempts, in seconds. *)
Example supervisor_waits :
  List.map (fun n => Z.min (5 * n) 60) [1; 2; 3; 4; 11; 12; 13; 14]
  = [5; 10; 15; 20; 55; 60; 60; 60].
Proof. reflexivity. Qed.

Lemma C6_restart_supervisor_witness :
  supervisor_afterConfig "s1" 3
    (Some (Schema.mkConfig "r1" "s1" "Default Config" "tok" "hi" "1,2" 10 false true 7))
    emptyWorld
  = startSender_entry (mkArgs "s1" "tok" "hi" "1,2" 10 true) (BySupervisor 3)
      (emit "s1" "Auto-restarting sender..." "success" emptyWorld).
Proof.
  destruct (C6_restart_supervisor "s1" emptyWorld 3) as (_ & _ & _ & _ & _ & _ & _ & _ & H & _).
  apply (H (Schema.mkConfig "r1" "s1" "Default Config" "tok" "hi" "1,2" 10 false true 7));
    reflexivity.
Defined.

(** ** Steps of a single task inside the transition system *)

Lemma step_resume st i e pc m :
  tasks st !! i = Some pc ->
  task_step e pc = Some m ->
  step (Resume i e) st
  = Some (mkState (m (world st)).2
                  (<[i := (m (world st)).1.1]> (tasks st) ++ (m (world st)).1.2)%list).
Proof.
  intros Hi Hm. simpl. rewrite Hi, Hm. by destruct (m (world st)) as [[pc' sp] w'].
Qed.

Lemma lookup_own_slot (ts sp : list Pc) i pc pc' :
  ts !! i = Some pc -> (<[i := pc']> ts ++ sp)%list !! i = Some pc'.
Proof.
  intros Hi. apply lookup_lt_Some in Hi.
  rewrite lookup_app_l by (by rewrite length_insert).
  by apply list_lookup_insert_eq.
Qed.

Lemma insert_own_slot (ts sp : list Pc) i pc pc1 pc2 :
  ts !! i = Some pc ->
  (<[i := pc2]> (<[i := pc1]> ts ++ sp))%list = (<[i := pc2]> ts ++ sp)%list.
Proof.
  intros Hi. apply lookup_lt_Some in Hi.
  rewrite insert_app_l by (by rewrite length_insert).
  by rewrite list_insert_insert_eq.
Qed.

(** Answering the queries of task [i] one after the other is an execution
    of the system in which only task [i] moves. *)
Lemma settle_exec fuel newId :
  forall st i pc,
    tasks st !! i = Some pc ->
    exists n,
      exec (replicate n (Resume i (EvDb newId))) st
      = Some (mkState (settle fuel newId pc (world st)).2
                      (<[i := (settle fuel newId pc (world st)).1.1]> (tasks st)
                       ++ (settle fuel newId pc (world st)).1.2)%list).
Proof.
  induction fuel as [|fuel IH]; intros [w ts] i pc Hi; simpl in *.
  - exists 0%nat. simpl. munfold. simpl.
    by rewrite app_nil_r, list_insert_id.
  - destruct pc as [| call existing k | | | | |];
      try (exists 0%nat; simpl; munfold; simpl; by rewrite app_nil_r, list_insert_id).
    munfold.
    destruct (storage_step call existing k newId w) as [[pc1 sp1] w1] eqn:E1. simpl.
    destruct (IH (mkState w1 (<[i := pc1]> ts ++ sp1)%list) i pc1) as [n Hn].
    { simpl. by eapply lookup_own_slot. }
    simpl in Hn.
    destruct (settle fuel newId pc1 w1) as [[pc2 sp2] w2] eqn:E2. simpl in *.
    exists (S n). simpl. rewrite Hi. simpl. rewrite E1. simpl.
    rewrite Hn. f_equal. f_equal.
    rewrite (insert_own_slot ts sp1 i _ pc1 pc2 Hi). by rewrite app_assoc.
Qed.

(** ** The [configs] table under the writes of the engine *)

Lemma getConfig_update sid t e f :
  (forall c, Schema.sessionId (f c) = Schema.sessionId c) ->
  Storage.getConfig sid t = Some e ->
  Storage.getConfig sid (Storage.update_where_id (Schema.id e) f t) = Some (f e).
Proof.
  intros Hf. unfold Storage.getConfig, Storage.update_where_id.
  induction t as [|c r IH]; simpl; [done|].
  destruct (String.eqb (Schema.sessionId c) sid) eqn:Hc.
  - intros [= ->]. rewrite String.eqb_refl. simpl. by rewrite Hf, Hc.
  - intros He. destruct (String.eqb (Schema.id c) (Schema.id e)); simpl.
    + rewrite Hf, Hc. by apply IH.
    + rewrite Hc. by apply IH.
Qed.

Lemma getConfig_update_other sid t rowId f :
  (forall c, Schema.sessionId (f c) = Schema.sessionId c) ->
  Storage.getConfig sid t = None ->
  Storage.getConfig sid (Storage.update_where_id rowId f t) = None.
Proof.
  intros Hf. unfold Storage.getConfig, Storage.update_where_id.
  induction t as [|c r IH]; simpl; [done|].
  destruct (String.eqb (Schema.sessionId c) sid) eqn:Hc; [done|].
  intros He. destruct (String.eqb (Schema.id c) rowId); simpl.
  - rewrite Hf, Hc. by apply IH.
  - rewrite Hc. by apply IH.
Qed.

Lemma deref_write_if_found sid sid' f w :
  deref sid' (write_if_found sid f w) = deref sid' w.
Proof. unfold write_if_found. by destruct (Storage.getConfig sid (configs w)). Qed.

Lemma emitted_write_if_found sid f w : emitted (write_if_found sid f w) = emitted w.
Proof. unfold write_if_found. by destruct (Storage.getConfig sid (configs w)). Qed.

Lemma getConfig_write_if_found sid f w :
  (forall c, Schema.sessionId (f c) = Schema.sessionId c) ->
  Storage.getConfig sid (configs (write_if_found sid f w))
  = f <$> Storage.getConfig sid (configs w).
Proof.
  intros Hf. unfold write_if_found.
  destruct (Storage.getConfig sid (configs w)) as [e|] eqn:E; simpl; [|done].
  by apply getConfig_update.
Qed.

#[local] Hint Rewrite deref_write_if_found emitted_write_if_found : deref.

(** The storage methods run without interleaving are [write_if_found]. *)
Lemma configs_write_if_found sid f w :
  configs (write_if_found sid f w)
  = match Storage.getConfig sid (configs w) with
    | Some e => Storage.update_where_id (Schema.id e) f (configs w)
    | None => configs w
    end.
Proof. unfold write_if_found. by destruct (Storage.getConfig sid (configs w)). Qed.

Lemma setUserWantsActive_alone sid b w :
  configs (write_if_found sid (Storage.set_userWantsActive b) w)
  = Storage.setUserWantsActive sid b (configs w).
Proof. by rewrite configs_write_if_found. Qed.


(** [incrementSent] run twice without interleaving adds two. *)
Lemma incrementSent_twice sid t c :
  Storage.getConfig sid t = Some c ->
  Schema.totalSent
    <$> Storage.getConfig sid (Storage.incrementSent sid (Storage.incrementSent sid t))
  = Some (Schema.totalSent c + 2).
Proof.
  intros Hc. unfold Storage.incrementSent at 2, Storage.incrementSent_write. rewrite Hc.
  pose proof (getConfig_update sid t c (Storage.set_totalSent (Schema.totalSent c + 1))
                (fun _ => eq_refl) Hc) as H1.
  unfold Storage.incrementSent, Storage.incrementSent_write. rewrite H1.
  pose proof (getConfig_update sid _ _
                (Storage.set_totalSent
                   (Schema.totalSent (Storage.set_totalSent (Schema.totalSent c + 1) c) + 1))
                (fun _ => eq_refl) H1) as H2.
  simpl in H2. simpl. rewrite H2. simpl. f_equal. lia.
Qed.

(** ** [stopSender] *)

Lemma settle_stop sid newId w :
  settle 2 newId (PStorage (CallSetUserWantsActive sid false) None KStopReturn) w
  = (PDone (StopResult true), [],
     write_if_found sid (Storage.set_userWantsActive false) w).
Proof.
  unfold write_if_found. simpl. prims.
  by destruct (Storage.getConfig sid (configs w)).
Qed.

(** C7.  On an idle session [stopSender] returns [success: false] and
    leaves every session record, the stored configurations and the log as
    they were (a session that had no record yet gets its idle record).  On
    an active session it sets the cancellation flag and returns
    [success: true]; only its own task moves while it does so, no loop of
    the run is awaited, and the session is still active when it returns.
    The row that the session has in [configs] then holds the intent flag
    [false] and every other column as it was; without a row nothing is
    stored. *)
Theorem C7_stop_sender :
  forall st sid newId,
    let s := deref sid (world st) in
    (isActive s = false ->
       step (Call_stopSender sid) st
       = Some (mkState (touch sid (world st)) (tasks st ++ [PDone (StopResult false)])%list)
       /\ (forall sid', deref sid' (touch sid (world st)) = deref sid' (world st))
       /\ configs (touch sid (world st)) = configs (world st)
       /\ emitted (touch sid (world st)) = emitted (world st)
       /\ (is_Some (sessions (world st) !! sid) -> touch sid (world st) = world st))
    /\ (isActive s = true ->
        exists st1 n st2,
          step (Call_stopSender sid) st = Some st1
          /\ exec (replicate n (Resume (List.length (tasks st)) (EvDb newId))) st1 = Some st2
          /\ tasks st2 = (tasks st ++ [PDone (StopResult true)])%list
          /\ shouldStop (deref sid (world st1)) = true
          /\ shouldStop (deref sid (world st2)) = true
          /\ isActive (deref sid (world st2)) = true
          /\ (forall cfg, Storage.getConfig sid (configs (world st)) = Some cfg ->
                exists cfg',
                  Storage.getConfig sid (configs (world st2)) = Some cfg'
                  /\ Schema.userWantsActive cfg' = false
                  /\ cfg' = Schema.mkConfig
                              (Schema.id cfg) (Schema.sessionId cfg) (Schema.name cfg)
                              (Schema.token cfg) (Schema.message cfg)
                              (Schema.channelIds cfg) (Schema.delay cfg)
                              (Schema.isActive cfg) false (Schema.totalSent cfg))
          /\ (Storage.getConfig sid (configs (world st)) = None ->
                configs (world st2) = configs (world st))).
Proof.
  intros [w ts] sid newId s. subst s. simpl. split.
  - intros Hidle. split_and!.
    + unfold spawn, stopSender_entry. prims. by rewrite Hidle.
    + intros sid'. apply deref_touch.
    + apply configs_touch.
    + apply emitted_touch.
    + apply touch_present.
  - intros Hact.
    destruct (settle_exec 2 newId
                (mkState (assign sid (with_shouldStop true)
                            (emit sid "Abort signal received - shutting down..." "warn"
                                  (touch sid w)))
                         (ts ++ [PStorage (CallSetUserWantsActive sid false) None KStopReturn])%list)
                (List.length ts) _ (list_lookup_middle ts [] _ _ eq_refl))
      as [n Hn].
    rewrite settle_stop in Hn. simpl in Hn.
    rewrite insert_app_r_alt, Nat.sub_diag in Hn by done. simpl in Hn.
    rewrite app_nil_r in Hn.
    eexists _, n, _. split_and!.
    + unfold spawn, stopSender_entry. prims. rewrite Hact. simpl. reflexivity.
    + exact Hn.
    + reflexivity.
    + cbn [world]. rewrite deref_assign_eq. reflexivity.
    + cbn [world]. rewrite deref_write_if_found, deref_assign_eq. reflexivity.
    + cbn [world]. rewrite deref_write_if_found, deref_assign_eq. unfold emit, emitLog.
      simpl. by autorewrite with deref.
    + intros cfg Hcfg. cbn [world]. rewrite getConfig_write_if_found by done.
      unfold emit, emitLog. wsimpl. rewrite Hcfg. simpl.
      eexists. split_and!; reflexivity.
    + intros Hnone. cbn [world]. rewrite configs_write_if_found.
      unfold emit, emitLog. wsimpl. by rewrite Hnone.
Qed.

Lemma C7_stop_sender_witness :
  step (Call_stopSender "s1") initial
  = Some (mkState (touch "s1" emptyWorld) [PDone (StopResult false)])
  /\ Schema.userWantsActive <$> Storage.getConfig "s1" (configs (world sample_launch_state))
     = Some true
  /\ exists st1 n st2 cfg',
       step (Call_stopSender "s1") sample_launch_state = Some st1
       /\ exec (replicate n (Resume 2 (EvDb "r2"))) st1 = Some st2
       /\ tasks st2 = (tasks sample_launch_state ++ [PDone (StopResult true)])%list
       /\ shouldStop (deref "s1" (world st2)) = true
       /\ Storage.getConfig "s1" (configs (world st2)) = Some cfg'
       /\ Schema.userWantsActive cfg' = false.
Proof.
  split_and!.
  - destruct (C7_stop_sender initial "s1" "r2") as [H _].
    destruct H as [H _]; [reflexivity|exact H].
  - vm_compute. reflexivity.
  - destruct (C7_stop_sender sample_launch_state "s1" "r2") as [_ H].
    destruct H as (st1 & n & st2 & H1 & H2 & H3 & _ & H4 & _ & H5 & _);
      [vm_compute; reflexivity|].
    edestruct H5 as (cfg' & H6 & H7 & _); [vm_compute; reflexivity|].
    exists st1, n, st2, cfg'. split_and!; [exact H1|exact H2|exact H3|exact H4|exact H6|exact H7].
Defined.

(** ** The end of a run *)

Lemma all_settled_spec pool :
  is_Some (all_settled pool) <-> Forall returned pool.
Proof.
  induction pool as [|c r IH]; simpl.
  - split; [constructor|by eexists].
  - split.
    + intros [os Hos]. destruct c; simpl in Hos; try done.
      destruct (all_settled r) eqn:E; [|done].
      constructor; [by eexists|]. apply IH. by eexists.
    + intros H. inversion H as [|? ? [o ->] Hr]; subst. simpl.
      apply IH in Hr as [os ->]. by eexists.
Qed.

Lemma all_settled_In pool results o :
  all_settled pool = Some results -> In (CDone o) pool -> In o results.
Proof.
  revert results. induction pool as [|c r IH]; intros results; simpl; [done|].
  destruct c; simpl; try done.
  destruct (all_settled r) eqn:E; [|done].
  intros [= <-] [Hc|Hin]; [left; congruence|right; eauto].
Qed.

Lemma aggregate_token_invalid sid results w :
  In token_invalid results ->
  senderLoop_aggregate sid results w = (LTokenInvalid, assign sid (with_shouldStop true) w).
Proof.
  intros Hin. unfold senderLoop_aggregate.
  replace (existsb is_token_invalid results) with true; [done|].
  symmetry. apply existsb_exists. by exists token_invalid.
Qed.

Lemma settle_token_invalid sid newId u w :
  settle 4 newId (PStorage (CallUpdateConfigStatus sid false) None
                           (KFinally sid LTokenInvalid u)) w
  = (PDone Finished, [],
     emit sid (log_message (token_invalid_line sid)) "error"
       (write_if_found sid (Storage.set_userWantsActive false)
          (write_if_found sid (Storage.set_isActive false) w))).
Proof.
  unfold write_if_found at 2. simpl. prims.
  destruct (Storage.getConfig sid (configs w)) as [e|] eqn:E; simpl.
  - unfold write_if_found. prims. unfold Storage.updateConfigStatus_write.
    destruct (Storage.getConfig sid
                (configs (stored (Storage.update_where_id (Schema.id e)
                                    (Storage.set_isActive false)) w))) eqn:E';
      simpl in E'; rewrite E'; by prims.
  - unfold write_if_found. prims. rewrite E. by prims.
Qed.

(** The channel loops leave the cancellation flag of every session as it
    is. *)
Lemma channelLoop_examine_flag sid chName ce result waitSec w s :
  shouldStop (deref s (channelLoop_examine sid chName ce result waitSec w).2)
  = shouldStop (deref s w).
Proof.
  unfold channelLoop_examine. prims.
  destruct (shouldStop (deref sid w)); simpl; [done|].
  destruct (cooldownMs result =? -401); simpl; [done|].
  destruct (sent result); prims.
  - autorewrite with deref. destruct (decide (sid = s)) as [->|Hne].
    + by rewrite deref_assign_eq.
    + by rewrite deref_assign_ne.
  - destruct (5 <? JS.ceilSeconds (backoffMs result (ce + 1))); prims;
      by autorewrite with deref.
Qed.

Lemma channel_step_flag sid chName e c m w s :
  channel_step sid chName e c = Some m ->
  shouldStop (deref s (m w).2) = shouldStop (deref s w).
Proof.
  intros Hm. destruct c as [ce ms k|ce|o|], e as [r waitSec| | |]; simpl in Hm;
    try discriminate.
  - destruct (tick_due ms k); [|discriminate]. injection Hm as <-. by prims.
  - destruct (timer_due ms k); [|discriminate]. injection Hm as <-.
    unfold channelLoop_iterate. prims.
    destruct (shouldStop (deref sid w)); [done|]. prims.
    destruct (shouldStop (deref sid w)); [|simpl; by autorewrite with deref].
    rewrite channelLoop_examine_flag. by autorewrite with deref.
  - by injection Hm as <-.
  - injection Hm as <-. munfold.
    pose proof (classify_deref sid chName r s w) as Hd.
    destruct (sendOneMessage_classify sid chName r w) as [result w1]. simpl in *.
    by rewrite channelLoop_examine_flag, Hd.
  - by injection Hm as <-.
Qed.

Lemma pool_step_flag sid chNames pool j e m w s :
  pool_step sid chNames pool j e = Some m ->
  shouldStop (deref s (m w).2) = shouldStop (deref s w).
Proof.
  unfold pool_step. intros Hm.
  destruct (pool !! j) as [c|]; [|discriminate].
  destruct (channel_step sid (default "" (chNames !! j)) e c) as [m0|] eqn:E; [|discriminate].
  injection Hm as <-. munfold.
  pose proof (channel_step_flag _ _ _ _ _ w s E) as H0.
  by destruct (m0 w) as [[c' inc] w1].
Qed.

(** C1.  Take a run whose channel loops are launched and one of which has
    returned [token_invalid].  [senderLoop] aggregates only once every
    loop has returned by itself: no block of the run reaches the [finally]
    block with the result [token_invalid] before that, and as long as a
    loop has not returned no block of the run sets the cancellation flag.
    When they all have, the aggregation sets the flag and returns
    [token_invalid]; the [finally] block reads the flag as set, resets the
    session, and, its storage calls answered, the stored intent flag of the
    session is false, the last line logged is the token-invalid error, and
    the task of the run has ended. *)
Theorem C1_token_invalid_outcome :
  forall st i a chNames pool newId,
    tasks st !! i = Some (PLoops a chNames pool) ->
    In (CDone token_invalid) pool ->
    let sid := a_sessionId a in
    (is_Some (step (Resume i EvAllSettled) st) <-> Forall returned pool)
    /\ (forall e st' call existing u,
          step (Resume i e) st = Some st' ->
          tasks st' !! i = Some (PStorage call existing (KFinally sid LTokenInvalid u)) ->
          Forall returned pool)
    /\ (forall e st',
          ~ Forall returned pool ->
          step (Resume i e) st = Some st' ->
          shouldStop (deref sid (world st')) = true ->
          shouldStop (deref sid (world st)) = true)
    /\ (Forall returned pool ->
        exists results n st1 st',
          all_settled pool = Some results
          /\ senderLoop_aggregate sid results (world st)
             = (LTokenInvalid, assign sid (with_shouldStop true) (world st))
          /\ step (Resume i EvAllSettled) st = Some st1
          /\ tasks st1 !! i
             = Some (PStorage (CallUpdateConfigStatus sid false) None
                              (KFinally sid LTokenInvalid true))
          /\ exec (replicate n (Resume i (EvDb newId))) st1 = Some st'
          /\ tasks st' = <[i := PDone Finished]> (tasks st)
          /\ last (emitted (world st')) = Some (token_invalid_line sid)
          /\ isActive (deref sid (world st')) = false
          /\ (forall cfg, Storage.getConfig sid (configs (world st)) = Some cfg ->
                exists cfg', Storage.getConfig sid (configs (world st')) = Some cfg'
                             /\ Schema.userWantsActive cfg' = false)).
Proof.
  intros [w ts] i a chNames pool newId Hi Hin sid. simpl in Hi.
  split_and!.
  - rewrite <- all_settled_spec. simpl. rewrite Hi. simpl.
    destruct (all_settled pool) as [results|]; simpl.
    + split; [by eexists|intros _].
      munfold.
      destruct (senderLoop_aggregate (a_sessionId a) results w) as [r w1].
      destruct (run_finally (a_sessionId a) r w1) as [pc w2]. by eexists.
    + split; intros [? ?]; done.
  - intros e st' call existing u Hstep Hpc. simpl in Hstep. rewrite Hi in Hstep.
    destruct e as [| |nid|fetched|j ce| |msg]; simpl in Hstep; try discriminate.
    + destruct (pool_step (a_sessionId a) chNames pool j ce) as [m0|]; [|discriminate].
      revert Hstep. munfold. destruct (m0 w) as [[pool' sp] w1]. simpl.
      intros [= <-]. simpl in Hpc.
      rewrite (lookup_own_slot ts sp i _ _ Hi) in Hpc. discriminate.
    + apply all_settled_spec. destruct (all_settled pool); [by eexists|discriminate].
    + destruct (existsb is_failed pool); [|discriminate].
      unfold run_catch, run_finally in Hstep. revert Hstep. prims.
      intros [= <-]. simpl in Hpc.
      rewrite (lookup_own_slot ts _ i _ _ Hi) in Hpc. discriminate.
  - intros e st' Hnot Hstep. simpl in Hstep. rewrite Hi in Hstep.
    destruct e as [| |nid|fetched|j ce| |msg]; simpl in Hstep; try discriminate.
    + destruct (pool_step (a_sessionId a) chNames pool j ce) as [m0|] eqn:E; [|discriminate].
      pose proof (pool_step_flag _ _ _ _ _ _ w sid E) as Hflag.
      revert Hstep. munfold. destruct (m0 w) as [[pool' sp] w1]. simpl in *.
      intros [= <-]. simpl. by rewrite Hflag.
    + destruct Hnot. apply all_settled_spec.
      destruct (all_settled pool); [by eexists|discriminate].
    + destruct (existsb is_failed pool); [|discriminate].
      unfold run_catch, run_finally in Hstep. revert Hstep. prims.
      intros [= <-]. simpl. fold sid. by rewrite !deref_assign_eq.
  - intros Hall. apply all_settled_spec in Hall as [results Hres].
    pose proof (all_settled_In _ _ _ Hres Hin) as Hti.
    pose proof (aggregate_token_invalid sid results w Hti) as Hagg.
    assert (exists w1,
               step (Resume i EvAllSettled) (mkState w ts)
               = Some (mkState w1
                         (<[i := PStorage (CallUpdateConfigStatus sid false) None
                                          (KFinally sid LTokenInvalid true)]> ts))
               /\ (forall sid', sid' = sid -> isActive (deref sid' w1) = false)
               /\ configs w1 = configs w) as (w1 & Hstep & Hidle & Hcfg1).
    { eexists. split_and!.
      - simpl. rewrite Hi. simpl. rewrite Hres. fold sid. munfold. rewrite Hagg.
        unfold run_finally. prims. rewrite deref_assign_eq. simpl.
        rewrite app_nil_r. reflexivity.
      - intros sid' ->. rewrite !deref_assign_eq. reflexivity.
      - reflexivity. }
    destruct (settle_exec 4 newId
                (mkState w1 (<[i := PStorage (CallUpdateConfigStatus sid false) None
                                             (KFinally sid LTokenInvalid true)]> ts))
                i (PStorage (CallUpdateConfigStatus sid false) None
                            (KFinally sid LTokenInvalid true))) as [n Hn].
    { simpl. apply list_lookup_insert_eq. by eapply lookup_lt_Some. }
    rewrite settle_token_invalid in Hn. simpl in Hn.
    rewrite app_nil_r, list_insert_insert_eq in Hn.
    exists results, n. eexists _, _. split_and!.
    + exact Hres.
    + exact Hagg.
    + exact Hstep.
    + simpl. apply list_lookup_insert_eq. by eapply lookup_lt_Some.
    + exact Hn.
    + reflexivity.
    + cbn [world]. unfold emit, emitLog. wsimpl. apply last_snoc.
    + cbn [world]. unfold emit, emitLog. wsimpl. by apply Hidle.
    + intros cfg Hc. cbn [world]. unfold emit, emitLog. wsimpl.
      rewrite !getConfig_write_if_found by done. rewrite Hcfg1. simpl in Hc. rewrite Hc.
      eexists. split; reflexivity.
Qed.

Lemma C1_token_invalid_outcome_witness :
  exists results n st1 st',
    all_settled [CDone token_invalid; CDone token_invalid] = Some results
    /\ step (Resume 0 EvAllSettled) sample_both_unauthorized_state = Some st1
    /\ tasks st1 !! 0%nat
       = Some (PStorage (CallUpdateConfigStatus "s1" false) None
                        (KFinally "s1" LTokenInvalid true))
    /\ exec (replicate n (Resume 0 (EvDb "r2"))) st1 = Some st'
    /\ last (emitted (world st')) = Some (token_invalid_line "s1")
    /\ exists cfg', Storage.getConfig "s1" (configs (world st')) = Some cfg'
                    /\ Schema.userWantsActive cfg' = false.
Proof.
  destruct (C1_token_invalid_outcome sample_both_unauthorized_state 0 sample_args
              ["general"; "2"] [CDone token_invalid; CDone token_invalid] "r2")
    as (_ & _ & _ & H).
  - vm_compute. reflexivity.
  - left. reflexivity.
  - destruct H as (results & n & st1 & st' & H1 & _ & H2 & H3 & H4 & _ & H5 & _ & H6).
    + repeat constructor; by eexists.
    + exists results, n, st1, st'. split_and!; [exact H1|exact H2|exact H3|exact H4|exact H5|].
      eapply H6. vm_compute. reflexivity.
Defined.

(** C1 as the specification words it does not hold.  In the sample session
    the first loop has returned [token_invalid] while the second is still
    running: the run cannot aggregate, the cancellation flag is clear, and
    the second loop is not wound down: it goes on to deliver a message,
    after which the session is still active, its flag still clear, its
    stored intent still true, and no token-invalid line has been logged. *)
Lemma C1_counterexample :
  exists st st',
    exec sample_one_unauthorized initial = Some st
    /\ loop_state 0 0 st = Some (CDone token_invalid)
    /\ loop_state 0 1 st = Some (CSleep 0 2000 0)
    /\ shouldStop (deref "s1" (world st)) = false
    /\ step (Resume 0 EvAllSettled) st = None
    /\ exec sample_other_delivers st = Some st'
    /\ last (emitted (world st')) = Some (mkLog "s1" "Delivered to #2 [Total: 1]" "success")
    /\ loop_state 0 0 st' = Some (CDone token_invalid)
    /\ loop_state 0 1 st' = Some (CSleep 0 10000 0)
    /\ shouldStop (deref "s1" (world st')) = false
    /\ isActive (deref "s1" (world st')) = true
    /\ step (Resume 0 EvAllSettled) st' = None
    /\ Schema.userWantsActive <$> Storage.getConfig "s1" (configs (world st')) = Some true
    /\ ~ In (token_invalid_line "s1") (emitted (world st')).
Proof.
  destruct (exec sample_one_unauthorized initial) as [st|] eqn:E1; [|by vm_compute in E1].
  destruct (exec sample_other_delivers st) as [st'|] eqn:E2.
  2: { vm_compute in E1. injection E1 as <-. by vm_compute in E2. }
  exists st, st'. vm_compute in E1. injection E1 as <-.
  vm_compute in E2. injection E2 as <-.
  split_and!; try (vm_compute; reflexivity).
  vm_compute. intros H. repeat (destruct H as [H|H]; [discriminate H|]). destruct H.
Qed.

(** ** The idle invariant *)

Lemma good_idle_ok s n : good s n -> idle_ok (status_of s).
Proof.
  unfold good, idle_ok. simpl. intros H Hi. rewrite Hi in H. tauto.
Qed.

Lemma winv_ext cnt cnt' w : (forall s, cnt s = cnt' s) -> winv cnt w -> winv cnt' w.
Proof.
  intros He [Hg Hb]. split; [|done]. intros s. rewrite <- He. apply Hg.
Qed.

Lemma winv_touch cnt sid w : winv cnt w -> winv cnt (touch sid w).
Proof.
  intros [Hg Hb]. split; [|by rewrite broadcasts_touch].
  intros s. rewrite deref_touch. apply Hg.
Qed.

Lemma winv_logged cnt l w : winv cnt w -> winv cnt (logged l w).
Proof. intros [Hg Hb]. by split. Qed.

Lemma winv_stored cnt f w : winv cnt w -> winv cnt (stored f w).
Proof. intros [Hg Hb]. by split. Qed.

Lemma winv_named cnt c n w : winv cnt w -> winv cnt (named c n w).
Proof. intros [Hg Hb]. by split. Qed.

Lemma winv_at_time cnt t w : winv cnt w -> winv cnt (at_time t w).
Proof. intros [Hg Hb]. by split. Qed.

Lemma winv_observed cnt sid w : winv cnt w -> winv cnt (observed sid w).
Proof.
  intros [Hg Hb]. split; [done|]. simpl. apply Forall_app. split; [done|].
  constructor; [|constructor]. simpl. eapply good_idle_ok, Hg.
Qed.

Lemma winv_emit cnt sid msg level w : winv cnt w -> winv cnt (emitLog sid msg level w).2.
Proof. intros H. simpl. by apply winv_observed, winv_touch, winv_logged. Qed.

(** An assignment that keeps [isActive], [activeThreads], [startTime] and
    [shouldStop]. *)
Lemma winv_assign_same cnt sid f w :
  (forall s, isActive (f s) = isActive s /\ activeThreads (f s) = activeThreads s
             /\ startTime (f s) = startTime s /\ shouldStop (f s) = shouldStop s) ->
  winv cnt w -> winv cnt (assign sid f w).
Proof.
  intros Hf [Hg Hb]. split; [|done]. intros s.
  destruct (decide (sid = s)) as [->|Hne].
  - rewrite deref_assign_eq. specialize (Hg s). unfold good in *.
    destruct (Hf (deref s w)) as (-> & -> & -> & ->). done.
  - rewrite deref_assign_ne by done. apply Hg.
Qed.

(** An assignment to a session that is active and stays active. *)
Lemma winv_assign_active cnt sid f w :
  isActive (deref sid w) = true ->
  (forall s, isActive (f s) = isActive s) ->
  winv cnt w -> winv cnt (assign sid f w).
Proof.
  intros Ha Hf [Hg Hb]. split; [|done]. intros s.
  destruct (decide (sid = s)) as [->|Hne].
  - rewrite deref_assign_eq. specialize (Hg s). unfold good in *.
    by rewrite Hf, Ha in *.
  - rewrite deref_assign_ne by done. apply Hg.
Qed.

Lemma winv_live_active cnt sid w : winv (plus_live cnt sid) w -> isActive (deref sid w) = true.
Proof.
  intros [Hg _]. specialize (Hg sid). unfold good, plus_live in Hg.
  rewrite bool_decide_eq_true_2 in Hg by done.
  destruct (isActive (deref sid w)); [done|]. simpl in Hg. lia.
Qed.

(** The four assignments of the [finally] block take the live run away. *)
Lemma winv_finalize cnt sid w :
  winv (plus_live cnt sid) w ->
  winv cnt (assign sid (with_shouldStop false)
              (assign sid (with_startTime None)
                 (assign sid (with_activeThreads 0)
                    (assign sid (with_isActive false) w)))).
Proof.
  intros [Hg Hb]. split; [|done]. intros s. specialize (Hg s). unfold plus_live in Hg.
  destruct (decide (sid = s)) as [->|Hne].
  - rewrite !deref_assign_eq. rewrite bool_decide_eq_true_2 in Hg by done.
    unfold good in *. simpl.
    destruct (isActive (deref s w)); simpl in Hg; [split_and!; try done; lia|lia].
  - rewrite !deref_assign_ne by done. rewrite bool_decide_eq_false_2 in Hg by done.
    simpl in Hg. by rewrite Nat.add_0_r in Hg.
Qed.

(** The three assignments of a successful [startSender] add a live run to
    an inactive session. *)
Lemma winv_activate cnt sid t w :
  isActive (deref sid w) = false ->
  winv cnt w ->
  winv (plus_live cnt sid)
       (assign sid (with_startTime t)
          (assign sid (with_shouldStop false) (assign sid (with_isActive true) w))).
Proof.
  intros Hi [Hg Hb]. split; [|done]. intros s. specialize (Hg s). unfold plus_live.
  destruct (decide (sid = s)) as [->|Hne].
  - rewrite !deref_assign_eq. rewrite bool_decide_eq_true_2 by done.
    unfold good in *. simpl. rewrite Hi in Hg. destruct Hg as [-> _]. simpl. lia.
  - rewrite !deref_assign_ne by done. rewrite bool_decide_eq_false_2 by done.
    simpl. by rewrite Nat.add_0_r.
Qed.

Lemma after_dead cnt pc w :
  (forall s, is_live s pc = false) -> winv cnt w -> after cnt (pc, w).
Proof.
  intros Hd. unfold after. apply winv_ext. intros s. simpl. rewrite Hd. simpl. lia.
Qed.

Lemma after_live cnt a pc w :
  (forall s, is_live s pc = args_live s a) ->
  winv (plus_live cnt (a_sessionId a)) w -> after cnt (pc, w).
Proof.
  intros Hl. unfold after. apply winv_ext. intros s. simpl. by rewrite Hl.
Qed.

Lemma after2_nil cnt pc w : after cnt (pc, w) -> after2 cnt (pc, [], w).
Proof. unfold after, after2. apply winv_ext. intros s. simpl. lia. Qed.

(** Steps of a proof that a world built from the transformers satisfies
    the invariant. *)
Ltac winv_chain :=
  repeat first
    [ assumption
    | apply winv_touch
    | apply winv_observed
    | apply winv_logged
    | apply winv_stored
    | apply winv_named
    | apply winv_at_time ].

Lemma supervisor_iterate_inv cnt sid n w :
  winv cnt w -> after cnt (supervisor_iterate sid n w).
Proof.
  intros H. rewrite supervisor_iterate_unfold. cbv zeta. unfold emit, emitLog. simpl.
  apply after_dead; [intros s; by destruct (shouldStop (deref sid w))|]. winv_chain.
Qed.

Lemma startSender_return_inv cnt sid c success e w :
  winv cnt w -> after cnt (startSender_return sid c success e w).
Proof.
  intros H. destruct c as [|n|]; simpl; try (apply after_dead; [reflexivity|done]).
  destruct success; [apply after_dead; [reflexivity|done]|]. prims.
  apply supervisor_iterate_inv. winv_chain.
Qed.

Lemma startSender_validate_inv cnt a c w :
  winv cnt w -> after cnt (startSender_validate a c w).
Proof.
  intros H. unfold startSender_validate. prims.
  destruct (isActive (deref (a_sessionId a) w)) eqn:Ha;
    [by apply startSender_return_inv|].
  destruct (List.length (parseChannelIds (a_channelIdsStr a)) =? 0)%nat;
    [by apply startSender_return_inv|].
  destruct (JS.falsy (a_token a)); [by apply startSender_return_inv|].
  destruct (JS.falsy (a_message a)); [by apply startSender_return_inv|].
  prims. apply (after_live _ a); [reflexivity|]. by apply winv_activate.
Qed.

Lemma startSender_entry_inv cnt a c w :
  winv cnt w -> after cnt (startSender_entry a c w).
Proof.
  intros H. unfold startSender_entry. prims.
  destruct (isActive (deref (a_sessionId a) w)), (shouldStop (deref (a_sessionId a) w));
    simpl; try (apply startSender_validate_inv; winv_chain).
  apply after_dead; [reflexivity|]. winv_chain.
Qed.

Lemma startSender_wake_inv cnt a c waited w :
  winv cnt w -> after cnt (startSender_wake a c waited w).
Proof.
  intros H. unfold startSender_wake. prims.
  destruct (isActive (deref (a_sessionId a) w) && (waited + 300 <? 5000)).
  - apply after_dead; [reflexivity|done].
  - by apply startSender_validate_inv.
Qed.

Lemma run_finally_inv cnt sid r w :
  winv (plus_live cnt sid) w -> after cnt (run_finally sid r w).
Proof.
  intros H. unfold run_finally. prims.
  apply after_dead; [reflexivity|]. by apply winv_finalize.
Qed.

Lemma run_catch_inv cnt sid msg w :
  winv (plus_live cnt sid) w -> after cnt (run_catch sid msg w).
Proof.
  intros H. unfold run_catch. prims. apply run_finally_inv. winv_chain.
Qed.

Lemma senderLoop_aggregate_inv cnt sid results w :
  winv (plus_live cnt sid) w ->
  winv (plus_live cnt sid) (senderLoop_aggregate sid results w).2.
Proof.
  intros H. unfold senderLoop_aggregate.
  destruct (existsb is_token_invalid results); prims; [|winv_chain].
  apply winv_assign_active; [by eapply winv_live_active|done|done].
Qed.

Lemma launch_loops_inv cnt sid i ids w :
  winv cnt w -> winv cnt (launch_loops sid i ids w).2.
Proof.
  revert i w. induction ids as [|c r IH]; intros i w H; [done|].
  simpl. prims.
  specialize (IH (i + 1) (touch sid w) (winv_touch _ _ _ H)).
  by destruct (launch_loops sid (i + 1) r (touch sid w)).
Qed.

Lemma senderLoop_launch_inv cnt a ids names w :
  winv (plus_live cnt (a_sessionId a)) w -> after cnt (senderLoop_launch a ids names w).
Proof.
  intros H. unfold senderLoop_launch. prims.
  match goal with |- context [launch_loops ?s ?i ?l ?w0] =>
    pose proof (launch_loops_inv (plus_live cnt (a_sessionId a)) s i l w0) as HL;
    destruct (launch_loops s i l w0) as [pool w1] end.
  simpl in *. apply (after_live _ a); [reflexivity|]. apply HL. winv_chain.
Qed.

Lemma senderLoop_for_inv cnt a ids i names w :
  winv (plus_live cnt (a_sessionId a)) w -> after cnt (senderLoop_for a ids i names w).
Proof.
  intros H. unfold senderLoop_for. destruct (ids !! i); [|by apply senderLoop_launch_inv].
  prims. destruct (shouldStop (deref (a_sessionId a) w)); [by apply run_finally_inv|].
  prims. by apply (after_live _ a).
Qed.

Lemma fetchChannelName_finish_inv cnt cid cached fetched w :
  winv cnt w -> winv cnt (fetchChannelName_finish cid cached fetched w).2.
Proof.
  intros H. unfold fetchChannelName_finish.
  destruct cached; [done|]. destruct fetched; [|done]. prims. winv_chain.
Qed.

Lemma senderLoop_begin_inv cnt a ids w :
  winv (plus_live cnt (a_sessionId a)) w -> after cnt (senderLoop_begin a ids w).
Proof.
  intros H. unfold senderLoop_begin. prims. apply senderLoop_for_inv.
  apply winv_assign_active; [|done|winv_chain].
  rewrite deref_touch. by eapply winv_live_active.
Qed.

Lemma startSender_launch_inv cnt a ids c w :
  winv (plus_live cnt (a_sessionId a)) w -> after2 cnt (startSender_launch a ids c w).
Proof.
  intros H. unfold startSender_launch. prims.
  destruct (a_isRestore a); prims.
  all: match goal with |- context [senderLoop_begin ?a0 ?l0 ?w0] =>
    assert (after cnt (senderLoop_begin a0 l0 w0)) as HB
      by (apply senderLoop_begin_inv; winv_chain);
    destruct (senderLoop_begin a0 l0 w0) as [run w1] end.
  all: unfold after, after2 in *; simpl in *.
  all: destruct c; simpl; (eapply winv_ext; [|exact HB]); intros s; simpl; lia.
Qed.

Lemma supervisor_afterConfig_inv cnt sid n config w :
  winv cnt w -> after cnt (supervisor_afterConfig sid n config w).
Proof.
  intros H. unfold supervisor_afterConfig. destruct config as [cfg|].
  - destruct (negb (Schema.userWantsActive cfg)).
    + prims. apply after_dead; [reflexivity|]. winv_chain.
    + destruct (JS.falsy (Schema.token cfg) || JS.falsy (Schema.message cfg)
                || JS.falsy (Schema.channelIds cfg)); prims.
      * apply supervisor_iterate_inv. winv_chain.
      * apply startSender_entry_inv. winv_chain.
  - prims. apply after_dead; [reflexivity|]. winv_chain.
Qed.

Lemma run_afterStatus_inv cnt sid r u w :
  winv cnt w -> after cnt (run_afterStatus sid r u w).
Proof.
  intros H. unfold run_afterStatus. destruct r.
  - destruct (negb u); [by apply supervisor_iterate_inv|].
    prims. apply after_dead; [reflexivity|]. winv_chain.
  - by apply after_dead.
Qed.

Lemma run_tokenInvalid_log_inv cnt sid w :
  winv cnt w -> after cnt (run_tokenInvalid_log sid w).
Proof.
  intros H. unfold run_tokenInvalid_log. prims. apply after_dead; [reflexivity|]. winv_chain.
Qed.

Lemma stopSender_entry_inv cnt sid w :
  winv cnt w -> after cnt (stopSender_entry sid w).
Proof.
  intros H. unfold stopSender_entry. prims.
  destruct (isActive (deref sid w)) eqn:Ha; prims.
  - apply after_dead; [reflexivity|].
    apply winv_assign_active; [by wsimpl|done|winv_chain].
  - apply after_dead; [reflexivity|]. winv_chain.
Qed.

Lemma stopAllSenders_scan_inv cnt entries count w :
  winv cnt w -> after cnt (stopAllSenders_scan entries count w).
Proof.
  revert w. induction entries as [|sid rest IH]; intros w H; simpl.
  - by apply after_dead.
  - prims. destruct (isActive (deref sid w)) eqn:Ha; prims; [|by apply IH].
    apply after_dead; [reflexivity|]. by apply winv_assign_active.
Qed.

Lemma restore_one_inv cnt cfg w :
  winv cnt w -> after cnt (restore_one cfg w).
Proof.
  intros H. unfold restore_one. prims. apply startSender_entry_inv. winv_chain.
  apply winv_assign_same; [done|]. winv_chain.
Qed.

(** The channel loops never touch the fields of the invariant. *)
Lemma classify_inv cnt sid chName r w :
  winv cnt w -> winv cnt (sendOneMessage_classify sid chName r w).2.
Proof.
  intros H. destruct r as [status ra|msg]; simpl; [|winv_chain].
  repeat (match goal with |- context [if ?b then _ else _] => destruct b end);
    simpl; winv_chain.
Qed.

Lemma channelLoop_examine_inv cnt sid chName ce result waitSec w :
  winv cnt w -> winv cnt (channelLoop_examine sid chName ce result waitSec w).2.
Proof.
  intros H. unfold channelLoop_examine. prims.
  destruct (shouldStop (deref sid w)); [done|].
  destruct (cooldownMs result =? -401); [done|].
  destruct (sent result); prims.
  - winv_chain. apply winv_assign_same; [done|]. winv_chain.
  - destruct (5 <? JS.ceilSeconds (backoffMs result (ce + 1))); prims; winv_chain.
Qed.

Lemma channelLoop_iterate_inv cnt sid chName ce w :
  winv cnt w -> winv cnt (channelLoop_iterate sid chName ce w).2.
Proof.
  intros H. unfold channelLoop_iterate. prims.
  destruct (shouldStop (deref sid w)); [done|]. prims.
  destruct (shouldStop (deref sid w)); [|simpl; winv_chain].
  apply channelLoop_examine_inv. winv_chain.
Qed.

Lemma channel_step_inv cnt sid chName e pc m w :
  channel_step sid chName e pc = Some m -> winv cnt w -> winv cnt (m w).2.
Proof.
  intros Hm H. destruct pc as [ce ms k|ce|o|], e as [r waitSec| | |]; simpl in Hm;
    try discriminate.
  - destruct (tick_due ms k); [|discriminate]. injection Hm as <-. prims.
    by destruct (shouldStop (deref sid w)).
  - destruct (timer_due ms k); [|discriminate]. injection Hm as <-.
    by apply channelLoop_iterate_inv.
  - by injection Hm as <-.
  - injection Hm as <-. munfold.
    pose proof (classify_inv cnt sid chName r w H) as Hc.
    destruct (sendOneMessage_classify sid chName r w) as [result w1].
    by apply channelLoop_examine_inv.
  - by injection Hm as <-.
Qed.

Lemma pool_step_inv cnt sid chNames pool j e m w :
  pool_step sid chNames pool j e = Some m ->
  winv cnt w ->
  winv cnt (m w).2 /\ forall s, live s (m w).1.2 = 0%nat.
Proof.
  unfold pool_step. intros Hm H.
  destruct (pool !! j) as [c|]; [|discriminate].
  destruct (channel_step sid (default "" (chNames !! j)) e c) as [m0|] eqn:E; [|discriminate].
  injection Hm as <-. munfold.
  pose proof (channel_step_inv cnt _ _ _ _ _ w E H) as H0.
  destruct (m0 w) as [[c' inc] w1]. simpl in *. split; [done|].
  intros s. by destruct inc.
Qed.

(** ** The live tasks of a task list *)

Lemma live_app s ts sp : live s (ts ++ sp) = (live s ts + live s sp)%nat.
Proof. induction ts as [|pc r IH]; simpl; [done|]. rewrite IH. lia. Qed.

Lemma live_lookup s ts i pc :
  ts !! i = Some pc -> live s ts = (live s (delete i ts) + b2n (is_live s pc))%nat.
Proof.
  revert i. induction ts as [|pc0 r IH]; intros [|i] Hi; simpl in *; try done.
  - injection Hi as ->. lia.
  - rewrite (IH i Hi). lia.
Qed.

Lemma live_insert s ts i pc pc' :
  ts !! i = Some pc ->
  live s (<[i := pc']> ts) = (live s (delete i ts) + b2n (is_live s pc'))%nat.
Proof.
  revert i. induction ts as [|pc0 r IH]; intros [|i] Hi; simpl in *; try done.
  - lia.
  - rewrite (IH i Hi). lia.
Qed.

(** ** Every block of every task keeps the invariant *)

Lemma bind_nil_inv cnt (m : M Pc) w :
  after cnt (m w) -> after2 cnt ((pc ← m; mret (pc, [])) w).
Proof.
  munfold. intros H. destruct (m w) as [pc w1]. by apply after2_nil.
Qed.

Lemma winv_dead_in cnt pc w :
  (forall s, is_live s pc = false) ->
  winv (fun s => (cnt s + b2n (is_live s pc))%nat) w -> winv cnt w.
Proof. intros Hd. apply winv_ext. intros s. rewrite Hd. simpl. lia. Qed.

Lemma is_live_storage s call existing call' existing' k :
  is_live s (PStorage call existing k) = is_live s (PStorage call' existing' k).
Proof. by destruct k. Qed.

Lemma resume_inv cnt k config call existing w :
  winv (fun s => (cnt s + b2n (is_live s (PStorage call existing k)))%nat) w ->
  after2 cnt (resume k config w).
Proof.
  intros H. destruct k; simpl resume.
  - apply after2_nil. apply (after_live _ a); [reflexivity|exact H].
  - apply after2_nil. apply (after_live _ a); [reflexivity|exact H].
  - apply startSender_launch_inv. exact H.
  - apply bind_nil_inv, run_afterStatus_inv. revert H. by apply winv_dead_in.
  - apply bind_nil_inv, run_tokenInvalid_log_inv. revert H. by apply winv_dead_in.
  - apply bind_nil_inv, supervisor_afterConfig_inv. revert H. by apply winv_dead_in.
  - apply after2_nil, after_dead; [reflexivity|]. revert H. by apply winv_dead_in.
  - apply bind_nil_inv, stopAllSenders_scan_inv. revert H. by apply winv_dead_in.
  - apply after2_nil, after_dead; [reflexivity|]. revert H. by apply winv_dead_in.
Qed.

Lemma storage_step_inv cnt call existing k newId w :
  winv (fun s => (cnt s + b2n (is_live s (PStorage call existing k)))%nat) w ->
  after2 cnt (storage_step call existing k newId w).
Proof.
  intros H. unfold storage_step. destruct existing as [e|]; prims.
  - apply (resume_inv cnt k _ call (Some e)). unfold storage_write. prims.
    apply winv_stored. exact H.
  - destruct (needs_write call (Storage.getConfig (call_sid call) (configs w))).
    + apply after2_nil. unfold after. simpl.
      eapply winv_ext; [|exact H]. intros s. simpl. reflexivity.
    + apply (resume_inv cnt k _ call None). exact H.
Qed.

Lemma task_step_inv cnt e pc m w :
  task_step e pc = Some m ->
  winv (fun s => (cnt s + b2n (is_live s pc))%nat) w ->
  after2 cnt (m w).
Proof.
  intros Hm H.
  destruct pc as [a c waited|call existing k|a ids i names cached|a chNames pool
                  |sid chNames pool|sid n ms k|r];
    destruct e as [| |newId|fetched|j ce| |msg]; simpl in Hm; try discriminate.
  - injection Hm as <-. apply bind_nil_inv, startSender_wake_inv.
    revert H. by apply winv_dead_in.
  - injection Hm as <-. by apply storage_step_inv.
  - injection Hm as <-. munfold.
    pose proof (fetchChannelName_finish_inv _ (default "" (ids !! i)) cached fetched w H) as Hf.
    destruct (fetchChannelName_finish (default "" (ids !! i)) cached fetched w) as [nm w1].
    apply (bind_nil_inv cnt (senderLoop_for a ids (S i) (names ++ [nm])%list)).
    by apply senderLoop_for_inv.
  - injection Hm as <-. by apply bind_nil_inv, run_catch_inv.
  - destruct (pool_step (a_sessionId a) chNames pool j ce) as [m0|] eqn:E; [|discriminate].
    injection Hm as <-. munfold.
    destruct (pool_step_inv _ _ _ _ _ _ _ w E H) as [H1 H2].
    destruct (m0 w) as [[pool' sp] w1]. simpl in *.
    unfold after2. simpl. eapply winv_ext; [|exact H1].
    intros s. simpl. rewrite H2. lia.
  - destruct (all_settled pool) as [results|]; [|discriminate].
    injection Hm as <-. munfold.
    pose proof (senderLoop_aggregate_inv cnt (a_sessionId a) results w H) as Ha.
    destruct (senderLoop_aggregate (a_sessionId a) results w) as [r w1].
    apply (bind_nil_inv cnt (run_finally (a_sessionId a) r)).
    by apply run_finally_inv.
  - destruct (existsb is_failed pool); [|discriminate].
    injection Hm as <-. munfold.
    pose proof (run_catch_inv cnt (a_sessionId a) msg w H) as Hc.
    destruct (run_catch (a_sessionId a) msg w) as [pc' w1].
    unfold after, after2 in *. simpl in *.
    eapply winv_ext; [|exact Hc]. intros s. simpl. lia.
  - destruct (pool_step sid chNames pool j ce) as [m0|] eqn:E; [|discriminate].
    injection Hm as <-. munfold.
    apply winv_dead_in in H; [|done].
    destruct (pool_step_inv _ _ _ _ _ _ _ w E H) as [H1 H2].
    destruct (m0 w) as [[pool' sp] w1]. simpl in *.
    unfold after2. simpl. eapply winv_ext; [|exact H1].
    intros s. simpl. rewrite H2. lia.
  - destruct (timer_due ms k); [|discriminate]. injection Hm as <-.
    apply after2_nil, after_dead; [reflexivity|]. revert H. by apply winv_dead_in.
  - destruct (tick_due ms k); [|discriminate]. injection Hm as <-. prims.
    apply winv_dead_in in H; [|done].
    apply after2_nil, after_dead; [|done].
    intros s. by destruct (shouldStop (deref sid w)).
Qed.

Lemma spawn_inv (m : M Pc) st :
  (forall cnt w, winv cnt w -> after cnt (m w)) -> Inv st -> Inv (spawn m st).
Proof.
  intros Hm H. destruct st as [w ts]. unfold Inv, spawn in *. simpl in *.
  specialize (Hm _ _ H). destruct (m w) as [pc w1]. unfold after in Hm. simpl in *.
  eapply winv_ext; [|exact Hm]. intros s. simpl. rewrite live_app. simpl. lia.
Qed.

(** Every move of the system keeps the invariant. *)
Lemma step_inv l st st' : Inv st -> step l st = Some st' -> Inv st'.
Proof.
  intros H Hs. destruct l as [a|sid| |sid|cfg|f|t|i e]; simpl in Hs.
  - injection Hs as <-. apply spawn_inv; [|done]. intros. by apply startSender_entry_inv.
  - injection Hs as <-. apply spawn_inv; [|done]. intros. by apply stopSender_entry_inv.
  - injection Hs as <-. apply spawn_inv; [|done]. intros cnt w Hw.
    unfold stopAllSenders_entry. by apply stopAllSenders_scan_inv.
  - injection Hs as <-. unfold Inv in *. simpl. by apply winv_touch.
  - destruct (restorable cfg); [|discriminate]. injection Hs as <-.
    apply spawn_inv; [|done]. intros. by apply restore_one_inv.
  - injection Hs as <-. unfold Inv in *. simpl. by apply winv_stored.
  - injection Hs as <-. unfold Inv in *. simpl. by apply winv_at_time.
  - destruct st as [w ts]. simpl in *.
    destruct (ts !! i) as [pc|] eqn:Hi; [|discriminate].
    destruct (task_step e pc) as [m|] eqn:Hm; [|discriminate].
    pose proof (task_step_inv (fun s => live s (delete i ts)) e pc m w Hm) as Ht.
    destruct (m w) as [[pc' sp] w1]. injection Hs as <-.
    unfold Inv, after2 in *. simpl in *.
    eapply winv_ext; [|apply Ht].
    + intros s. simpl. by rewrite live_app, (live_insert _ _ _ _ _ Hi).
    + eapply winv_ext; [|exact H]. intros s. simpl. by apply live_lookup.
Qed.

Lemma Inv_initial : Inv initial.
Proof.
  split; [|constructor]. intros sid. unfold good. simpl. done.
Qed.

Lemma exec_inv ls : forall st st', Inv st -> exec ls st = Some st' -> Inv st'.
Proof.
  induction ls as [|l ls IH]; intros st st' H He; simpl in He.
  - by injection He as <-.
  - destruct (step l st) as [st1|] eqn:E; [|discriminate].
    eapply IH; [|exact He]. by eapply step_inv.
Qed.

Lemma reachable_inv st : reachable st -> Inv st.
Proof. intros [ls Hls]. eapply exec_inv; [apply Inv_initial|exact Hls]. Qed.

(** C3.  An inactive session has no active threads and no start time
    wherever its status can be observed.  A freshly created record
    satisfies this; the invariant [Inv], which implies it, holds at the
    start and is kept by every move of the system (every call, every
    block of every task, the [finally] block of a run among them); hence in
    every reachable state the value of [getStatus] for any session, every
    entry of [getAllStatuses], and every status that [emitLog] has
    broadcast on the way satisfy it. *)
Theorem C3_idle_invariant :
  (forall sid, idle_ok (status_of (freshSession sid)))
  /\ Inv initial
  /\ (forall l st st', Inv st -> step l st = Some st' -> Inv st')
  /\ (forall st,
        reachable st ->
        (forall sid, idle_ok (getStatus sid (world st)).1)
        /\ (forall sid status,
              getAllStatuses (world st) !! sid = Some status -> idle_ok status)
        /\ Forall (fun b => idle_ok b.2) (broadcasts (world st))).
Proof.
  split_and!.
  - intros sid _. done.
  - apply Inv_initial.
  - intros l st st'. apply step_inv.
  - intros st Hr. apply reachable_inv in Hr as [Hg Hb]. split_and!.
    + intros sid. unfold getStatus. prims. eapply good_idle_ok, Hg.
    + intros sid status. unfold getAllStatuses. rewrite lookup_fmap.
      destruct (sessions (world st) !! sid) as [s|] eqn:Hs; [|done].
      intros [= <-]. specialize (Hg sid). unfold deref in Hg. rewrite Hs in Hg.
      eapply good_idle_ok, Hg.
    + exact Hb.
Qed.

Lemma C3_idle_invariant_witness :
  idle_ok (getStatus "s1" (world sample_both_unauthorized_state)).1
  /\ Forall (fun b => idle_ok b.2) (broadcasts (world sample_both_unauthorized_state)).
Proof.
  destruct C3_idle_invariant as (_ & _ & _ & H).
  destruct (H sample_both_unauthorized_state) as (H1 & _ & H3).
  - exists sample_both_unauthorized. vm_compute. reflexivity.
  - split; [apply H1|exact H3].
Defined.

(** ** [stopSender] while the restart loop sleeps *)

Lemma startSender_entry_idle a c w :
  isActive (deref (a_sessionId a) w) = false ->
  parseChannelIds (a_channelIdsStr a) <> [] ->
  JS.falsy (a_token a) = false ->
  JS.falsy (a_message a) = false ->
  let sid := a_sessionId a in
  startSender_entry a c w
  = (PStorage (CallUpdateConfigStatus sid true) None
              (KStartAfterStatus a (parseChannelIds (a_channelIdsStr a)) c),
     assign sid (with_startTime (Some (clock (touch sid w))))
       (assign sid (with_shouldStop false) (assign sid (with_isActive true) (touch sid w)))).
Proof.
  intros Hi Hp Ht Hm. cbv zeta. unfold startSender_entry. prims. rewrite Hi. simpl.
  unfold startSender_validate. prims. autorewrite with deref.
  rewrite Hi, Ht, Hm. by destruct (parseChannelIds (a_channelIdsStr a)).
Qed.

(** C10.  In a reachable state, [stopSender] on a session that is not
    active returns [success: false], leaves the cancellation flag clear
    and the stored configurations (the intent flag with them) as they
    were.  A restart loop of that session that is sleeping is therefore not
    interrupted: its next interval callback finds the flag clear and the
    sleep goes on, its timer leads to the re-read of the configuration,
    and with the intent flag still true and a complete configuration the
    loop calls [startSender], which marks the session active again. *)
Theorem C10_stop_while_idle :
  forall st sid,
    reachable st ->
    isActive (deref sid (world st)) = false ->
    let w1 := touch sid (world st) in
    let st1 := mkState w1 (tasks st ++ [PDone (StopResult false)])%list in
    step (Call_stopSender sid) st = Some st1
    /\ shouldStop (deref sid w1) = false
    /\ configs w1 = configs (world st)
    /\ (forall i n ms k,
          tasks st !! i = Some (PSupSleep sid n ms k) ->
          (tick_due ms k = true ->
             step (Resume i EvTick) st1
             = Some (mkState w1 (<[i := PSupSleep sid n ms (k + 1)]> (tasks st)
                                 ++ [PDone (StopResult false)])%list))
          /\ (timer_due ms k = true ->
                step (Resume i EvTimer) st1
                = Some (mkState w1 (<[i := PStorage (CallGetConfig sid) None
                                                    (KSupervisor sid n)]> (tasks st)
                                    ++ [PDone (StopResult false)])%list)))
    /\ (forall n cfg newId,
          Storage.getConfig sid (configs (world st)) = Some cfg ->
          Schema.userWantsActive cfg = true ->
          complete cfg = true ->
          parseChannelIds (Schema.channelIds cfg) <> [] ->
          exists w2,
            storage_step (CallGetConfig sid) None (KSupervisor sid n) newId w1
            = (PStorage (CallUpdateConfigStatus sid true) None
                        (KStartAfterStatus (restart_args sid cfg)
                           (parseChannelIds (Schema.channelIds cfg)) (BySupervisor n)),
               [], w2)
            /\ isActive (deref sid w2) = true).
Proof.
  intros [w ts] sid Hr Hidle w1 st1. simpl in *.
  apply reachable_inv in Hr as [Hg _]. specialize (Hg sid). simpl in Hg.
  unfold good in Hg. rewrite Hidle in Hg. destruct Hg as (_ & _ & _ & Hflag).
  assert (shouldStop (deref sid w1) = false) as Hflag1
      by (unfold w1; by rewrite deref_touch).
  split_and!.
  - unfold spawn, stopSender_entry. prims. by rewrite Hidle.
  - exact Hflag1.
  - apply configs_touch.
  - intros i n ms k Hi.
    assert ((ts ++ [PDone (StopResult false)])%list !! i = Some (PSupSleep sid n ms k)) as Hi1
        by (by apply lookup_app_l_Some).
    pose proof (lookup_lt_Some _ _ _ Hi) as Hlt.
    split; intros Hdue.
    + unfold st1. simpl. rewrite Hi1. simpl. rewrite Hdue. prims. rewrite Hflag1.
      by rewrite app_nil_r, insert_app_l.
    + unfold st1. simpl. rewrite Hi1. simpl. rewrite Hdue. prims.
      by rewrite app_nil_r, insert_app_l.
  - intros n cfg newId Hcfg Hint Hc Hp.
    unfold storage_step. prims. unfold w1. rewrite configs_touch, Hcfg. simpl.
    prims. unfold supervisor_afterConfig. rewrite Hint. simpl.
    unfold complete in Hc. apply negb_true_iff in Hc. rewrite Hc.
    apply orb_false_iff in Hc as [Hc Hch]. apply orb_false_iff in Hc as [Ht Hm].
    prims.
    rewrite (startSender_entry_idle (restart_args sid cfg) (BySupervisor n));
      [|by wsimpl|done|done|done].
    simpl. eexists. split; [reflexivity|].
    rewrite deref_assign_eq. simpl. rewrite deref_assign_eq. simpl.
    rewrite deref_assign_eq. reflexivity.
Qed.

Lemma C10_stop_while_idle_witness :
  let st := sample_crash_state in
  let st1 := mkState (touch "s1" (world st)) (tasks st ++ [PDone (StopResult false)])%list in
  tasks st !! 0%nat = Some (PSupSleep "s1" 1 5000 0)
  /\ step (Call_stopSender "s1") st = Some st1
  /\ step (Resume 0 EvTick) st1
     = Some (mkState (touch "s1" (world st))
               (<[0%nat := PSupSleep "s1" 1 5000 (0 + 1)]> (tasks st)
                ++ [PDone (StopResult false)])%list).
Proof.
  intros st st1.
  assert (tasks st !! 0%nat = Some (PSupSleep "s1" 1 5000 0)) as H0
      by (vm_compute; reflexivity).
  destruct (C10_stop_while_idle st "s1") as (H1 & _ & _ & H2 & _).
  - exists sample_crash. vm_compute. reflexivity.
  - vm_compute. reflexivity.
  - split_and!; [exact H0|exact H1|].
    destruct (H2 0%nat 1 5000 0 H0) as [Htick _]. apply Htick. reflexivity.
Defined.

(** ** The two totals *)

(** The claim of C5 as the specification words it fails twice.  After
    the two deliveries of the sample session, whose two calls of
    [incrementSent] both read the row before either writes it, the stored
    total is 1.  And when the request of a loop succeeds after the session
    was cancelled, the loop drops the result: one delivery, and the
    in-memory total is still 0. *)
Lemma C5_counterexample :
  (deliveries "s1" sample_race initial = 2
   /\ (exec sample_race initial ≫= stored_total "s1") = Some 1)
  /\ (deliveries "s1" sample_delivered_after_stop initial = 1
      /\ (memory_total "s1" <$> exec sample_delivered_after_stop initial) = Some 0).
Proof. split_and!; vm_compute; reflexivity. Qed.

(** Run one after the other, the two calls of [incrementSent] leave 2. *)
Example stored_total_without_race :
  (memory_total "s1" <$> exec sample_no_race initial) = Some 2
  /\ (exec sample_no_race initial ≫= stored_total "s1") = Some 2.
Proof. split; vm_compute; reflexivity. Qed.

(** *** What the blocks do to the in-memory totals *)

Lemma st_refl w : same_totals w w.
Proof. by intros sid. Qed.

Lemma st_touch w0 sid w : same_totals w0 w -> same_totals w0 (touch sid w).
Proof. intros H s. by rewrite deref_touch. Qed.

Lemma st_observed w0 sid w : same_totals w0 w -> same_totals w0 (observed sid w).
Proof. done. Qed.

Lemma st_logged w0 l w : same_totals w0 w -> same_totals w0 (logged l w).
Proof. done. Qed.

Lemma st_stored w0 f w : same_totals w0 w -> same_totals w0 (stored f w).
Proof. done. Qed.

Lemma st_named w0 c n w : same_totals w0 w -> same_totals w0 (named c n w).
Proof. done. Qed.

Lemma st_at_time w0 t w : same_totals w0 w -> same_totals w0 (at_time t w).
Proof. done. Qed.

Lemma st_assign w0 sid f w :
  (forall s, totalSent (f s) = totalSent s) ->
  same_totals w0 w -> same_totals w0 (assign sid f w).
Proof.
  intros Hf H s. destruct (decide (sid = s)) as [->|Hne].
  - by rewrite deref_assign_eq, Hf.
  - by rewrite deref_assign_ne.
Qed.

Ltac st_chain :=
  repeat first
    [ assumption
    | apply st_refl
    | apply st_touch
    | apply st_observed
    | apply st_logged
    | apply st_stored
    | apply st_named
    | apply st_at_time
    | apply st_assign; [reflexivity|] ].

Lemma supervisor_iterate_st w0 sid n w :
  same_totals w0 w -> same_totals w0 (supervisor_iterate sid n w).2.
Proof.
  intros H. rewrite supervisor_iterate_unfold. cbv zeta. unfold emit, emitLog. simpl.
  st_chain.
Qed.

Lemma startSender_return_st w0 sid c success e w :
  same_totals w0 w -> same_totals w0 (startSender_return sid c success e w).2.
Proof.
  intros H. destruct c as [|n|]; simpl; try done.
  destruct success; [done|]. prims. apply supervisor_iterate_st. st_chain.
Qed.

Lemma startSender_validate_st w0 a c w :
  same_totals w0 w -> same_totals w0 (startSender_validate a c w).2.
Proof.
  intros H. unfold startSender_validate. prims.
  destruct (isActive (deref (a_sessionId a) w)); [by apply startSender_return_st|].
  destruct (List.length (parseChannelIds (a_channelIdsStr a)) =? 0)%nat;
    [by apply startSender_return_st|].
  destruct (JS.falsy (a_token a)); [by apply startSender_return_st|].
  destruct (JS.falsy (a_message a)); [by apply startSender_return_st|].
  prims. st_chain.
Qed.

Lemma startSender_entry_st w0 a c w :
  same_totals w0 w -> same_totals w0 (startSender_entry a c w).2.
Proof.
  intros H. unfold startSender_entry. prims.
  destruct (isActive (deref (a_sessionId a) w)), (shouldStop (deref (a_sessionId a) w));
    simpl; try (apply startSender_validate_st; st_chain).
  st_chain.
Qed.

Lemma startSender_wake_st w0 a c waited w :
  same_totals w0 w -> same_totals w0 (startSender_wake a c waited w).2.
Proof.
  intros H. unfold startSender_wake. prims.
  destruct (isActive (deref (a_sessionId a) w) && (waited + 300 <? 5000)); [done|].
  by apply startSender_validate_st.
Qed.

Lemma run_finally_st w0 sid r w :
  same_totals w0 w -> same_totals w0 (run_finally sid r w).2.
Proof. intros H. unfold run_finally. prims. st_chain. Qed.

Lemma run_catch_st w0 sid msg w :
  same_totals w0 w -> same_totals w0 (run_catch sid msg w).2.
Proof. intros H. unfold run_catch, run_finally. prims. st_chain. Qed.

Lemma senderLoop_aggregate_st w0 sid results w :
  same_totals w0 w -> same_totals w0 (senderLoop_aggregate sid results w).2.
Proof.
  intros H. unfold senderLoop_aggregate.
  destruct (existsb is_token_invalid results); prims; st_chain.
Qed.

Lemma launch_loops_st w0 sid i ids w :
  same_totals w0 w -> same_totals w0 (launch_loops sid i ids w).2.
Proof.
  revert i w. induction ids as [|c r IH]; intros i w H; [done|].
  simpl. prims.
  specialize (IH (i + 1) (touch sid w) (st_touch _ _ _ H)).
  by destruct (launch_loops sid (i + 1) r (touch sid w)).
Qed.

Lemma senderLoop_launch_st w0 a ids names w :
  same_totals w0 w -> same_totals w0 (senderLoop_launch a ids names w).2.
Proof.
  intros H. unfold senderLoop_launch. prims.
  match goal with |- context [launch_loops ?s ?i ?l ?w1] =>
    pose proof (launch_loops_st w0 s i l w1) as HL;
    destruct (launch_loops s i l w1) as [pool w2] end.
  simpl in *. apply HL. st_chain.
Qed.

Lemma senderLoop_for_st w0 a ids i names w :
  same_totals w0 w -> same_totals w0 (senderLoop_for a ids i names w).2.
Proof.
  intros H. unfold senderLoop_for. destruct (ids !! i); [|by apply senderLoop_launch_st].
  prims. destruct (shouldStop (deref (a_sessionId a) w)); [|by prims].
  unfold run_finally. prims. st_chain.
Qed.

Lemma fetchChannelName_finish_st w0 cid cached fetched w :
  same_totals w0 w -> same_totals w0 (fetchChannelName_finish cid cached fetched w).2.
Proof.
  intros H. unfold fetchChannelName_finish.
  destruct cached; [done|]. destruct fetched; [|done]. prims. st_chain.
Qed.

Lemma senderLoop_begin_st w0 a ids w :
  same_totals w0 w -> same_totals w0 (senderLoop_begin a ids w).2.
Proof.
  intros H. unfold senderLoop_begin. prims. apply senderLoop_for_st. st_chain.
Qed.

Lemma startSender_launch_st w0 a ids c w :
  same_totals w0 w -> same_totals w0 (startSender_launch a ids c w).2.
Proof.
  intros H. unfold startSender_launch. prims.
  destruct (a_isRestore a); prims.
  all: match goal with |- context [senderLoop_begin ?a0 ?l0 ?w1] =>
    assert (same_totals w0 (senderLoop_begin a0 l0 w1).2) as HB
      by (apply senderLoop_begin_st; st_chain);
    destruct (senderLoop_begin a0 l0 w1) as [run w2] end.
  all: by destruct c.
Qed.

Lemma supervisor_afterConfig_st w0 sid n config w :
  same_totals w0 w -> same_totals w0 (supervisor_afterConfig sid n config w).2.
Proof.
  intros H. unfold supervisor_afterConfig. destruct config as [cfg|].
  - destruct (negb (Schema.userWantsActive cfg)).
    + prims. st_chain.
    + destruct (JS.falsy (Schema.token cfg) || JS.falsy (Schema.message cfg)
                || JS.falsy (Schema.channelIds cfg)); prims.
      * apply supervisor_iterate_st. st_chain.
      * apply startSender_entry_st. st_chain.
  - prims. st_chain.
Qed.

Lemma run_afterStatus_st w0 sid r u w :
  same_totals w0 w -> same_totals w0 (run_afterStatus sid r u w).2.
Proof.
  intros H. unfold run_afterStatus. destruct r; [|done].
  destruct (negb u); [by apply supervisor_iterate_st|]. prims. st_chain.
Qed.

Lemma stopSender_entry_st w0 sid w :
  same_totals w0 w -> same_totals w0 (stopSender_entry sid w).2.
Proof.
  intros H. unfold stopSender_entry. prims.
  destruct (isActive (deref sid w)); prims; st_chain.
Qed.

Lemma stopAllSenders_scan_st w0 entries count w :
  same_totals w0 w -> same_totals w0 (stopAllSenders_scan entries count w).2.
Proof.
  revert w. induction entries as [|sid rest IH]; intros w H; simpl; [done|].
  prims. destruct (isActive (deref sid w)); prims; [st_chain|by apply IH].
Qed.

Lemma classify_st w0 sid chName r w :
  same_totals w0 w -> same_totals w0 (sendOneMessage_classify sid chName r w).2.
Proof.
  intros H. destruct r as [status ra|msg]; simpl; [|st_chain].
  repeat (match goal with |- context [if ?b then _ else _] => destruct b end);
    simpl; st_chain.
Qed.

Lemma classify_sent sid chName r w :
  sent (sendOneMessage_classify sid chName r w).1 = succeeds r
  /\ (succeeds r = true -> cooldownMs (sendOneMessage_classify sid chName r w).1 = 0).
Proof.
  destruct r as [status ra|msg]; simpl; [|done].
  destruct (response_ok status); [done|].
  repeat (match goal with |- context [if ?b then _ else _] => destruct b end); done.
Qed.

(** The only assignment to [totalSent] in [channelLoop]: one more for a
    result with [sent] that is examined while the flag is clear. *)
Lemma channelLoop_examine_total sid chName ce result waitSec w s :
  totalSent (deref s (channelLoop_examine sid chName ce result waitSec w).2)
  = totalSent (deref s w)
    + (if bool_decide (sid = s) && negb (shouldStop (deref sid w))
          && negb (cooldownMs result =? -401) && sent result
       then 1 else 0).
Proof.
  unfold channelLoop_examine. prims.
  destruct (shouldStop (deref sid w)); simpl; [rewrite andb_false_r; simpl; lia|].
  destruct (cooldownMs result =? -401); simpl; [rewrite andb_false_r; simpl; lia|].
  rewrite !andb_true_r.
  destruct (sent result); prims.
  - autorewrite with deref. destruct (decide (sid = s)) as [->|Hne].
    + rewrite bool_decide_eq_true_2 by done. simpl. by rewrite deref_assign_eq.
    + rewrite bool_decide_eq_false_2 by done. simpl. rewrite deref_assign_ne by done. lia.
  - rewrite andb_false_r.
    destruct (5 <? JS.ceilSeconds (backoffMs result (ce + 1))); prims;
      autorewrite with deref; lia.
Qed.

Lemma channelLoop_iterate_st w0 sid chName ce w :
  same_totals w0 w -> same_totals w0 (channelLoop_iterate sid chName ce w).2.
Proof.
  intros H. unfold channelLoop_iterate. prims.
  destruct (shouldStop (deref sid w)); [done|]. prims.
  destruct (shouldStop (deref sid w)); [|simpl; st_chain].
  intros s. rewrite channelLoop_examine_total. simpl. rewrite andb_false_r.
  rewrite Z.add_0_r. revert s. st_chain.
Qed.

Lemma channel_step_total sid chName e c m w s :
  channel_step sid chName e c = Some m ->
  totalSent (deref s (m w).2)
  = totalSent (deref s w)
    + (if bool_decide (sid = s)
          && match e with
             | ChResponse r _ => succeeds r && in_flight c && negb (shouldStop (deref sid w))
             | _ => false
             end
       then 1 else 0).
Proof.
  intros Hm. destruct c as [ce ms k|ce|o|], e as [r waitSec| | |]; simpl in Hm;
    try discriminate.
  - destruct (tick_due ms k); [|discriminate]. injection Hm as <-. prims.
    rewrite andb_false_r. destruct (shouldStop (deref sid w)); simpl; lia.
  - destruct (timer_due ms k); [|discriminate]. injection Hm as <-.
    rewrite andb_false_r, Z.add_0_r.
    by apply (channelLoop_iterate_st w sid chName ce w (st_refl w)).
  - injection Hm as <-. simpl. rewrite andb_false_r. lia.
  - injection Hm as <-. munfold.
    destruct (classify_sent sid chName r w) as [Hs Hc].
    pose proof (fun s' => classify_deref sid chName r s' w) as Hd.
    destruct (sendOneMessage_classify sid chName r w) as [result w1]. simpl in *.
    rewrite channelLoop_examine_total, !Hd, Hs.
    destruct (succeeds r) eqn:Hr; simpl.
    + rewrite (Hc eq_refl). simpl. by rewrite !andb_true_r.
    + by rewrite !andb_false_r.
  - injection Hm as <-. simpl. rewrite andb_false_r. lia.
Qed.

Lemma pool_step_total sid chNames pool j e m w :
  pool_step sid chNames pool j e = Some m ->
  exists c,
    pool !! j = Some c
    /\ forall s,
         totalSent (deref s (m w).2)
         = totalSent (deref s w)
           + (if bool_decide (sid = s)
                 && match e with
                    | ChResponse r _ =>
                        succeeds r && in_flight c && negb (shouldStop (deref sid w))
                    | _ => false
                    end
              then 1 else 0).
Proof.
  unfold pool_step. intros Hm.
  destruct (pool !! j) as [c|]; [|discriminate].
  destruct (channel_step sid (default "" (chNames !! j)) e c) as [m0|] eqn:E; [|discriminate].
  injection Hm as <-. exists c. split; [done|]. intros s. munfold.
  pose proof (channel_step_total _ _ _ _ _ w s E) as H0.
  by destruct (m0 w) as [[c' inc] w1].
Qed.

Lemma resume_st w0 k config w :
  same_totals w0 w -> same_totals w0 (resume k config w).2.
Proof.
  intros H. destruct k; simpl resume; try done.
  - by apply startSender_launch_st.
  - munfold. pose proof (run_afterStatus_st w0 sid loopResult userWantedStop w H).
    by destruct (run_afterStatus sid loopResult userWantedStop w).
  - prims. st_chain.
  - munfold. pose proof (supervisor_afterConfig_st w0 sid retryNum config w H).
    by destruct (supervisor_afterConfig sid retryNum config w).
  - munfold. pose proof (stopAllSenders_scan_st w0 rest (count + 1) w H).
    by destruct (stopAllSenders_scan rest (count + 1) w).
Qed.

Lemma storage_step_st w0 call existing k newId w :
  same_totals w0 w -> same_totals w0 (storage_step call existing k newId w).2.
Proof.
  intros H. unfold storage_step. destruct existing as [e|]; prims.
  - apply resume_st. unfold storage_write. prims. by apply st_stored.
  - destruct (needs_write call (Storage.getConfig (call_sid call) (configs w))); [done|].
    by apply resume_st.
Qed.

Lemma counted_channel st i pc sid' pool j c r waitSec s :
  tasks st !! i = Some pc ->
  ((exists a chNames, pc = PLoops a chNames pool /\ a_sessionId a = sid')
   \/ exists chNames, pc = PDetached sid' chNames pool) ->
  pool !! j = Some c ->
  counted s (Resume i (EvChannel j (ChResponse r waitSec))) st
  = bool_decide (sid' = s)
    && (succeeds r && in_flight c && negb (shouldStop (deref sid' (world st)))).
Proof.
  intros Hi Hpc Hj. unfold counted, delivery. rewrite Hi. simpl.
  assert (pool_of s pc = if bool_decide (sid' = s) then Some pool else None) as ->.
  { destruct Hpc as [(a & chNames & -> & <-)|[chNames ->]]; reflexivity. }
  destruct (decide (sid' = s)) as [->|Hne].
  - rewrite bool_decide_eq_true_2 by done. simpl. by rewrite Hj.
  - by rewrite bool_decide_eq_false_2.
Qed.

(** A block of a task adds one to the in-memory total of a session
    exactly when the move is a counted delivery for that session. *)
Lemma task_step_total st i e pc m s :
  tasks st !! i = Some pc ->
  task_step e pc = Some m ->
  totalSent (deref s (m (world st)).2)
  = totalSent (deref s (world st)) + (if counted s (Resume i e) st then 1 else 0).
Proof.
  intros Hi Hm. destruct st as [w ts]. simpl in *.
  assert (forall w1, same_totals w w1 -> delivery s (Resume i e) (mkState w ts) = false ->
                     totalSent (deref s w1)
                     = totalSent (deref s w)
                       + (if counted s (Resume i e) (mkState w ts) then 1 else 0)) as Hsame.
  { intros w1 H Hd. unfold counted. rewrite Hd. simpl. rewrite H. lia. }
  destruct pc as [a c waited|call existing k|a ids i0 names cached|a chNames pool
                  |sid chNames pool|sid n ms k|r];
    destruct e as [| |newId|fetched|j ce| |msg]; simpl in Hm; try discriminate.
  - injection Hm as <-. apply Hsame; [|done]. munfold.
    pose proof (startSender_wake_st w a c waited w (st_refl w)).
    by destruct (startSender_wake a c waited w).
  - injection Hm as <-. apply Hsame; [|done]. by apply storage_step_st, st_refl.
  - injection Hm as <-. apply Hsame; [|done]. munfold.
    pose proof (fetchChannelName_finish_st w (default "" (ids !! i0)) cached fetched w
                  (st_refl w)) as Hf.
    destruct (fetchChannelName_finish (default "" (ids !! i0)) cached fetched w) as [nm w1].
    pose proof (senderLoop_for_st w a ids (S i0) (names ++ [nm])%list w1 Hf) as Hg.
    by destruct (senderLoop_for a ids (S i0) (names ++ [nm])%list w1).
  - injection Hm as <-. apply Hsame; [|done]. munfold.
    pose proof (run_catch_st w (a_sessionId a) msg w (st_refl w)).
    by destruct (run_catch (a_sessionId a) msg w).
  - destruct (pool_step (a_sessionId a) chNames pool j ce) as [m0|] eqn:E; [|discriminate].
    injection Hm as <-. munfold.
    destruct (pool_step_total _ _ _ _ _ _ w E) as (c & Hj & Ht). specialize (Ht s).
    destruct (m0 w) as [[pool' sp] w1]. simpl in *. rewrite Ht.
    destruct ce as [r waitSec| | |].
    + rewrite (counted_channel (mkState w ts) i _ (a_sessionId a) pool j c r waitSec s Hi);
        [done| |done].
      left. by exists a, chNames.
    + by rewrite andb_false_r.
    + by rewrite andb_false_r.
    + by rewrite andb_false_r.
  - destruct (all_settled pool) as [results|]; [|discriminate].
    injection Hm as <-. apply Hsame; [|done]. munfold.
    pose proof (senderLoop_aggregate_st w (a_sessionId a) results w (st_refl w)) as Ha.
    destruct (senderLoop_aggregate (a_sessionId a) results w) as [r w1].
    pose proof (run_finally_st w (a_sessionId a) r w1 Ha).
    by destruct (run_finally (a_sessionId a) r w1).
  - destruct (existsb is_failed pool); [|discriminate].
    injection Hm as <-. apply Hsame; [|done]. munfold.
    pose proof (run_catch_st w (a_sessionId a) msg w (st_refl w)).
    by destruct (run_catch (a_sessionId a) msg w).
  - destruct (pool_step sid chNames pool j ce) as [m0|] eqn:E; [|discriminate].
    injection Hm as <-. munfold.
    destruct (pool_step_total _ _ _ _ _ _ w E) as (c & Hj & Ht). specialize (Ht s).
    destruct (m0 w) as [[pool' sp] w1]. simpl in *. rewrite Ht.
    destruct ce as [r waitSec| | |].
    + rewrite (counted_channel (mkState w ts) i _ sid pool j c r waitSec s Hi);
        [done| |done].
      right. by exists chNames.
    + by rewrite andb_false_r.
    + by rewrite andb_false_r.
    + by rewrite andb_false_r.
  - destruct (timer_due ms k); [|discriminate]. injection Hm as <-.
    apply Hsame; [apply st_refl|done].
  - destruct (tick_due ms k); [|discriminate]. injection Hm as <-.
    apply Hsame; [|done]. prims. by destruct (shouldStop (deref sid w)).
Qed.

Lemma spawn_st (m : M Pc) st s :
  (forall w, same_totals w (m w).2) ->
  totalSent (deref s (world (spawn m st))) = totalSent (deref s (world st)).
Proof.
  intros Hm. unfold spawn. specialize (Hm (world st) s).
  by destruct (m (world st)).
Qed.

Lemma step_total l st st' s :
  step l st = Some st' ->
  seeds s l = false ->
  memory_total s st' = memory_total s st + (if counted s l st then 1 else 0).
Proof.
  unfold memory_total. intros Hs Hseed.
  destruct l as [a|sid| |sid|cfg|f|t|i e]; simpl in Hs.
  - injection Hs as <-. unfold counted. simpl. rewrite Z.add_0_r.
    apply spawn_st. intros w. apply startSender_entry_st, st_refl.
  - injection Hs as <-. unfold counted. simpl. rewrite Z.add_0_r.
    apply spawn_st. intros w. apply stopSender_entry_st, st_refl.
  - injection Hs as <-. unfold counted. simpl. rewrite Z.add_0_r.
    apply spawn_st. intros w. apply stopAllSenders_scan_st, st_refl.
  - injection Hs as <-. unfold counted. simpl. rewrite deref_touch. lia.
  - destruct (restorable cfg); [|discriminate]. injection Hs as <-.
    unfold counted. simpl. rewrite Z.add_0_r.
    simpl in Hseed. apply bool_decide_eq_false_1 in Hseed.
    unfold spawn, restore_one. prims. 
    pose proof (startSender_entry_st
                  (assign (Schema.sessionId cfg) (with_totalSent (Schema.totalSent cfg))
                          (touch (Schema.sessionId cfg) (world st)))) as He.
    match goal with |- context [startSender_entry ?a ?c ?w1] =>
      specialize (He a c w1); destruct (startSender_entry a c w1) as [pc w2] end.
    simpl in *. rewrite He by st_chain.
    rewrite deref_assign_ne by done. by rewrite deref_touch.
  - injection Hs as <-. unfold counted. wsimpl. lia.
  - injection Hs as <-. unfold counted. wsimpl. lia.
  - destruct (tasks st !! i) as [pc|] eqn:Hi; [|discriminate].
    destruct (task_step e pc) as [m|] eqn:Hm; [|discriminate].
    pose proof (task_step_total st i e pc m s Hi Hm) as Ht.
    destruct (m (world st)) as [[pc' sp] w1]. by injection Hs as <-.
Qed.

Lemma exec_total s ls :
  forall st st',
    exec ls st = Some st' ->
    Forall (fun l => seeds s l = false) ls ->
    memory_total s st' = memory_total s st + counted_deliveries s ls st.
Proof.
  induction ls as [|l ls IH]; intros st st' He Hseed; simpl in *.
  - injection He as <-. lia.
  - inversion Hseed as [|? ? Hl Hls]; subst.
    destruct (step l st) as [st1|] eqn:E; [|discriminate].
    rewrite (IH st1 st' He Hls), (step_total l st st1 s E Hl). lia.
Qed.

Lemma counted_le_deliveries s ls :
  forall st, 0 <= counted_deliveries s ls st <= deliveries s ls st.
Proof.
  induction ls as [|l ls IH]; intros st; simpl; [lia|].
  destruct (step l st) as [st1|]; [|lia]. specialize (IH st1).
  unfold counted. destruct (delivery s l st); simpl; [|lia].
  destruct (negb (shouldStop (deref s (world st)))); lia.
Qed.

(** C5, amended.  Along any execution in which no restore pass re-seeds
    the session, the in-memory total of the session grows by exactly the
    number of counted deliveries: one for every successful response that
    reaches a request in flight of one of its channel loops while the
    cancellation flag is clear, whatever the number of loops and however
    their blocks interleave, and nothing for any other move.  The
    deliveries that are not counted are those examined after
    cancellation. *)
Theorem C5_memory_total_counts_deliveries :
  forall sid ls st st',
    exec ls st = Some st' ->
    Forall (fun l => seeds sid l = false) ls ->
    memory_total sid st' = memory_total sid st + counted_deliveries sid ls st
    /\ 0 <= counted_deliveries sid ls st <= deliveries sid ls st.
Proof.
  intros sid ls st st' He Hseed. split.
  - by apply exec_total.
  - apply counted_le_deliveries.
Qed.

Lemma C5_memory_total_counts_deliveries_witness :
  memory_total "s1" (default initial (exec sample_two_deliveries initial))
  = memory_total "s1" initial + counted_deliveries "s1" sample_two_deliveries initial
  /\ counted_deliveries "s1" sample_two_deliveries initial = 2.
Proof.
  split; [|vm_compute; reflexivity].
  apply (C5_memory_total_counts_deliveries "s1" sample_two_deliveries initial).
  - vm_compute. reflexivity.
  - unfold sample_two_deliveries, sample_launch. repeat constructor.
Defined.

(** * Further properties of the engine *)

(** ** Cancellation seen by a channel loop *)

(** X1.  Once the cancellation flag of a session is set, every wake-up of
    one of its channel loops other than a fault ends the loop with
    [stopped]: the interval callback and the timer of a sleep, and the
    response of a request in flight, whatever it is.  No request is
    started, no delivery is counted, [storage.incrementSent] is not called,
    and no session record or stored configuration changes. *)
Theorem cancelled_loop_stops :
  forall sid chName e c m w,
    shouldStop (deref sid w) = true ->
    e <> ChThrow ->
    channel_step sid chName e c = Some m ->
    (m w).1 = (CDone stopped, false)
    /\ (forall sid', deref sid' (m w).2 = deref sid' w)
    /\ configs (m w).2 = configs w.
Proof.
  intros sid chName e c m w Hstop He Hm.
  destruct c as [ce ms k|ce|o|]; destruct e as [r waitSec| | |]; simpl in Hm;
    try discriminate; try congruence.
  - destruct (tick_due ms k); [|discriminate]. injection Hm as <-.
    prims. rewrite Hstop. simpl. auto.
  - destruct (timer_due ms k); [|discriminate]. injection Hm as <-.
    unfold channelLoop_iterate. prims. rewrite Hstop. simpl. auto.
  - injection Hm as <-. munfold.
    pose proof (fun s' => classify_deref sid chName r s' w) as Hd.
    assert (configs (sendOneMessage_classify sid chName r w).2 = configs w) as Hc.
    { destruct r as [status ra|msg]; simpl; [|by autorewrite with deref].
      repeat (match goal with |- context [if ?b then _ else _] => destruct b end);
        simpl; by autorewrite with deref. }
    destruct (sendOneMessage_classify sid chName r w) as [result w1]. simpl in *.
    unfold channelLoop_examine. prims. rewrite Hd, Hstop. simpl. auto.
Qed.

Lemma cancelled_loop_stops_witness :
  exists m,
    channel_step "s1" "general" (ChResponse (HttpResponse 200 None) 10) (CAwaitSend 0) = Some m
    /\ (m (running_world "s1" true)).1 = (CDone stopped, false).
Proof.
  eexists. split; [reflexivity|].
  apply (cancelled_loop_stops "s1" "general" (ChResponse (HttpResponse 200 None) 10)
           (CAwaitSend 0) _ (running_world "s1" true)); [reflexivity|discriminate|reflexivity].
Defined.

(** ** The end of a run that the user stopped *)




(** ** The launch of the channel loops *)

Lemma touch_touch sid w : touch sid (touch sid w) = touch sid w.
Proof.
  apply touch_present. unfold touch.
  destruct (sessions w !! sid) eqn:E; simpl; [by rewrite E|].
  rewrite lookup_insert_eq. by eexists.
Qed.

Lemma launch_loops_closed sid ids :
  forall i w,
    launch_loops sid i ids w
    = (imap (fun j _ => if shouldStop (deref sid w) then CDone stopped
                        else CSleep 0 ((i + Z.of_nat j) * 2000) 0) ids,
       match ids with [] => w | _ => touch sid w end).
Proof.
  induction ids as [|cid rest IH]; intros i w; [reflexivity|].
  cbn [launch_loops]. prims. rewrite IH. simpl. autorewrite with deref.
  f_equal.
  - f_equal.
    + replace (i + Z.of_nat 0) with i by lia. by destruct (shouldStop (deref sid w)).
    + apply imap_ext. intros j x _. simpl.
      by replace (i + 1 + Z.of_nat j) with (i + Z.of_nat (S j)) by lia.
  - destruct rest; [done|]. apply touch_touch.
Qed.

Lemma parseChannelIds_nonempty str :
  Forall (fun cid => cid <> "") (parseChannelIds str).
Proof.
  apply Forall_forall. intros cid Hin. unfold parseChannelIds in Hin.
  apply list_elem_of_In, filter_In in Hin as [_ Ht]. by destruct cid.
Qed.

Lemma loop_names_length names ids : List.length (loop_names names ids) = List.length ids.
Proof.
  revert names. induction ids as [|cid ids IH]; intros names; [done|].
  destruct names; simpl; by rewrite IH.
Qed.

Lemma loop_names_nonempty names ids :
  Forall (fun cid => cid <> "") ids -> Forall (fun n => n <> "") (loop_names names ids).
Proof.
  revert names. induction ids as [|cid ids IH]; intros names Hids; [constructor|].
  inversion Hids as [|? ? Hc Hr]; subst.
  destruct names as [|n names]; simpl; constructor; auto.
  destruct n; simpl; [done|discriminate].
Qed.

(** X3.  When the names of the parsed destinations are resolved and the
    cancellation flag is clear, [senderLoop] logs the two start-up lines
    and launches one loop per destination: loop [j] begins with a sleep of
    2000 j ms and no error counted, so the first loop sends at once and
    the others follow two seconds apart.  The name each loop logs under is
    never empty: the resolved name, or the identifier when there is none.
    No session record changes. *)
Theorem staggered_launch :
  forall a names w,
    let sid := a_sessionId a in
    let ids := parseChannelIds (a_channelIdsStr a) in
    shouldStop (deref sid w) = false ->
    exists w',
      senderLoop_launch a ids names w
      = (PLoops a (loop_names names ids)
                (imap (fun j _ => CSleep 0 (Z.of_nat j * 2000) 0) ids), w')
      /\ List.length (loop_names names ids) = List.length ids
      /\ Forall (fun n => n <> "") (loop_names names ids)
      /\ (forall sid', deref sid' w' = deref sid' w)
      /\ emitted w'
         = (emitted w ++
            [mkLog sid ("Resolved channels: "
                        +:+ JS.join ", " (List.map (fun n => "#" +:+ n) names)) "info";
             mkLog sid ("Sender active - " +:+ pretty (Z.of_nat (List.length ids))
                        +:+ " channel(s), " +:+ pretty (a_delay a) +:+ "s delay each")
                   "success"])%list.
Proof.
  intros a names w sid ids Hrun. eexists. split_and!.
  - unfold senderLoop_launch. fold sid. prims. rewrite launch_loops_closed.
    simpl. autorewrite with deref. rewrite Hrun. reflexivity.
  - apply loop_names_length.
  - apply loop_names_nonempty, parseChannelIds_nonempty.
  - intros sid'. destruct ids; simpl; by autorewrite with deref.
  - destruct ids; wsimpl; by rewrite <- app_assoc.
Qed.

Lemma staggered_launch_witness :
  exists w',
    senderLoop_launch sample_args ["1"; "2"] ["general"; ""] (running_world "s1" false)
    = (PLoops sample_args ["general"; "2"] [CSleep 0 0 0; CSleep 0 2000 0], w').
Proof.
  destruct (staggered_launch sample_args ["general"; ""] (running_world "s1" false))
    as (w' & H & _); [reflexivity|].
  exists w'. exact H.
Defined.

(** X4.  A stop that arrives before the loops are launched keeps the run
    from ever sending.  With the cancellation flag set, [senderLoop] goes
    straight to the [finally] block, with the result [stopped] and the
    session reset, when it is about to resolve a name: at its start, or
    when the resolution of an earlier name returns.  When the resolution of
    the last name returns it still launches, and every loop is born
    [stopped]. *)
Theorem stop_before_launch :
  forall a ids w,
    let sid := a_sessionId a in
    let fin := PStorage (CallUpdateConfigStatus sid false) None (KFinally sid LStopped true) in
    shouldStop (deref sid w) = true ->
    (ids <> [] ->
       (senderLoop_begin a ids w).1 = fin
       /\ isActive (deref sid (senderLoop_begin a ids w).2) = false)
    /\ (forall i names cached fetched,
          exists m,
            task_step (EvName fetched) (PResolve a ids i names cached) = Some m
            /\ ((S i < List.length ids)%nat ->
                  (m w).1 = (fin, []) /\ isActive (deref sid (m w).2) = false)
            /\ ((List.length ids <= S i)%nat ->
                  exists chNames,
                    (m w).1 = (PLoops a chNames (replicate (List.length ids) (CDone stopped)),
                               []))).
Proof.
  intros a ids w sid fin Hstop. split.
  - intros Hids. destruct ids as [|cid rest]; [done|].
    unfold senderLoop_begin, senderLoop_for. fold sid. prims.
    autorewrite with deref. simpl. rewrite Hstop. unfold run_finally. prims.
    autorewrite with deref. simpl. rewrite Hstop. split; reflexivity.
  - intros i names cached fetched. eexists. split; [reflexivity|].
    munfold.
    assert (forall sid', deref sid' (fetchChannelName_finish (default "" (ids !! i)) cached
                                       fetched w).2 = deref sid' w) as Hd.
    { intros sid'. unfold fetchChannelName_finish.
      destruct cached; [done|]. destruct fetched; [|done]. by prims. }
    destruct (fetchChannelName_finish (default "" (ids !! i)) cached fetched w) as [nm w1].
    simpl in Hd. unfold senderLoop_for. fold sid. split.
    + intros Hlt. destruct (ids !! S i) as [cid|] eqn:E.
      * prims. rewrite Hd, Hstop. unfold run_finally. prims. rewrite Hd, Hstop.
        split; [reflexivity|]. by rewrite !deref_assign_eq.
      * apply lookup_ge_None in E. lia.
    + intros Hge. destruct (ids !! S i) as [cid|] eqn:E.
      * apply lookup_lt_Some in E. lia.
      * unfold senderLoop_launch. fold sid. prims. rewrite launch_loops_closed.
        simpl. autorewrite with deref. rewrite Hd, Hstop. eexists. f_equal. f_equal.
        clear. induction ids as [|c r IH]; [done|].
        simpl. f_equal. exact IH.
Qed.

Lemma stop_before_launch_witness :
  (senderLoop_begin sample_args ["1"; "2"] (running_world "s1" true)).1
  = PStorage (CallUpdateConfigStatus "s1" false) None (KFinally "s1" LStopped true).
Proof.
  destruct (stop_before_launch sample_args ["1"; "2"] (running_world "s1" true)) as [H _];
    [reflexivity|].
  destruct H as [H _]; [discriminate|exact H].
Defined.

(** ** The status of a session *)

(** X5.  [getStatus] never fails on an unknown session: it answers with
    the idle status (inactive, total 0, no thread, no start time) and
    registers an idle record for it, so that [getAllStatuses] lists the
    session from then on.  For a session that has a record it changes
    nothing.  In both cases the answer is the entry that [getAllStatuses]
    holds for the session afterwards, and the entries of the other sessions
    are untouched. *)
Theorem getStatus_registers :
  forall sid w,
    let r := getStatus sid w in
    (sessions w !! sid = None -> r.1 = mkStatus false 0 0 None)
    /\ (is_Some (sessions w !! sid) -> r.2 = w)
    /\ getAllStatuses r.2 !! sid = Some r.1
    /\ (forall sid', sid' <> sid -> getAllStatuses r.2 !! sid' = getAllStatuses w !! sid').
Proof.
  intros sid w r. subst r. unfold getStatus, getAllStatuses. prims.
  unfold deref, touch. split_and!.
  - intros ->. reflexivity.
  - intros [s ->]. reflexivity.
  - destruct (sessions w !! sid) as [s|] eqn:E; simpl.
    + by rewrite lookup_fmap, E.
    + by rewrite lookup_fmap, lookup_insert_eq.
  - intros sid' Hne. destruct (sessions w !! sid) as [s|] eqn:E; simpl; [done|].
    by rewrite !lookup_fmap, lookup_insert_ne.
Qed.

Lemma getStatus_registers_witness :
  (getStatus "s9" emptyWorld).1 = mkStatus false 0 0 None
  /\ getAllStatuses (getStatus "s9" emptyWorld).2 !! "s9" = Some (mkStatus false 0 0 None)
  /\ (getStatus "s1" (running_world "s1" false)).2 = running_world "s1" false.
Proof.
  destruct (getStatus_registers "s9" emptyWorld) as (H1 & _ & H3 & _).
  destruct (getStatus_registers "s1" (running_world "s1" false)) as (_ & H2 & _).
  split_and!.
  - apply H1. reflexivity.
  - rewrite H3. rewrite H1; reflexivity.
  - apply H2. by eexists.
Defined.

(** ** Rate limits and missing permissions *)

(** X6.  While the session is not cancelled, a delivery attempt that is
    answered with status 429 makes the loop wait one second longer than
    the service asks for (6 s when the answer names no wait), and one that
    is answered with status 403 makes it wait 60 s and logs that the
    permission is missing.  Either counts as one more consecutive error,
    nothing is added to the total, and a wait of more than 5 s is
    announced in the log, in whole seconds rounded up. *)
Theorem rate_limit_and_forbidden_waits :
  forall sid chName w k waitSec,
    shouldStop (deref sid w) = false ->
    let after_ r := channel_step sid chName (ChResponse r waitSec) (CAwaitSend k) in
    let waiting n := mkLog sid ("#" +:+ chName +:+ " waiting " +:+ pretty n +:+ "s before retry")
                           "warn" in
    (forall ra, 0 < default 5000 ra + 1000 ->
       exists m, after_ (HttpResponse 429 ra) = Some m
         /\ (m w).1 = (CSleep (k + 1) (default 5000 ra + 1000) 0, false)
         /\ emitted (m w).2
            = (emitted w ++
               if 5 <? JS.ceilSeconds (default 5000 ra + 1000)
               then [waiting (JS.ceilSeconds (default 5000 ra + 1000))] else [])%list
         /\ totalSent (deref sid (m w).2) = totalSent (deref sid w))
    /\ (forall ra,
          exists m, after_ (HttpResponse 403 ra) = Some m
            /\ (m w).1 = (CSleep (k + 1) 60000 0, false)
            /\ emitted (m w).2
               = (emitted w ++
                  [mkLog sid ("No permission for #" +:+ chName +:+ " - will retry later")
                         "warn";
                   waiting 60])%list
            /\ totalSent (deref sid (m w).2) = totalSent (deref sid w)).
Proof.
  intros sid chName w k waitSec Hrun after_ waiting. subst after_ waiting. split.
  - intros ra Hpos. eexists. split; [reflexivity|].
    unfold channelLoop_examine, backoffMs. prims. rewrite Hrun. simpl.
    replace (default 5000 ra + 1000 =? -401) with false
      by (symmetry; apply Z.eqb_neq; lia).
    apply Z.ltb_lt in Hpos. rewrite Hpos.
    destruct (5 <? JS.ceilSeconds (default 5000 ra + 1000)); prims;
      autorewrite with deref; rewrite Hrun; simpl; split_and!;
      try reflexivity; autorewrite with deref; try reflexivity.
    by rewrite app_nil_r.
  - intros ra. eexists. split; [reflexivity|].
    unfold channelLoop_examine, backoffMs. prims. autorewrite with deref.
    rewrite Hrun. simpl. autorewrite with deref. rewrite Hrun. simpl.
    split_and!; try reflexivity; wsimpl; try reflexivity.
    by rewrite <- app_assoc.
Qed.

Lemma rate_limit_and_forbidden_waits_witness :
  exists m,
    channel_step "s1" "general" (ChResponse (HttpResponse 429 (Some 2500)) 0) (CAwaitSend 0)
    = Some m
    /\ (m (running_world "s1" false)).1 = (CSleep (0 + 1) (2500 + 1000) 0, false).
Proof.
  destruct (rate_limit_and_forbidden_waits "s1" "general" (running_world "s1" false) 0 0)
    as [H _]; [reflexivity|].
  destruct (H (Some 2500)) as (m & H1 & H2 & _); [reflexivity|].
  exists m. split; [exact H1|exact H2].
Defined.

(** ** One run per session *)

(** X7.  In every reachable state at most one run of a session is under
    way (a [startSender] that has passed its checks, or the [senderLoop]
    it launched, up to the [finally] block), whatever calls were made and
    however the tasks interleaved.  A session that is not active has no run
    under way and its cancellation flag is clear, so that a stop request
    never outlives the run it was meant for. *)
Theorem one_run_per_session :
  forall st sid,
    reachable st ->
    (live sid (tasks st) <= 1)%nat
    /\ (isActive (deref sid (world st)) = false ->
          live sid (tasks st) = 0%nat /\ shouldStop (deref sid (world st)) = false).
Proof.
  intros st sid Hr. apply reachable_inv in Hr as [Hg _]. specialize (Hg sid).
  unfold good in Hg. destruct (isActive (deref sid (world st))).
  - split; [exact Hg|discriminate].
  - destruct Hg as (H0 & _ & _ & Hs). split; [lia|auto].
Qed.

Lemma one_run_per_session_witness :
  (live "s1" (tasks sample_crash_state) <= 1)%nat.
Proof.
  apply (one_run_per_session sample_crash_state "s1").
  exists sample_crash. vm_compute. reflexivity.
Defined.

(** ** The [configs] table under the storage methods *)

Lemma find_unique_id (t : Storage.Table) c e :
  NoDup (Schema.id <$> t) -> c ∈ t -> e ∈ t -> Schema.id c = Schema.id e -> c = e.
Proof.
  induction t as [|x r IH]; intros Hnd Hc He Hid; [by apply elem_of_nil in Hc|].
  rewrite fmap_cons in Hnd. apply NoDup_cons in Hnd as [Hx Hr].
  apply elem_of_cons in Hc as [->|Hc]; apply elem_of_cons in He as [->|He]; auto.
  - exfalso. apply Hx. rewrite Hid. by apply list_elem_of_fmap_2.
  - exfalso. apply Hx. rewrite <- Hid. by apply list_elem_of_fmap_2.
Qed.

Lemma getConfig_elem sid t e : Storage.getConfig sid t = Some e -> e ∈ t /\ Schema.sessionId e = sid.
Proof.
  unfold Storage.getConfig. intros H. apply find_some in H as [Hin Heq].
  split; [by apply list_elem_of_In|]. by apply String.eqb_eq.
Qed.

(** An update by the primary key of the row of one session leaves the rows
    of the other sessions as they are. *)
Lemma getConfig_update_frame sid sid' t e f :
  NoDup (Schema.id <$> t) ->
  (forall c, Schema.sessionId (f c) = Schema.sessionId c) ->
  Storage.getConfig sid t = Some e ->
  sid' <> sid ->
  Storage.getConfig sid' (Storage.update_where_id (Schema.id e) f t) = Storage.getConfig sid' t.
Proof.
  intros Hnd Hf He Hne. apply getConfig_elem in He as [Hin Hsid].
  assert (forall c, c ∈ t -> Schema.id c = Schema.id e -> Schema.sessionId c = sid) as Hown.
  { intros c Hc Hid. by rewrite (find_unique_id t c e Hnd Hc Hin Hid). }
  clear Hnd Hin. unfold Storage.getConfig, Storage.update_where_id.
  induction t as [|c r IH]; [done|]. simpl.
  destruct (String.eqb (Schema.id c) (Schema.id e)) eqn:Hid.
  - apply String.eqb_eq in Hid.
    rewrite Hf, (Hown c (list_elem_of_here _ _) Hid).
    replace (String.eqb sid sid') with false by (symmetry; by apply String.eqb_neq).
    apply IH. intros c' Hc'. apply Hown. by apply list_elem_of_further.
  - destruct (String.eqb (Schema.sessionId c) sid'); [done|].
    apply IH. intros c' Hc'. apply Hown. by apply list_elem_of_further.
Qed.

Lemma update_where_id_ids rowId f t :
  (forall c, Schema.id (f c) = Schema.id c) ->
  Schema.id <$> Storage.update_where_id rowId f t = Schema.id <$> t.
Proof.
  intros Hf. unfold Storage.update_where_id. induction t as [|c r IH]; [done|].
  simpl. f_equal; [|exact IH].
  by destruct (String.eqb (Schema.id c) rowId).
Qed.

Lemma getConfig_app_None sid t l :
  Storage.getConfig sid t = None ->
  Storage.getConfig sid (t ++ l)%list = Storage.getConfig sid l.
Proof.
  unfold Storage.getConfig. induction t as [|c r IH]; [done|]. simpl.
  by destruct (String.eqb (Schema.sessionId c) sid).
Qed.

Lemma getConfig_app_other sid' t c :
  Schema.sessionId c <> sid' ->
  Storage.getConfig sid' (t ++ [c])%list = Storage.getConfig sid' t.
Proof.
  intros Hne. unfold Storage.getConfig. induction t as [|x r IH]; simpl.
  - by replace (String.eqb (Schema.sessionId c) sid') with false
      by (symmetry; by apply String.eqb_neq).
  - by destruct (String.eqb (Schema.sessionId x) sid').
Qed.

Lemma upsertConfig_found newId sid d t e :
  Storage.getConfig sid t = Some e ->
  Storage.getConfig sid (Storage.upsertConfig newId sid d t) = Some (Storage.set_data d e).
Proof.
  intros He. unfold Storage.upsertConfig, Storage.upsertConfig_write. rewrite He.
  by apply getConfig_update.
Qed.

Lemma upsertConfig_inserted newId sid d t :
  Storage.getConfig sid t = None ->
  Storage.getConfig sid (Storage.upsertConfig newId sid d t)
  = Some (Storage.inserted_row newId sid d).
Proof.
  intros Hn. unfold Storage.upsertConfig, Storage.upsertConfig_write. rewrite Hn.
  rewrite getConfig_app_None by done. unfold Storage.getConfig. simpl.
  by rewrite String.eqb_refl.
Qed.

(** X8.  [upsertConfig], run without interleaving, is an insert-or-update
    by session.  When the session has a row, the fields given overwrite
    those of the row and the others ([id], [sessionId], [isActive],
    [userWantsActive], [totalSent]) are kept, and no row is added.  When it
    has none, one row is appended, with the defaults of the table for what
    is missing or empty.  In both cases the row is what [getConfig] returns
    afterwards.  While the identifiers of the rows are distinct and the new
    identifier is fresh, they stay distinct and the rows of the other
    sessions are not touched. *)
Theorem upsertConfig_round_trip :
  forall newId sid d t,
    let t' := Storage.upsertConfig newId sid d t in
    (forall e, Storage.getConfig sid t = Some e ->
       Storage.getConfig sid t' = Some (Storage.set_data d e)
       /\ List.length t' = List.length t)
    /\ (Storage.getConfig sid t = None ->
          Storage.getConfig sid t' = Some (Storage.inserted_row newId sid d)
          /\ t' = (t ++ [Storage.inserted_row newId sid d])%list)
    /\ (NoDup (Schema.id <$> t) -> newId ∉ (Schema.id <$> t) ->
          NoDup (Schema.id <$> t')
          /\ forall sid', sid' <> sid -> Storage.getConfig sid' t' = Storage.getConfig sid' t).
Proof.
  intros newId sid d t t'. subst t'. split_and!.
  - intros e He. split; [by apply upsertConfig_found|].
    unfold Storage.upsertConfig, Storage.upsertConfig_write. rewrite He.
    unfold Storage.update_where_id. by rewrite length_map.
  - intros Hn. split; [by apply upsertConfig_inserted|].
    unfold Storage.upsertConfig, Storage.upsertConfig_write. by rewrite Hn.
  - unfold Storage.upsertConfig, Storage.upsertConfig_write.
    intros Hnd Hfresh. destruct (Storage.getConfig sid t) as [e|] eqn:He.
    + split; [by rewrite update_where_id_ids|].
      intros sid' Hne. by apply (getConfig_update_frame sid).
    + split.
      * rewrite fmap_app. apply NoDup_app. split_and!; [done| |apply NoDup_singleton].
        intros x Hx Hx'. apply list_elem_of_singleton in Hx'. simpl in Hx'. by subst.
      * intros sid' Hne. by apply getConfig_app_other.
Qed.

Lemma upsertConfig_round_trip_witness :
  Storage.getConfig "s1"
    (Storage.upsertConfig "r2" "s1"
       (Schema.mkPartial None (Some "t2") None None (Some 20)) [sample_row])
  = Some (Schema.mkConfig "r1" "s1" "Default Config" "t2" "hi" "1,2" 20 false false 0)
  /\ Storage.getConfig "s2"
       (Storage.upsertConfig "r2" "s2" (Schema.mkPartial None None None None None) [sample_row])
     = Some (Schema.mkConfig "r2" "s2" "Default Config" "" "" "" 30 false false 0).
Proof.
  split.
  - destruct (upsertConfig_round_trip "r2" "s1"
                (Schema.mkPartial None (Some "t2") None None (Some 20)) [sample_row])
      as (H & _).
    destruct (H sample_row) as [H1 _]; [reflexivity|exact H1].
  - destruct (upsertConfig_round_trip "r2" "s2"
                (Schema.mkPartial None None None None None) [sample_row])
      as (_ & H & _).
    destruct H as [H1 _]; [reflexivity|exact H1].
Defined.

(** X9.  [incrementSent] called [n] times, each call completed before the
    next begins, raises the stored total of the session by exactly [n] and
    changes no other column of its row; on a session without a row it does
    nothing. *)
Theorem incrementSent_adds_up :
  forall n sid t,
    (forall c, Storage.getConfig sid t = Some c ->
       Storage.getConfig sid (Nat.iter n (Storage.incrementSent sid) t)
       = Some (Storage.set_totalSent (Schema.totalSent c + Z.of_nat n) c))
    /\ (Storage.getConfig sid t = None -> Nat.iter n (Storage.incrementSent sid) t = t).
Proof.
  intros n sid t. split.
  - intros c Hc. induction n as [|n IH].
    + simpl. rewrite Hc. f_equal. destruct c. unfold Storage.set_totalSent. simpl.
      f_equal. lia.
    + rewrite Nat.iter_succ. set (t1 := Nat.iter n (Storage.incrementSent sid) t) in *.
      unfold Storage.incrementSent, Storage.incrementSent_write.
      rewrite IH.
      rewrite (getConfig_update sid t1 _ (Storage.set_totalSent _) (fun _ => eq_refl) IH).
      simpl.
      f_equal. unfold Storage.set_totalSent. simpl. f_equal. lia.
  - intros Hn. induction n as [|n IH]; [done|].
    rewrite Nat.iter_succ, IH. unfold Storage.incrementSent, Storage.incrementSent_write.
    by rewrite Hn.
Qed.

Lemma incrementSent_adds_up_witness :
  Schema.totalSent
    <$> Storage.getConfig "s1" (Nat.iter 3 (Storage.incrementSent "s1") [sample_row])
  = Some 3.
Proof.
  destruct (incrementSent_adds_up 3 "s1" [sample_row]) as [H _].
  rewrite (H sample_row); reflexivity.
Defined.


(** ** What a start stores *)

Lemma orString_empty s : Storage.orString (Some s) "" = s.
Proof. by destruct s. Qed.

Lemma channelNames_touch sid w : channelNames (touch sid w) = channelNames w.
Proof. unfold touch. by destruct (sessions w !! sid). Qed.

#[local] Hint Rewrite channelNames_touch : deref.

Lemma startSender_launch_running a ids c w :
  ids <> [] ->
  shouldStop (deref (a_sessionId a) w) = false ->
  let r := startSender_launch a ids c w in
  r.1 = (PResolve a ids 0 [] (JS.truthy (channelNames w !! default "" (ids !! 0%nat))),
         [match c with
          | BySupervisor _ => PDone Finished
          | _ => PDone (StartResult true None)
          end])
  /\ configs r.2 = configs w
  /\ activeThreads (deref (a_sessionId a) r.2) = Z.of_nat (List.length ids)
  /\ isActive (deref (a_sessionId a) r.2) = isActive (deref (a_sessionId a) w).
Proof.
  intros Hids Hrun r. subst r. destruct ids as [|cid rest]; [done|].
  unfold startSender_launch, senderLoop_begin, senderLoop_for.
  change ((cid :: rest) !! 0%nat) with (Some cid).
  set (n := Z.of_nat (List.length (cid :: rest))). clearbody n.
  set (m1 := "Config: " +:+ _). clearbody m1.
  set (m0 := if a_isRestore a then emitLog _ _ _ else _).
  assert (exists msg, m0 = emitLog (a_sessionId a) msg "success") as [msg ->].
  { unfold m0. destruct (a_isRestore a); by eexists. }
  cbv [mbind mret M_bind M_ret emitLog getSession readS modifyS cachedName fst snd default].
  rewrite deref_assign_eq. cbn [shouldStop with_activeThreads].
  autorewrite with deref. rewrite Hrun.
  destruct c; cbv [startSender_return mret M_ret]; split_and!; wsimpl; reflexivity.
Qed.

(** One storage method of a task run on its own: its read, its write when
    it has one, and the block that follows. *)
Lemma settle_write fuel newId call k w pc2 w2 :
  let e := Storage.getConfig (call_sid call) (configs w) in
  let w1 := (storage_write call e newId w).2 in
  needs_write call e = true ->
  resume k e w1 = (pc2, [], w2) ->
  settle (S (S fuel)) newId (PStorage call None k) w = settle fuel newId pc2 w2.
Proof.
  intros e w1 Hw Hk.
  change (settle (S (S fuel)) newId (PStorage call None k) w)
    with ((r ← storage_step call None k newId;
           r' ← settle (S fuel) newId r.1;
           mret (r'.1, (r.2 ++ r'.2)%list)) w).
  unfold storage_step at 1. unfold readConfig. munfold. cbn zeta. fold e. rewrite Hw.
  change (settle (S fuel) newId (PStorage call (Some e) k, []).1)
    with (fun w0 => (r ← storage_step call (Some e) k newId;
                     r' ← settle fuel newId r.1;
                     mret (r'.1, (r.2 ++ r'.2)%list)) w0).
  unfold storage_step. munfold. cbn [fst snd].
  fold w1. destruct (storage_write call e newId w) as [[] w0]. simpl in w1. subst w1.
  rewrite Hk. cbn [fst snd].
  destruct (settle fuel newId pc2 w2) as [[pc' sp'] w3]. reflexivity.
Qed.

Lemma settle_skip fuel newId call k w pc2 w2 :
  let e := Storage.getConfig (call_sid call) (configs w) in
  needs_write call e = false ->
  resume k e w = (pc2, [], w2) ->
  settle (S fuel) newId (PStorage call None k) w = settle fuel newId pc2 w2.
Proof.
  intros e Hw Hk.
  change (settle (S fuel) newId (PStorage call None k) w)
    with ((r ← storage_step call None k newId;
           r' ← settle fuel newId r.1;
           mret (r'.1, (r.2 ++ r'.2)%list)) w).
  unfold storage_step at 1. unfold readConfig. munfold. cbn zeta. fold e. rewrite Hw, Hk.
  cbn [fst snd]. destruct (settle fuel newId pc2 w2) as [[pc' sp'] w3]. reflexivity.
Qed.

Lemma settle_write_last newId call k w :
  let e := Storage.getConfig (call_sid call) (configs w) in
  let r := resume k e (storage_write call e newId w).2 in
  needs_write call e = true ->
  settle 2 newId (PStorage call None k) w = (r.1.1, r.1.2, r.2).
Proof.
  intros e r Hw.
  change (settle 2 newId (PStorage call None k) w)
    with ((r ← storage_step call None k newId;
           r' ← settle 1 newId r.1;
           mret (r'.1, (r.2 ++ r'.2)%list)) w).
  unfold storage_step at 1. unfold readConfig. munfold. cbn zeta. fold e. rewrite Hw.
  change (settle 1 newId (PStorage call (Some e) k, []).1)
    with (fun w0 => (r ← storage_step call (Some e) k newId;
                     r' ← settle 0 newId r.1;
                     mret (r'.1, (r.2 ++ r'.2)%list)) w0).
  unfold storage_step. munfold. cbn [fst snd]. subst r.
  destruct (storage_write call e newId w) as [[] w0]. cbn [snd].
  destruct (resume k e w0) as [[pc sp] w1]. cbn [fst snd settle]. munfold.
  by rewrite app_nil_r.
Qed.

Lemma settle_start newId a ids c w :
  let sid := a_sessionId a in
  let d := Schema.mkPartial None (Some (a_token a)) (Some (a_message a))
                            (Some (a_channelIdsStr a)) (Some (a_delay a)) in
  let w3 := stored (fun t => Storage.upsertConfig newId sid d
                               (Storage.setUserWantsActive sid true
                                  (Storage.updateConfigStatus sid true t))) w in
  settle (match Storage.getConfig sid (configs w) with Some _ => 6 | None => 4 end) newId
    (PStorage (CallUpdateConfigStatus sid true) None (KStartAfterStatus a ids c)) w
  = ((startSender_launch a ids c w3).1.1, (startSender_launch a ids c w3).1.2,
     (startSender_launch a ids c w3).2).
Proof.
  intros sid d w3. subst sid.
  destruct (Storage.getConfig (a_sessionId a) (configs w)) as [e|] eqn:He.
  - pose proof (getConfig_update _ _ e (Storage.set_isActive true) (fun _ => eq_refl) He)
      as H1.
    pose proof (getConfig_update _ _ _ (Storage.set_userWantsActive true)
                  (fun _ => eq_refl) H1) as H2.
    cbn [Storage.set_isActive Schema.id] in H2.
    erewrite settle_write; [|cbn [call_sid]; by rewrite He|reflexivity].
    cbn [call_sid]. rewrite He.
    erewrite settle_write; [|cbn [call_sid]; simpl; by rewrite H1|reflexivity].
    cbn [call_sid]. simpl configs. rewrite H1.
    rewrite settle_write_last by reflexivity.
    cbn [call_sid]. simpl configs.
    cbn [Storage.set_isActive Schema.id]. rewrite H2. cbn [resume].
    match goal with
    | |- ((startSender_launch a ids c ?W).1.1, _, _) = _ =>
        enough (W = w3) as HW by (rewrite HW; reflexivity)
    end.
    subst w3 d. unfold stored, Storage.upsertConfig, Storage.setUserWantsActive,
      Storage.updateConfigStatus. simpl. rewrite He.
    unfold Storage.updateConfigStatus_write. rewrite !H1.
    unfold Storage.setUserWantsActive_write.
    cbn [Storage.set_isActive Schema.id]. rewrite !H2. reflexivity.
  - erewrite settle_skip; [|cbn [call_sid]; by rewrite He|reflexivity].
    erewrite settle_skip; [|cbn [call_sid]; by rewrite He|reflexivity].
    rewrite settle_write_last by reflexivity.
    cbn [call_sid]. rewrite He. cbn [resume].
    match goal with
    | |- ((startSender_launch a ids c ?W).1.1, _, _) = _ =>
        enough (W = w3) as HW by (rewrite HW; reflexivity)
    end.
    subst w3 d. unfold stored, Storage.upsertConfig, Storage.setUserWantsActive,
      Storage.updateConfigStatus. simpl. rewrite He.
    unfold Storage.updateConfigStatus_write. rewrite He.
    unfold Storage.setUserWantsActive_write. rewrite He. reflexivity.
Qed.

(** X10.  What [startSender] leaves in the [configs] table once its three
    storage calls are answered, nothing else running in between.  When the
    session has a row, the row keeps its identifier, name and total, takes
    the token, message, channel list and delay of the call, and has both
    [isActive] and [userWantsActive] set.  When the session has no row,
    the first two calls find nothing to update and the third inserts the
    row with the defaults of the table: [isActive] and [userWantsActive]
    are both false although the run is under way.  Either way the run is
    then resolving the name of its first destination, with [activeThreads]
    the number of parsed destinations. *)
Theorem start_stores :
  forall st i a c newId,
    let sid := a_sessionId a in
    let ids := parseChannelIds (a_channelIdsStr a) in
    tasks st !! i
    = Some (PStorage (CallUpdateConfigStatus sid true) None (KStartAfterStatus a ids c)) ->
    ids <> [] ->
    shouldStop (deref sid (world st)) = false ->
    exists n st' cached,
      exec (replicate n (Resume i (EvDb newId))) st = Some st'
      /\ tasks st' !! i = Some (PResolve a ids 0 [] cached)
      /\ activeThreads (deref sid (world st')) = Z.of_nat (List.length ids)
      /\ (forall e, Storage.getConfig sid (configs (world st)) = Some e ->
            Storage.getConfig sid (configs (world st'))
            = Some (Schema.mkConfig (Schema.id e) (Schema.sessionId e) (Schema.name e)
                      (a_token a) (a_message a) (a_channelIdsStr a) (a_delay a)
                      true true (Schema.totalSent e)))
      /\ (Storage.getConfig sid (configs (world st)) = None ->
            Storage.getConfig sid (configs (world st'))
            = Some (Schema.mkConfig newId sid "Default Config"
                      (a_token a) (a_message a) (a_channelIdsStr a)
                      (Storage.orDelay (Some (a_delay a))) false false 0)).
Proof.
  intros [w ts] i a c newId sid ids Hi Hids Hrun. cbn [world tasks] in *.
  set (d := Schema.mkPartial None (Some (a_token a)) (Some (a_message a))
                             (Some (a_channelIdsStr a)) (Some (a_delay a))).
  set (t3 := Storage.upsertConfig newId sid d
               (Storage.setUserWantsActive sid true
                  (Storage.updateConfigStatus sid true (configs w)))).
  set (w3 := stored (fun t => Storage.upsertConfig newId sid d
                                (Storage.setUserWantsActive sid true
                                   (Storage.updateConfigStatus sid true t))) w).
  destruct (settle_exec (match Storage.getConfig sid (configs w) with Some _ => 6 | None => 4 end)%nat newId
              (mkState w ts) i _ Hi) as [n Hn].
  cbn [world tasks] in Hn. unfold sid in Hn. rewrite (settle_start newId a ids c w) in Hn.
  fold sid in Hn. fold d in Hn. fold w3 in Hn. cbn [fst snd] in Hn.
  destruct (startSender_launch_running a ids c w3 Hids Hrun) as (Hl & Hc & Ht & _).
  rewrite Hl in Hn. cbn [fst snd] in Hn.
  exists n. eexists. eexists. split_and!.
  - exact Hn.
  - cbn [tasks]. by eapply lookup_own_slot.
  - cbn [world]. exact Ht.
  - intros e He. cbn [world]. rewrite Hc. subst w3. cbn [configs stored].
    pose proof (getConfig_update sid _ e (Storage.set_isActive true) (fun _ => eq_refl) He)
      as H1.
    pose proof (getConfig_update sid _ _ (Storage.set_userWantsActive true)
                  (fun _ => eq_refl) H1) as H2.
    cbn [Storage.set_isActive Schema.id] in H2.
    rewrite (upsertConfig_found newId sid d _
               (Storage.set_userWantsActive true (Storage.set_isActive true e))).
    { reflexivity. }
    unfold Storage.setUserWantsActive, Storage.updateConfigStatus,
      Storage.setUserWantsActive_write, Storage.updateConfigStatus_write.
    rewrite He, H1. exact H2.
  - intros He. cbn [world]. rewrite Hc. subst w3. cbn [configs stored].
    assert (Storage.setUserWantsActive sid true
              (Storage.updateConfigStatus sid true (configs w)) = configs w) as Hsame.
    { unfold Storage.setUserWantsActive, Storage.updateConfigStatus,
        Storage.setUserWantsActive_write, Storage.updateConfigStatus_write.
      rewrite He. simpl. by rewrite He. }
    rewrite Hsame in *. rewrite (upsertConfig_inserted newId sid d _ He).
    unfold Storage.inserted_row, d. cbn [Schema.p_name Schema.p_token Schema.p_message
      Schema.p_channelIds Schema.p_delay]. by rewrite !orString_empty.
Qed.

Lemma start_stores_witness :
  exists n st' cached,
    exec (replicate n (Resume 0 (EvDb "r2")))
         (mkState emptyWorld
            [PStorage (CallUpdateConfigStatus "s1" true) None
                      (KStartAfterStatus sample_args ["1"; "2"] ByRoute)]) = Some st'
    /\ tasks st' !! 0%nat = Some (PResolve sample_args ["1"; "2"] 0 [] cached)
    /\ Storage.getConfig "s1" (configs (world st'))
       = Some (Schema.mkConfig "r2" "s1" "Default Config" "tok" "hi" "1,2" 10 false false 0).
Proof.
  destruct (start_stores
              (mkState emptyWorld
                 [PStorage (CallUpdateConfigStatus "s1" true) None
                           (KStartAfterStatus sample_args ["1"; "2"] ByRoute)])
              0 sample_args ByRoute "r2")
    as (n & st' & cached & H1 & H2 & _ & _ & H3); [reflexivity|discriminate|reflexivity|].
  exists n, st', cached. split_and!; [exact H1|exact H2|].
  apply H3. reflexivity.
Defined.

(** ** Restoring a session after a restart of the server *)

Lemma clock_touch sid w : clock (touch sid w) = clock w.
Proof. unfold touch. by destruct (sessions w !! sid). Qed.

#[local] Hint Rewrite clock_touch : deref.

(** X11.  [restoreAllSessions], for a stored configuration that passes its
    guard and whose session is idle: the in-memory total of the session is
    overwritten with the stored total and the auto-resume line is logged
    before anything is checked.  The start that follows can then fail on
    one check only, the channel list: when it holds no numeric identifier
    the start returns "No valid channel IDs provided", which the restore
    loop ignores, and the session stays idle; otherwise the session is
    marked active, its cancellation flag cleared and its start time set,
    and the start goes on to its storage calls with [isRestore = true]. *)
Theorem restore_seeds_total :
  forall cfg w,
    let sid := Schema.sessionId cfg in
    let ids := parseChannelIds (Schema.channelIds cfg) in
    let r := restore_one cfg w in
    restorable cfg = true ->
    isActive (deref sid w) = false ->
    totalSent (deref sid r.2) = Schema.totalSent cfg
    /\ emitted r.2
       = (emitted w ++
          [mkLog sid "Previous active session detected - auto-resuming..." "success"])%list
    /\ (ids <> [] ->
          r.1 = PStorage (CallUpdateConfigStatus sid true) None
                         (KStartAfterStatus (restart_args sid cfg) ids ByRestore)
          /\ isActive (deref sid r.2) = true
          /\ shouldStop (deref sid r.2) = false
          /\ startTime (deref sid r.2) = Some (clock w))
    /\ (ids = [] ->
          r.1 = PDone (StartResult false (Some "No valid channel IDs provided"))
          /\ isActive (deref sid r.2) = false).
Proof.
  intros cfg w sid ids r Hok Hidle. subst r.
  unfold restorable in Hok. repeat (apply andb_true_iff in Hok as [Hok ?]).
  repeat match goal with H : negb _ = true |- _ => apply negb_true_iff in H end.
  unfold restore_one, startSender_entry, startSender_validate. fold sid.
  cbn [a_sessionId a_channelIdsStr a_token a_message]. fold ids. prims.
  autorewrite with deref. simpl. rewrite Hidle. simpl.
  autorewrite with deref. simpl. rewrite Hidle.
  destruct ids as [|cid rest] eqn:Hids; simpl.
  - split_and!.
    + wsimpl. reflexivity.
    + wsimpl. reflexivity.
    + done.
    + intros _. split; [reflexivity|]. wsimpl. exact Hidle.
  - match goal with H : JS.falsy (Schema.token cfg) = false |- _ => rewrite H end.
    match goal with H : JS.falsy (Schema.message cfg) = false |- _ => rewrite H end.
    simpl. split_and!.
    + wsimpl. reflexivity.
    + wsimpl. reflexivity.
    + intros _. split_and!; wsimpl; reflexivity.
    + done.
Qed.

Lemma restore_seeds_total_witness :
  totalSent (deref "s1" (restore_one
                           (Schema.mkConfig "r1" "s1" "Default Config" "tok" "hi" "1,2" 10
                                            false true 7) emptyWorld).2) = 7.
Proof.
  apply (restore_seeds_total
           (Schema.mkConfig "r1" "s1" "Default Config" "tok" "hi" "1,2" 10 false true 7)
           emptyWorld); reflexivity.
Defined.

(** ** [stopAllSenders] *)

Lemma settle_done fuel newId r w :
  settle fuel newId (PDone r) w = (PDone r, [], w).
Proof. by destruct fuel. Qed.

Lemma settle_scan newId entries :
  NoDup entries ->
  forall fuel count w,
    (2 * List.length entries <= fuel)%nat ->
    exists w',
      settle fuel newId (stopAllSenders_scan entries count w).1
             (stopAllSenders_scan entries count w).2
      = (PDone (StopAllResult
                  (count + Z.of_nat (List.length
                                       (List.filter (fun sid => isActive (deref sid w))
                                                    entries)))), [], w')
      /\ (forall sid,
            deref sid w'
            = if isActive (deref sid w) && bool_decide (sid ∈ entries)
              then with_shouldStop true (deref sid w) else deref sid w)
      /\ emitted w' = emitted w
      /\ Schema.id <$> configs w' = Schema.id <$> configs w
      /\ (NoDup (Schema.id <$> configs w) ->
          forall sid,
            Storage.getConfig sid (configs w')
            = (if isActive (deref sid w) && bool_decide (sid ∈ entries)
               then Storage.set_userWantsActive false else fun c => c)
                <$> Storage.getConfig sid (configs w)).
Proof.
  induction entries as [|s0 rest IH]; intros Hnd fuel count w Hfuel.
  - exists w. simpl. munfold. rewrite settle_done. split_and!.
    + by rewrite Z.add_0_r.
    + intros sid. by rewrite andb_false_r.
    + reflexivity.
    + reflexivity.
    + intros _ sid. rewrite andb_false_r. by destruct (Storage.getConfig sid (configs w)).
  - apply NoDup_cons in Hnd as [Hs0 Hnd]. specialize (IH Hnd).
    cbn [stopAllSenders_scan]. unfold readS. munfold.
    destruct (isActive (deref s0 w)) eqn:Hact.
    + (* the session is active: flag, then the storage call *)
      unfold modifyS. cbn [fst snd].
      set (w1 := assign s0 (with_shouldStop true) w).
      assert (forall sid, isActive (deref sid w1) = isActive (deref sid w)) as Hsame.
      { intros sid. subst w1. destruct (decide (s0 = sid)) as [->|Hne].
        - by rewrite deref_assign_eq.
        - by rewrite deref_assign_ne. }
      assert (forall w2, (forall sid, deref sid w2 = deref sid w1) ->
                List.filter (fun sid => isActive (deref sid w2)) rest
                = List.filter (fun sid => isActive (deref sid w)) rest) as Hfilter.
      { intros w2 H2. apply filter_ext. intros sid. by rewrite H2, Hsame. }
      assert (forall n : nat, count + 1 + Z.of_nat n = count + Z.of_nat (S n)) as Hcount
          by (intros; lia).
      destruct fuel as [|[|fuel]]; [simpl in Hfuel; lia..|].
      destruct (Storage.getConfig s0 (configs w)) as [e|] eqn:He.
      * (* the session has a row *)
        set (w2 := stored (Storage.update_where_id (Schema.id e)
                             (Storage.set_userWantsActive false)) w1).
        destruct (IH fuel (count + 1) w2) as (w' & Hset & Hd & Hem & Hids & Hcfg).
        { simpl in Hfuel. lia. }
        exists w'. split_and!.
        -- rewrite (settle_write fuel newId _ _ _
                      (stopAllSenders_scan rest (count + 1) w2).1
                      (stopAllSenders_scan rest (count + 1) w2).2).
           ++ rewrite Hset. rewrite (Hfilter w2) by done.
              simpl. rewrite Hact. simpl length. by rewrite Hcount.
           ++ cbn [call_sid]. subst w1. simpl. by rewrite He.
           ++ cbn [call_sid]. simpl configs. rewrite He.
              unfold storage_write, withConfigs.
              cbn [snd Storage.setUserWantsActive_write resume].
              fold w1. munfold.
              change (stored (Storage.setUserWantsActive_write (Some e) false) w1) with w2.
              by destruct (stopAllSenders_scan rest (count + 1) w2).
        -- intros sid. rewrite Hd. subst w2. rewrite deref_stored, Hsame.
           destruct (decide (s0 = sid)) as [<-|Hne].
           ++ rewrite Hact. simpl. rewrite (bool_decide_eq_false_2 _ Hs0).
              rewrite bool_decide_eq_true_2 by apply list_elem_of_here.
              subst w1. by rewrite deref_assign_eq.
           ++ subst w1. rewrite deref_assign_ne by done.
              destruct (isActive (deref sid w)); [|done]. simpl.
              destruct (decide (sid ∈ rest)) as [Hin|Hnin].
              ** rewrite !bool_decide_eq_true_2; [done|by apply list_elem_of_further|done].
              ** rewrite !bool_decide_eq_false_2; [done| |done].
                 intros [->|?]%elem_of_cons; done.
        -- rewrite Hem. reflexivity.
        -- rewrite Hids. subst w2 w1. simpl. by apply update_where_id_ids.
        -- intros Hpk sid. rewrite Hcfg.
           2:{ subst w2 w1. simpl. by rewrite update_where_id_ids. }
           subst w2. rewrite deref_stored, Hsame. simpl configs.
           destruct (decide (s0 = sid)) as [<-|Hne].
           ++ rewrite Hact. simpl. rewrite (bool_decide_eq_false_2 _ Hs0).
              rewrite bool_decide_eq_true_2 by apply list_elem_of_here.
              subst w1. simpl configs.
              rewrite (getConfig_update s0 _ e (Storage.set_userWantsActive false)
                         (fun _ => eq_refl) He), He.
              reflexivity.
           ++ subst w1. simpl configs.
              rewrite (getConfig_update_frame s0 sid _ e (Storage.set_userWantsActive false)
                         Hpk (fun _ => eq_refl) He) by done.
              destruct (isActive (deref sid w)); [|done]. simpl.
              destruct (decide (sid ∈ rest)) as [Hin|Hnin].
              ** rewrite !bool_decide_eq_true_2; [done|by apply list_elem_of_further|done].
              ** rewrite !bool_decide_eq_false_2; [done| |done].
                 intros [->|?]%elem_of_cons; done.
      * (* the session has no row *)
        destruct (IH (S fuel) (count + 1) w1) as (w' & Hset & Hd & Hem & Hids & Hcfg).
        { simpl in Hfuel. lia. }
        exists w'. split_and!.
        -- rewrite (settle_skip (S fuel) newId _ _ _
                      (stopAllSenders_scan rest (count + 1) w1).1
                      (stopAllSenders_scan rest (count + 1) w1).2).
           ++ rewrite Hset. rewrite (Hfilter w1) by done.
              simpl. rewrite Hact. simpl length. by rewrite Hcount.
           ++ cbn [call_sid]. subst w1. simpl. by rewrite He.
           ++ cbn [call_sid]. simpl configs. rewrite He. cbn [resume]. munfold.
              by destruct (stopAllSenders_scan rest (count + 1) w1).
        -- intros sid. rewrite Hd. rewrite Hsame.
           destruct (decide (s0 = sid)) as [<-|Hne].
           ++ rewrite Hact. simpl. rewrite (bool_decide_eq_false_2 _ Hs0).
              rewrite bool_decide_eq_true_2 by apply list_elem_of_here.
              subst w1. by rewrite deref_assign_eq.
           ++ subst w1. rewrite deref_assign_ne by done.
              destruct (isActive (deref sid w)); [|done]. simpl.
              destruct (decide (sid ∈ rest)) as [Hin|Hnin].
              ** rewrite !bool_decide_eq_true_2; [done|by apply list_elem_of_further|done].
              ** rewrite !bool_decide_eq_false_2; [done| |done].
                 intros [->|?]%elem_of_cons; done.
        -- rewrite Hem. reflexivity.
        -- rewrite Hids. reflexivity.
        -- intros Hpk sid. rewrite Hcfg by done. rewrite Hsame. subst w1. simpl configs.
           destruct (decide (s0 = sid)) as [<-|Hne].
           ++ rewrite He. simpl.
              by destruct (isActive (deref s0 w) && bool_decide (s0 ∈ rest)),
                   (isActive (deref s0 w) && bool_decide (s0 ∈ s0 :: rest)).
           ++ destruct (isActive (deref sid w)); [|done]. simpl.
              destruct (decide (sid ∈ rest)) as [Hin|Hnin].
              ** rewrite !bool_decide_eq_true_2; [done|by apply list_elem_of_further|done].
              ** rewrite !bool_decide_eq_false_2; [done| |done].
                 intros [->|?]%elem_of_cons; done.
    + (* the session is not active: next entry *)
      destruct (IH fuel count w) as (w' & Hset & Hd & Hem & Hids & Hcfg).
      { simpl in Hfuel. lia. }
      exists w'. split_and!.
      * rewrite Hset. simpl. by rewrite Hact.
      * intros sid. rewrite Hd. destruct (decide (s0 = sid)) as [<-|Hne].
        -- rewrite Hact. reflexivity.
        -- destruct (isActive (deref sid w)); [|done]. simpl.
           destruct (decide (sid ∈ rest)) as [Hin|Hnin].
           ++ rewrite !bool_decide_eq_true_2; [done|by apply list_elem_of_further|done].
           ++ rewrite !bool_decide_eq_false_2; [done| |done].
              intros [->|?]%elem_of_cons; done.
      * exact Hem.
      * exact Hids.
      * intros Hpk sid. rewrite Hcfg by done. destruct (decide (s0 = sid)) as [<-|Hne].
        -- rewrite Hact. reflexivity.
        -- destruct (isActive (deref sid w)); [|done]. simpl.
           destruct (decide (sid ∈ rest)) as [Hin|Hnin].
           ++ rewrite !bool_decide_eq_true_2; [done|by apply list_elem_of_further|done].
           ++ rewrite !bool_decide_eq_false_2; [done| |done].
              intros [->|?]%elem_of_cons; done.
Qed.

Lemma active_registered sid w :
  isActive (deref sid w) = true -> sid ∈ (map_to_list (sessions w)).*1.
Proof.
  unfold deref. destruct (sessions w !! sid) as [s|] eqn:E; simpl; [|done].
  intros _. apply list_elem_of_fmap. exists (sid, s). split; [done|].
  by apply elem_of_map_to_list.
Qed.

(** X12.  [stopAllSenders], run with nothing else in between: it returns
    the number of registered sessions that are active, sets the
    cancellation flag of exactly those sessions and stores their intent
    flag as false (for those that have a row; the identifiers of the rows
    being distinct).  Sessions that are not active are left alone, no
    session is made inactive by the call itself, and, unlike [stopSender],
    it writes no line to the log. *)
Theorem stopAllSenders_stops_all :
  forall st newId,
    let w := world st in
    let active sid := isActive (deref sid w) in
    exists n st',
      exec (Call_stopAllSenders :: replicate n (Resume (List.length (tasks st)) (EvDb newId))) st
      = Some st'
      /\ tasks st'
         = (tasks st ++
            [PDone (StopAllResult
                      (Z.of_nat (List.length
                                   (List.filter active (map_to_list (sessions w)).*1))))])%list
      /\ (forall sid,
            deref sid (world st')
            = if active sid then with_shouldStop true (deref sid w) else deref sid w)
      /\ emitted (world st') = emitted w
      /\ (NoDup (Schema.id <$> configs w) ->
          forall sid,
            Storage.getConfig sid (configs (world st'))
            = (if active sid then Storage.set_userWantsActive false else fun c => c)
                <$> Storage.getConfig sid (configs w)).
Proof.
  intros [w ts] newId w0 active. subst w0 active. cbn [world tasks].
  set (entries := (map_to_list (sessions w)).*1).
  assert (NoDup entries) as Hnd by apply NoDup_fst_map_to_list.
  destruct (settle_scan newId entries Hnd (2 * List.length entries) 0 w (le_n _))
    as (w' & Hset & Hd & Hem & _ & Hcfg).
  assert (forall sid,
             isActive (deref sid w) && bool_decide (sid ∈ entries) = isActive (deref sid w))
    as Hreg.
  { intros sid. destruct (isActive (deref sid w)) eqn:E; [|done]. simpl.
    apply bool_decide_eq_true_2. by apply active_registered. }
  destruct (stopAllSenders_scan entries 0 w) as [pc0 w1] eqn:Escan. cbn [fst snd] in Hset.
  destruct (settle_exec (2 * List.length entries) newId (mkState w1 (ts ++ [pc0])%list)
              (List.length ts) pc0 (list_lookup_middle ts [] _ _ eq_refl)) as [n Hn].
  cbn [world tasks] in Hn. rewrite Hset in Hn. cbn [fst snd] in Hn.
  rewrite insert_app_r_alt, Nat.sub_diag in Hn by done. simpl in Hn.
  rewrite app_nil_r in Hn.
  exists n. eexists. split_and!.
  - cbn [exec step]. unfold spawn, stopAllSenders_entry. cbn [world tasks].
    fold entries. rewrite Escan. exact Hn.
  - reflexivity.
  - intros sid. cbn [world]. rewrite Hd, Hreg. reflexivity.
  - exact Hem.
  - intros Hpk sid. cbn [world]. rewrite Hcfg, Hreg by done. reflexivity.
Qed.

Lemma stopAllSenders_stops_all_witness :
  exists n st',
    exec (Call_stopAllSenders :: replicate n (Resume 0 (EvDb "r2")))
         (mkState (running_world "s1" false) []) = Some st'
    /\ tasks st' = [PDone (StopAllResult 1)]
    /\ shouldStop (deref "s1" (world st')) = true.
Proof.
  destruct (stopAllSenders_stops_all (mkState (running_world "s1" false) []) "r2")
    as (n & st' & H1 & H2 & H3 & _).
  exists n, st'. split_and!; [exact H1|exact H2|].
  rewrite H3. reflexivity.
Defined.

(** * Properties of the storage layer and of the routes that use it *)

Section StorageProperties.
Import Tables DatabaseStorage Routes.

(** ** Lists of rows *)

Lemma find_app_Some {A} (P : A -> bool) l l' x :
  List.find P l = Some x -> List.find P (l ++ l')%list = Some x.
Proof. induction l as [|y l IH]; simpl; [done|]. by destruct (P y). Qed.

Lemma find_app_None {A} (P : A -> bool) l l' :
  List.find P l = None -> List.find P (l ++ l')%list = List.find P l'.
Proof. induction l as [|y l IH]; simpl; [done|]. by destruct (P y). Qed.

Lemma find_unique {A} (P : A -> bool) l x :
  x ∈ l -> P x = true -> (forall y, y ∈ l -> P y = true -> y = x) -> List.find P l = Some x.
Proof.
  intros Hin HP Hu. induction l as [|y l IH]; [by apply elem_of_nil in Hin|]. simpl.
  destruct (P y) eqn:Hy.
  - f_equal. apply Hu; [apply list_elem_of_here|done].
  - apply IH.
    + apply elem_of_cons in Hin as [->|Hin]; [congruence|done].
    + intros z Hz. apply Hu. by apply list_elem_of_further.
Qed.

Lemma find_None_iff {A} (P : A -> bool) l :
  List.find P l = None <-> forall x, x ∈ l -> P x = false.
Proof.
  induction l as [|y l IH]; simpl.
  - split; [intros _ x Hx; by apply elem_of_nil in Hx|done].
  - destruct (P y) eqn:Hy.
    + split; [done|]. intros H. specialize (H y (list_elem_of_here _ _)). congruence.
    + rewrite IH. split.
      * intros H x [->|Hx]%elem_of_cons; auto.
      * intros H x Hx. apply H. by apply list_elem_of_further.
Qed.

Lemma find_elem {A} (P : A -> bool) l x : List.find P l = Some x -> x ∈ l /\ P x = true.
Proof. intros H. apply find_some in H as [Hin HP]. split; [by apply list_elem_of_In|done]. Qed.

Lemma elem_of_filter_bool {A} (P : A -> bool) l x :
  x ∈ List.filter P l <-> x ∈ l /\ P x = true.
Proof. rewrite !list_elem_of_In. apply filter_In. Qed.

Lemma filter_all {A} (P : A -> bool) l :
  (forall x, x ∈ l -> P x = true) -> List.filter P l = l.
Proof.
  induction l as [|y l IH]; intros H; [done|]. simpl.
  rewrite (H y (list_elem_of_here _ _)). f_equal. apply IH.
  intros x Hx. apply H. by apply list_elem_of_further.
Qed.

Lemma eqb_neq_false s t : s <> t -> String.eqb s t = false.
Proof. apply String.eqb_neq. Qed.

(** ** [deleteConfig] *)

Lemma filter_out_id_length (t : Storage.Table) c :
  NoDup (Schema.id <$> t) -> c ∈ t ->
  (List.length (List.filter (fun x => negb (String.eqb (Schema.id x) (Schema.id c))) t) + 1
   = List.length t)%nat.
Proof.
  induction t as [|x r IH]; intros Hnd Hin; [by apply elem_of_nil in Hin|].
  rewrite fmap_cons in Hnd. apply NoDup_cons in Hnd as [Hx Hr]. simpl.
  destruct (String.eqb (Schema.id x) (Schema.id c)) eqn:E; simpl.
  - apply String.eqb_eq in E. rewrite filter_all; [lia|].
    intros y Hy. apply negb_true_iff, eqb_neq_false. intros Heq. apply Hx.
    rewrite E, <- Heq. by apply list_elem_of_fmap_2.
  - apply elem_of_cons in Hin as [->|Hin]; [by rewrite String.eqb_refl in E|].
    rewrite <- (IH Hr Hin). lia.
Qed.

Lemma getConfig_filter_out sid' (t : Storage.Table) rowId :
  (forall x, x ∈ t -> Schema.id x = rowId -> Schema.sessionId x <> sid') ->
  Storage.getConfig sid' (List.filter (fun x => negb (String.eqb (Schema.id x) rowId)) t)
  = Storage.getConfig sid' t.
Proof.
  unfold Storage.getConfig. induction t as [|x r IH]; intros H; [done|]. simpl.
  assert (forall y, y ∈ r -> Schema.id y = rowId -> Schema.sessionId y <> sid') as Hr
      by (intros y Hy; apply H; by apply list_elem_of_further).
  destruct (String.eqb (Schema.id x) rowId) eqn:E; simpl.
  - apply String.eqb_eq in E.
    rewrite (eqb_neq_false _ _ (H x (list_elem_of_here _ _) E)). by apply IH.
  - destruct (String.eqb (Schema.sessionId x) sid'); [done|]. by apply IH.
Qed.

(** X13.  [deleteConfig] deletes by the primary key of the row that
    [getConfig] finds.  On a session without a row it changes nothing.
    Otherwise, the identifiers of the rows being distinct, exactly that
    row goes, together with every log line written for it; the rows of the
    other sessions, the log lines of the other rows and the other tables
    stay.  When the row was the only one of the session, the session has
    no configuration afterwards. *)
Theorem deleteConfig_removes :
  forall sid d,
    let d' := deleteConfig sid d in
    (Storage.getConfig sid (db_configs d) = None -> d' = d)
    /\ (forall c,
          Storage.getConfig sid (db_configs d) = Some c ->
          NoDup (Schema.id <$> db_configs d) ->
          (forall x, x ∈ db_configs d' <-> x ∈ db_configs d /\ x <> c)
          /\ (List.length (db_configs d') + 1 = List.length (db_configs d))%nat
          /\ (forall sid', sid' <> sid ->
                Storage.getConfig sid' (db_configs d') = Storage.getConfig sid' (db_configs d))
          /\ (forall l, l ∈ db_logs d' <-> l ∈ db_logs d /\ l_configId l <> Schema.id c)
          /\ ((forall x, x ∈ db_configs d -> Schema.sessionId x = sid -> x = c) ->
                Storage.getConfig sid (db_configs d') = None)
          /\ db_siteSettings d' = db_siteSettings d
          /\ db_accessRequests d' = db_accessRequests d
          /\ db_approvedUsers d' = db_approvedUsers d
          /\ db_savedConfigs d' = db_savedConfigs d).
Proof.
  intros sid d d'. subst d'. unfold deleteConfig. split.
  - by intros ->.
  - intros c Hc Hnd. rewrite Hc. simpl.
    pose proof (getConfig_elem _ _ _ Hc) as [Hin Hsid].
    split_and!; try reflexivity.
    + intros x. rewrite elem_of_filter_bool, negb_true_iff, String.eqb_neq. split.
      * intros [Hx Hne]. split; [done|]. by intros ->.
      * intros [Hx Hne]. split; [done|]. intros Heq. apply Hne.
        by apply (find_unique_id (db_configs d)).
    + by apply filter_out_id_length.
    + intros sid' Hne. apply getConfig_filter_out. intros x Hx Hid.
      rewrite (find_unique_id (db_configs d) x c Hnd Hx Hin Hid). congruence.
    + intros l. rewrite elem_of_filter_bool, negb_true_iff, String.eqb_neq. done.
    + intros Hone. unfold Storage.getConfig. apply find_None_iff.
      intros x [Hx Hne]%elem_of_filter_bool.
      apply negb_true_iff, String.eqb_neq in Hne.
      apply eqb_neq_false. intros Hs. apply Hne. by rewrite (Hone x Hx Hs).
Qed.

Lemma deleteConfig_removes_witness :
  Storage.getConfig "s1"
    (db_configs (deleteConfig "s1" (mkDb [sample_row] [mkLogRow "l1" "r1" "hi" "info" 5]
                                         [] [] [] []))) = None.
Proof.
  destruct (deleteConfig_removes "s1" (mkDb [sample_row] [mkLogRow "l1" "r1" "hi" "info" 5]
                                            [] [] [] [])) as [_ H].
  destruct (H sample_row) as (_ & _ & _ & _ & H5 & _); [reflexivity|by apply NoDup_singleton|].
  apply H5. intros x Hx _. by apply list_elem_of_singleton in Hx.
Defined.

(** ** The site lock *)

Lemma getSiteSettings_found d s :
  List.find is_main (db_siteSettings d) = Some s -> getSiteSettings d = (s, d).
Proof. unfold getSiteSettings. by intros ->. Qed.

Lemma getSiteSettings_tables d :
  db_configs (getSiteSettings d).2 = db_configs d
  /\ db_logs (getSiteSettings d).2 = db_logs d
  /\ db_accessRequests (getSiteSettings d).2 = db_accessRequests d
  /\ db_approvedUsers (getSiteSettings d).2 = db_approvedUsers d
  /\ db_savedConfigs (getSiteSettings d).2 = db_savedConfigs d.
Proof.
  unfold getSiteSettings. by destruct (List.find _ (db_siteSettings d)).
Qed.




(** ** Approved users *)

Lemma find_update_first {A} (P : A -> bool) (key : A -> string) (f : A -> A) l e :
  (forall x, P (f x) = P x) ->
  List.find P l = Some e ->
  List.find P (List.map (fun x => if String.eqb (key x) (key e) then f x else x) l)
  = Some (f e).
Proof.
  intros Hf. induction l as [|x r IH]; simpl; [done|].
  destruct (P x) eqn:Hx.
  - intros [= ->]. rewrite String.eqb_refl. simpl. by rewrite Hf, Hx.
  - intros He. destruct (String.eqb (key x) (key e)); simpl.
    + rewrite Hf, Hx. by apply IH.
    + rewrite Hx. by apply IH.
Qed.

Lemma addApprovedUser_found newId now sid name d e :
  getApprovedUser sid d = Some e ->
  getApprovedUser sid (addApprovedUser newId now sid name d).2
  = Some (with_displayName name e).
Proof.
  intros He. unfold addApprovedUser. rewrite He. simpl.
  unfold getApprovedUser in *. simpl.
  by apply (find_update_first _ au_id (with_displayName name)).
Qed.

Lemma addApprovedUser_inserted newId now sid name d :
  getApprovedUser sid d = None ->
  getApprovedUser sid (addApprovedUser newId now sid name d).2
  = Some (mkUser newId sid name now).
Proof.
  intros He. unfold addApprovedUser. rewrite He. simpl.
  unfold getApprovedUser in *. simpl. rewrite find_app_None by done. simpl.
  by rewrite String.eqb_refl.
Qed.

Lemma addApprovedUser_listed newId now sid name d :
  exists u, getApprovedUser sid (addApprovedUser newId now sid name d).2 = Some u
            /\ au_displayName u = name /\ au_sessionId u = sid.
Proof.
  destruct (getApprovedUser sid d) as [e|] eqn:He.
  - eexists. split; [by apply addApprovedUser_found|]. split; [done|]. simpl.
    apply find_elem in He as [_ He]. by apply String.eqb_eq in He.
  - eexists. split; [by apply addApprovedUser_inserted|done].
Qed.

Lemma approved_has_access sid d u :
  getApprovedUser sid d = Some u -> (checkAccess sid d).1 = true.
Proof.
  intros Hu. unfold checkAccess.
  destruct (getSiteSettings_tables d) as (_ & _ & _ & Husers & _).
  destruct (getSiteSettings d) as [s d1]. simpl in *.
  destruct (ss_isLocked s); simpl; [|done].
  unfold getApprovedUser in *. by rewrite Husers, Hu.
Qed.

(** X15.  [addApprovedUser] is an insert-or-update by session: afterwards
    [getApprovedUser] finds a user of that session with the display name
    given, a session that already had a row gets no second one, and the
    session passes [checkAccess] whether the site is locked or not. *)
Theorem addApprovedUser_upserts :
  forall newId now sid name d,
    let r := addApprovedUser newId now sid name d in
    (exists u, getApprovedUser sid r.2 = Some u
               /\ au_displayName u = name /\ au_sessionId u = sid)
    /\ (forall e, getApprovedUser sid d = Some e ->
          getApprovedUser sid r.2 = Some (with_displayName name e)
          /\ List.length (db_approvedUsers r.2) = List.length (db_approvedUsers d))
    /\ (getApprovedUser sid d = None ->
          r.1 = Some (mkUser newId sid name now)
          /\ db_approvedUsers r.2 = (db_approvedUsers d ++ [mkUser newId sid name now])%list)
    /\ (checkAccess sid r.2).1 = true.
Proof.
  intros newId now sid name d r. subst r. split_and!.
  - apply addApprovedUser_listed.
  - intros e He. split; [by apply addApprovedUser_found|].
    unfold addApprovedUser. rewrite He. simpl. by rewrite length_map.
  - intros He. unfold addApprovedUser. by rewrite He.
  - destruct (addApprovedUser_listed newId now sid name d) as (u & Hu & _).
    by eapply approved_has_access.
Qed.

Lemma addApprovedUser_upserts_witness :
  (addApprovedUser "u1" 5 "s1" "Ann" emptyDb).1 = Some (mkUser "u1" "s1" "Ann" 5)
  /\ getApprovedUser "s1"
       (addApprovedUser "u2" 9 "s1" "Bea" (addApprovedUser "u1" 5 "s1" "Ann" emptyDb).2).2
     = Some (mkUser "u1" "s1" "Bea" 5).
Proof.
  split.
  - destruct (addApprovedUser_upserts "u1" 5 "s1" "Ann" emptyDb) as (_ & _ & H & _).
    destruct H as [H _]; [reflexivity|exact H].
  - destruct (addApprovedUser_upserts "u2" 9 "s1" "Bea"
                (addApprovedUser "u1" 5 "s1" "Ann" emptyDb).2) as (_ & H & _).
    destruct (H (mkUser "u1" "s1" "Ann" 5)) as [H1 _]; [reflexivity|exact H1].
Defined.

(** X16.  [removeApprovedUser] cascades.  For an identifier that names no
    approved user it changes nothing.  Otherwise it deletes the
    configuration of the user's session as [deleteConfig] does, the user's
    row, and every access request of that session, whatever its status;
    the rows of other users and the requests of other sessions stay.  When
    the user was the only approved row of the session, the session is no
    longer approved: on a locked site its status is back to "none", and it
    may apply again. *)
Theorem removeApprovedUser_cascades :
  forall id d,
    let d' := removeApprovedUser id d in
    (List.find (fun u => String.eqb (au_id u) id) (db_approvedUsers d) = None -> d' = d)
    /\ (forall u,
          List.find (fun u => String.eqb (au_id u) id) (db_approvedUsers d) = Some u ->
          let sid := au_sessionId u in
          db_configs d' = db_configs (deleteConfig sid d)
          /\ db_logs d' = db_logs (deleteConfig sid d)
          /\ (forall x, x ∈ db_approvedUsers d' <-> x ∈ db_approvedUsers d /\ au_id x <> id)
          /\ (forall r, r ∈ db_accessRequests d'
                        <-> r ∈ db_accessRequests d /\ ar_sessionId r <> sid)
          /\ getAccessRequestBySession sid d' = None
          /\ ((forall x, x ∈ db_approvedUsers d -> au_sessionId x = sid -> au_id x = id) ->
                getApprovedUser sid d' = None
                /\ (ss_isLocked (getSiteSettings d).1 = true ->
                      (get_access_status sid d').1
                      = Json (Access (mkAccess true false "none" None))))).
Proof.
  intros id d d'. subst d'. unfold removeApprovedUser. split; [by intros ->|].
  intros u Hu. rewrite Hu. set (sid := au_sessionId u).
  assert (db_configs (deleteConfig sid d) = db_configs (deleteConfig sid d)
          /\ db_siteSettings (deleteConfig sid d) = db_siteSettings d
          /\ db_accessRequests (deleteConfig sid d) = db_accessRequests d
          /\ db_approvedUsers (deleteConfig sid d) = db_approvedUsers d)
    as (_ & Hss & Har & Hau).
  { unfold deleteConfig. by destruct (Storage.getConfig sid (db_configs d)). }
  assert (getAccessRequestBySession sid
            (on_accessRequests
               (List.filter (fun r => negb (String.eqb (ar_sessionId r) sid)))
               (on_approvedUsers (List.filter (fun u => negb (String.eqb (au_id u) id)))
                  (deleteConfig sid d))) = None) as Hreq.
  { unfold getAccessRequestBySession. simpl. apply find_None_iff.
    intros r [_ Hr]%elem_of_filter_bool. apply negb_true_iff in Hr. by rewrite Hr. }
  split_and!; try reflexivity.
  - intros x. simpl. rewrite elem_of_filter_bool, negb_true_iff, String.eqb_neq, Hau. done.
  - intros r. simpl. rewrite elem_of_filter_bool, negb_true_iff, String.eqb_neq, Har. done.
  - exact Hreq.
  - intros Hone.
    assert (getApprovedUser sid
              (on_accessRequests
                 (List.filter (fun r => negb (String.eqb (ar_sessionId r) sid)))
                 (on_approvedUsers (List.filter (fun u => negb (String.eqb (au_id u) id)))
                    (deleteConfig sid d))) = None) as Hgone.
    { unfold getApprovedUser. simpl. apply find_None_iff.
      intros x [Hx Hne]%elem_of_filter_bool. rewrite Hau in Hx.
      apply negb_true_iff, String.eqb_neq in Hne. apply eqb_neq_false.
      intros Hs. by apply Hne, Hone. }
    split; [exact Hgone|]. intros Hlocked.
    unfold get_access_status.
    match goal with |- context [getSiteSettings ?D] => set (d2 := D) in * end.
    assert (db_siteSettings d2 = db_siteSettings d) as Hss2 by (subst d2; simpl; exact Hss).
    assert (getSiteSettings d2 = ((getSiteSettings d).1, d2)
            \/ (List.find is_main (db_siteSettings d) = None)) as [Hg|Hnone].
    { unfold getSiteSettings. rewrite Hss2.
      destruct (List.find is_main (db_siteSettings d)); [by left|by right]. }
    + rewrite Hg, Hlocked. simpl. by rewrite Hgone, Hreq.
    + unfold getSiteSettings in Hlocked. by rewrite Hnone in Hlocked.
Qed.

Lemma removeApprovedUser_cascades_witness :
  removeApprovedUser "u9" emptyDb = emptyDb
  /\ getApprovedUser "s1"
       (removeApprovedUser "u1" (addApprovedUser "u1" 5 "s1" "Ann" emptyDb).2) = None.
Proof.
  split.
  - destruct (removeApprovedUser_cascades "u9" emptyDb) as [H _]. apply H. reflexivity.
  - destruct (removeApprovedUser_cascades "u1" (addApprovedUser "u1" 5 "s1" "Ann" emptyDb).2)
      as [_ H].
    destruct (H (mkUser "u1" "s1" "Ann" 5)) as (_ & _ & _ & _ & _ & H6); [reflexivity|].
    destruct H6 as [H6 _]; [|exact H6].
    intros x Hx _. apply list_elem_of_singleton in Hx. by subst.
Defined.

(** ** Access control *)

(** X17.  The gate that the handlers use and the status shown to the user
    agree: [checkAccess] grants access exactly when GET /api/access-status
    reports [hasAccess], and both leave the same database.  While the site
    is unlocked everybody has access and the status is "open"; while it is
    locked the status is "approved" (with the display name) for an
    approved session, "pending" for a session with a pending request and
    "none" otherwise, and only the first has access. *)
Theorem access_status_agrees :
  forall sid d,
    exists a,
      get_access_status sid d = (Json (Access a), (checkAccess sid d).2)
      /\ hasAccess a = (checkAccess sid d).1
      /\ locked a = ss_isLocked (getSiteSettings d).1
      /\ (locked a = false -> a = mkAccess false true "open" None)
      /\ (locked a = true ->
            let d1 := (getSiteSettings d).2 in
            a = match getApprovedUser sid d1 with
                | Some u => mkAccess true true "approved" (Some (au_displayName u))
                | None =>
                    match getAccessRequestBySession sid d1 with
                    | Some _ => mkAccess true false "pending" None
                    | None => mkAccess true false "none" None
                    end
                end).
Proof.
  intros sid d. unfold get_access_status, checkAccess.
  destruct (getSiteSettings d) as [s d1]. simpl.
  destruct (ss_isLocked s) eqn:Hl; simpl.
  - destruct (getApprovedUser sid d1) as [u|].
    + eexists. split_and!; try reflexivity. discriminate.
    + destruct (getAccessRequestBySession sid d1);
        eexists; split_and!; try reflexivity; discriminate.
  - eexists. split_and!; try reflexivity. discriminate.
Qed.

Lemma access_status_agrees_witness :
  exists a,
    get_access_status "s1" (setSiteLocked true emptyDb).2
    = (Json (Access a), (checkAccess "s1" (setSiteLocked true emptyDb).2).2)
    /\ a = mkAccess true false "none" None.
Proof.
  destruct (access_status_agrees "s1" (setSiteLocked true emptyDb).2)
    as (a & H1 & _ & H3 & _ & H5).
  exists a. split; [exact H1|]. apply H5. rewrite H3. reflexivity.
Defined.

Lemma missing_trim text : missing text = true -> JS.trim (default "" text) = "".
Proof. destruct text as [[|c r]|]; simpl; done. Qed.

Lemma falsy_true_iff s : JS.falsy s = true <-> s = "".
Proof. by destruct s. Qed.

Lemma post_apply_blank sid text newId now d :
  JS.trim (default "" text) = "" ->
  post_apply sid text newId now d = (Error 400 "Application text is required", d).
Proof.
  intros Ht. unfold post_apply. rewrite Ht. simpl. by rewrite orb_true_r.
Qed.

Lemma post_apply_text sid text newId now d :
  JS.trim (default "" text) <> "" ->
  post_apply sid text newId now d
  = match getAccessRequestBySession sid d with
    | Some _ => (Error 400 "You already have a pending application", d)
    | None =>
        match getApprovedUser sid d with
        | Some _ => (Error 400 "You already have access", d)
        | None =>
            (Json Success,
             (createAccessRequest newId now sid (JS.trim (default "" text)) d).2)
        end
    end.
Proof.
  intros Ht. unfold post_apply.
  destruct (missing text) eqn:Hm; [by apply missing_trim in Hm|]. simpl.
  by destruct (JS.trim (default "" text)).
Qed.

(** X18.  POST /api/apply checks in a fixed order and writes only when
    every check passes: a text that is absent or blank once trimmed is
    refused first, then a session that has a pending request, then a
    session that is approved, each with status 400 and the database
    untouched.  Otherwise one request is appended for the session, with
    the trimmed text and the status "pending"; it is the request that
    [getAccessRequestBySession] finds afterwards, so that a second
    application of the session is refused and adds nothing. *)
Theorem apply_validates :
  forall sid text newId now d,
    let r := post_apply sid text newId now d in
    let t := JS.trim (default "" text) in
    (t = "" -> r = (Error 400 "Application text is required", d))
    /\ (t <> "" -> is_Some (getAccessRequestBySession sid d) ->
          r = (Error 400 "You already have a pending application", d))
    /\ (t <> "" -> getAccessRequestBySession sid d = None ->
          is_Some (getApprovedUser sid d) ->
          r = (Error 400 "You already have access", d))
    /\ (t <> "" -> getAccessRequestBySession sid d = None -> getApprovedUser sid d = None ->
          r.1 = Json Success
          /\ db_accessRequests r.2
             = (db_accessRequests d ++ [mkRequest newId sid t "pending" now])%list
          /\ getAccessRequestBySession sid r.2 = Some (mkRequest newId sid t "pending" now)
          /\ forall text' newId' now',
               exists msg, post_apply sid text' newId' now' r.2 = (Error 400 msg, r.2)).
Proof.
  intros sid text newId now d r t. subst r t. split_and!.
  - apply post_apply_blank.
  - intros Ht [q Hq]. rewrite post_apply_text by done. by rewrite Hq.
  - intros Ht Hq [u Hu]. rewrite post_apply_text by done. by rewrite Hq, Hu.
  - intros Ht Hq Hu. rewrite post_apply_text by done. rewrite Hq, Hu. simpl.
    assert (getAccessRequestBySession sid
              (on_accessRequests
                 (fun t => t ++ [mkRequest newId sid (JS.trim (default "" text))
                                           "pending" now])%list d)
            = Some (mkRequest newId sid (JS.trim (default "" text)) "pending" now)) as Hnew.
    { unfold getAccessRequestBySession in *. simpl. rewrite find_app_None by done.
      simpl. by rewrite String.eqb_refl. }
    split_and!; try done.
    intros text' newId' now'.
    destruct (decide (JS.trim (default "" text') = "")) as [Hb|Hb].
    + eexists. by apply post_apply_blank.
    + eexists. rewrite post_apply_text by done. by rewrite Hnew.
Qed.

Lemma apply_validates_witness :
  (post_apply "s1" (Some "  let me in ") "q1" 3 emptyDb).1 = Json Success
  /\ getAccessRequestBySession "s1" (post_apply "s1" (Some "  let me in ") "q1" 3 emptyDb).2
     = Some (mkRequest "q1" "s1" "let me in" "pending" 3)
  /\ post_apply "s1" (Some "   ") "q1" 3 emptyDb
     = (Error 400 "Application text is required", emptyDb).
Proof.
  destruct (apply_validates "s1" (Some "  let me in ") "q1" 3 emptyDb) as (_ & _ & _ & H).
  destruct (apply_validates "s1" (Some "   ") "q1" 3 emptyDb) as (H0 & _).
  destruct H as (H1 & _ & H3 & _); [discriminate|reflexivity|reflexivity|].
  split_and!; [exact H1|exact H3|apply H0; reflexivity].
Defined.


Lemma elem_of_newest_first {A} (createdAt : A -> Z) l x :
  x ∈ newest_first createdAt l <-> x ∈ l.
Proof. unfold newest_first. by rewrite merge_sort_Permutation. Qed.




(** ** Listings *)

#[local] Instance newer_trans {A} (createdAt : A -> Z) : Transitive (newer createdAt).
Proof. intros a b c. unfold newer. lia. Qed.

#[local] Instance newer_total {A} (createdAt : A -> Z) : Total (newer createdAt).
Proof. intros a b. unfold newer. lia. Qed.

Lemma newest_first_sorted {A} (createdAt : A -> Z) l :
  StronglySorted (newer createdAt) (newest_first createdAt l).
Proof. unfold newest_first. apply StronglySorted_merge_sort; apply _. Qed.

Lemma length_newest_first {A} (createdAt : A -> Z) l :
  List.length (newest_first createdAt l) = List.length l.
Proof. unfold newest_first. by rewrite merge_sort_Permutation. Qed.

(** X20.  [getLogs(configId, limit)] answers with the most recent log
    lines of the configuration: as many as there are, up to [limit] (50
    when no limit is given), newest first, none of another configuration;
    and every line of the configuration that is left out is at most as
    recent as every line that is returned. *)
Theorem getLogs_most_recent :
  forall cid limit d,
    let r := getLogs cid limit d in
    let mine := List.filter (fun l => String.eqb (l_configId l) cid) (db_logs d) in
    List.length r = Nat.min (default 50%nat limit) (List.length mine)
    /\ (forall l, l ∈ r -> l ∈ db_logs d /\ l_configId l = cid)
    /\ StronglySorted (newer l_createdAt) r
    /\ (forall l l', l ∈ r -> l' ∈ db_logs d -> l_configId l' = cid -> l' ∉ r ->
          l_createdAt l' <= l_createdAt l).
Proof.
  intros cid limit d r mine. subst r. unfold getLogs. fold mine.
  set (n := default 50%nat limit). set (sorted := newest_first l_createdAt mine).
  pose proof (newest_first_sorted l_createdAt mine) as Hs. fold sorted in Hs.
  rewrite <- (take_drop n sorted) in Hs.
  split_and!.
  - unfold sorted. by rewrite length_take, length_newest_first.
  - intros l Hl. apply elem_of_take in Hl as (i & Hl & _).
    apply list_elem_of_lookup_2 in Hl.
    apply elem_of_newest_first, elem_of_filter_bool in Hl as [Hl Hc].
    split; [done|by apply String.eqb_eq].
  - by apply StronglySorted_app_1_l in Hs.
  - intros l l' Hl Hl' Hc Hout.
    assert (l' ∈ sorted) as Hin.
    { apply elem_of_newest_first, elem_of_filter_bool. split; [done|].
      by apply String.eqb_eq. }
    rewrite <- (take_drop n sorted) in Hin. apply elem_of_app in Hin as [Hin|Hin]; [done|].
    exact (StronglySorted_app_1_elem_of _ _ _ l l' Hs Hl Hin).
Qed.

Lemma getLogs_most_recent_witness :
  List.length
    (getLogs "r1" (Some 1%nat)
       (mkDb [] [mkLogRow "l1" "r1" "a" "info" 1; mkLogRow "l2" "r1" "b" "info" 2;
                 mkLogRow "l3" "r2" "c" "info" 3] [] [] [] [])) = 1%nat
  /\ forall l, l ∈ getLogs "r1" (Some 1%nat)
                    (mkDb [] [mkLogRow "l1" "r1" "a" "info" 1; mkLogRow "l2" "r1" "b" "info" 2;
                              mkLogRow "l3" "r2" "c" "info" 3] [] [] [] []) ->
              l_configId l = "r1".
Proof.
  destruct (getLogs_most_recent "r1" (Some 1%nat)
              (mkDb [] [mkLogRow "l1" "r1" "a" "info" 1; mkLogRow "l2" "r1" "b" "info" 2;
                        mkLogRow "l3" "r2" "c" "info" 3] [] [] [] []))
    as (H1 & H2 & _).
  split; [exact H1|]. intros l Hl. by destruct (H2 l Hl).
Defined.

(** ** Saved presets *)

(** X21.  The presets of a session are its own.  [getSavedConfigs] lists
    the presets of the session asked for and no other, newest first; a
    preset created for a session is listed for it from then on; and
    [deleteSavedConfig(id, sessionId)] removes a preset only when both the
    identifier and the session match, so that a session can neither see
    nor delete the preset of another even when it knows its identifier. *)
Theorem saved_configs_are_scoped :
  forall sid d,
    (forall s, s ∈ getSavedConfigs sid d <-> s ∈ db_savedConfigs d /\ sc_sessionId s = sid)
    /\ StronglySorted (newer sc_createdAt) (getSavedConfigs sid d)
    /\ (forall newId now name tok msg ch delay,
          let r := createSavedConfig newId now sid name tok msg ch delay d in
          r.1 = mkSaved newId sid name tok msg ch delay now
          /\ forall s, s ∈ getSavedConfigs sid r.2 <-> s = r.1 \/ s ∈ getSavedConfigs sid d)
    /\ (forall id s, s ∈ db_savedConfigs (deleteSavedConfig id sid d)
                     <-> s ∈ db_savedConfigs d /\ ~ (sc_id s = id /\ sc_sessionId s = sid))
    /\ (forall id sid' s, sid' <> sid ->
          s ∈ getSavedConfigs sid' (deleteSavedConfig id sid d) <-> s ∈ getSavedConfigs sid' d).
Proof.
  intros sid d.
  assert (forall sid0 d0 s, s ∈ getSavedConfigs sid0 d0
                            <-> s ∈ db_savedConfigs d0 /\ sc_sessionId s = sid0) as Hlist.
  { intros sid0 d0 s. unfold getSavedConfigs.
    by rewrite elem_of_newest_first, elem_of_filter_bool, String.eqb_eq. }
  assert (forall id s, s ∈ db_savedConfigs (deleteSavedConfig id sid d)
                       <-> s ∈ db_savedConfigs d /\ ~ (sc_id s = id /\ sc_sessionId s = sid))
    as Hdel.
  { intros id s. unfold deleteSavedConfig. simpl.
    rewrite elem_of_filter_bool, negb_true_iff, andb_false_iff, !String.eqb_neq.
    split; intros [H1 H2]; (split; [done|]).
    - intros [? ?]. destruct H2; done.
    - destruct (decide (sc_id s = id)); [right|left]; tauto. }
  split_and!.
  - apply Hlist.
  - apply newest_first_sorted.
  - intros newId now name tok msg ch delay r. subst r. split; [done|].
    intros s. rewrite !Hlist. unfold createSavedConfig. simpl.
    rewrite elem_of_app, list_elem_of_singleton. split.
    + intros [[Hs| ->] Hsid]; [right|left]; done.
    + intros [->|[Hs Hsid]]; [split; [by right|done]|split; [by left|done]].
  - exact Hdel.
  - intros id sid' s Hne. rewrite !Hlist, Hdel. split; [tauto|].
    intros [Hs Hsid]. split_and!; [done| |done]. intros [_ ?]. congruence.
Qed.

Lemma saved_configs_are_scoped_witness :
  let d := (createSavedConfig "p1" 7 "s1" "night" "tok" "hi" "1,2" 30 emptyDb).2 in
  db_savedConfigs (deleteSavedConfig "p1" "s2" d) = db_savedConfigs d
  /\ forall s, s ∈ getSavedConfigs "s1" (deleteSavedConfig "p1" "s2" d)
               <-> s ∈ getSavedConfigs "s1" d.
Proof.
  intros d. split; [reflexivity|]. intros s.
  destruct (saved_configs_are_scoped "s2" d) as (_ & _ & _ & _ & H).
  apply (H "p1" "s1" s). discriminate.
Defined.

(** ** The configuration form *)

Lemma getSiteSettings_main d :
  List.find is_main (db_siteSettings (getSiteSettings d).2) = Some (getSiteSettings d).1.
Proof.
  unfold getSiteSettings.
  destruct (List.find is_main (db_siteSettings d)) as [s|] eqn:E; simpl; [done|].
  by rewrite find_app_None.
Qed.

Lemma checkAccess_db sid d : (checkAccess sid d).2 = (getSiteSettings d).2.
Proof.
  unfold checkAccess. destruct (getSiteSettings d) as [s d1]. simpl.
  by destruct (ss_isLocked s).
Qed.

Lemma checkAccess_again sid d d' :
  db_siteSettings d' = db_siteSettings (checkAccess sid d).2 ->
  db_approvedUsers d' = db_approvedUsers d ->
  checkAccess sid d' = ((checkAccess sid d).1, d').
Proof.
  rewrite checkAccess_db. intros Hs Hu.
  pose proof (getSiteSettings_main d) as Hm. rewrite <- Hs in Hm.
  destruct (getSiteSettings_tables d) as (_ & _ & _ & Hu1 & _).
  unfold checkAccess. rewrite (getSiteSettings_found _ _ Hm).
  destruct (getSiteSettings d) as [s d1]. simpl in *.
  destruct (ss_isLocked s); simpl; [|done].
  unfold getApprovedUser. by rewrite Hu, Hu1.
Qed.

Lemma find_by_id_update (t : Storage.Table) e f :
  NoDup (Schema.id <$> t) -> e ∈ t ->
  (forall c, Schema.id (f c) = Schema.id c) ->
  List.find (fun c => String.eqb (Schema.id c) (Schema.id e))
            (Storage.update_where_id (Schema.id e) f t) = Some (f e).
Proof.
  intros Hnd Hin Hf. apply find_unique.
  - unfold Storage.update_where_id. apply list_elem_of_In, in_map_iff.
    exists e. rewrite String.eqb_refl. split; [done|by apply list_elem_of_In].
  - rewrite Hf. apply String.eqb_refl.
  - intros y Hy Hid. apply String.eqb_eq in Hid.
    unfold Storage.update_where_id in Hy. apply list_elem_of_In, in_map_iff in Hy
      as (x & Hx & Hxin). apply list_elem_of_In in Hxin.
    destruct (String.eqb (Schema.id x) (Schema.id e)) eqn:E.
    + apply String.eqb_eq in E. rewrite (find_unique_id t x e Hnd Hxin Hin E) in Hx.
      by subst.
    + subst y. by rewrite String.eqb_neq in E.
Qed.

Lemma orString_idem x dflt :
  Storage.orString (Some (Storage.orString x dflt)) dflt = Storage.orString x dflt.
Proof.
  unfold Storage.orString. destruct x as [[|c r]|]; simpl; by destruct dflt.
Qed.

Lemma clampDelay_bounds delay : 10 <= clampDelay delay <= 250.
Proof. unfold clampDelay. lia. Qed.

Lemma orDelay_clamp delay : Storage.orDelay (Some (clampDelay delay)) = clampDelay delay.
Proof.
  unfold Storage.orDelay at 1. pose proof (clampDelay_bounds delay).
  destruct (clampDelay delay =? 0) eqn:E; [|done]. apply Z.eqb_eq in E. lia.
Qed.

(** X22.  Saving the configuration form and reading it back.  A session
    without access gets 403 from POST /api/config and the table stays as
    it is.  With access, the identifiers of the rows being distinct, the
    handler answers with the row of the session as it now is: the name
    given or "Default Config", the token, message and channel list given
    or the empty string, the delay brought into the range 10..250 (30 when
    it is absent or 0); on a row that existed, the identifier, the two run
    flags and the total are kept.  GET /api/config then answers with that
    same row and writes nothing. *)
Theorem config_round_trip :
  forall sid name tok msg ch delay newId newId' d,
    let r := post_config sid name tok msg ch delay newId d in
    ((checkAccess sid d).1 = false ->
       r.1 = Error 403 "Access denied" /\ db_configs r.2 = db_configs d)
    /\ ((checkAccess sid d).1 = true -> NoDup (Schema.id <$> db_configs d) ->
          exists c,
            r.1 = Json (ConfigBody (Some c))
            /\ Storage.getConfig sid (db_configs r.2) = Some c
            /\ Schema.name c = Storage.orString name "Default Config"
            /\ Schema.token c = Storage.orString tok ""
            /\ Schema.message c = Storage.orString msg ""
            /\ Schema.channelIds c = Storage.orString ch ""
            /\ Schema.delay c = clampDelay delay
            /\ 10 <= Schema.delay c <= 250
            /\ (forall e, Storage.getConfig sid (db_configs d) = Some e ->
                  Schema.id c = Schema.id e
                  /\ Schema.isActive c = Schema.isActive e
                  /\ Schema.userWantsActive c = Schema.userWantsActive e
                  /\ Schema.totalSent c = Schema.totalSent e)
            /\ get_config sid newId' r.2 = (Json (ConfigBody (Some c)), r.2)).
Proof.
  intros sid name tok msg ch delay newId newId' d r. subst r.
  destruct (getSiteSettings_tables d) as (Hc1 & _ & _ & Hu1 & _).
  pose proof (checkAccess_db sid d) as Hdb.
  unfold post_config.
  destruct (checkAccess sid d) as [ok d1] eqn:Hca. simpl in Hdb. subst d1.
  simpl. split.
  - intros ->. simpl. done.
  - intros -> Hnd. simpl.
    set (d1 := (getSiteSettings d).2) in *.
    set (data := Schema.mkPartial (Some (Storage.orString name "Default Config"))
                                  (Some (Storage.orString tok ""))
                                  (Some (Storage.orString msg ""))
                                  (Some (Storage.orString ch ""))
                                  (Some (clampDelay delay))).
    assert (forall c d2,
              d2 = on_configs (Storage.upsertConfig newId sid data) d1 ->
              Storage.getConfig sid (db_configs d2) = Some c ->
              get_config sid newId' d2 = (Json (ConfigBody (Some c)), d2)) as Hget.
    { intros c d2 -> Hc. unfold get_config.
      rewrite (checkAccess_again sid d); [|by rewrite Hca|by rewrite <- Hu1].
      rewrite Hca. simpl. simpl in Hc. by rewrite Hc. }
    unfold upsertConfig.
    destruct (Storage.getConfig sid (db_configs d1)) as [e|] eqn:He.
    + pose proof (upsertConfig_found newId sid data _ _ He) as Hg.
      pose proof (getConfig_elem _ _ _ He) as [Hin _].
      exists (Storage.set_data data e). simpl.
      split_and!; try done; try apply clampDelay_bounds.
      * unfold Storage.upsertConfig, Storage.upsertConfig_write. rewrite He.
        rewrite find_by_id_update; [done|by rewrite Hc1|done|done].
      * intros e' He'. rewrite <- Hc1, He in He'. by injection He' as <-.
      * by apply Hget.
    + pose proof (upsertConfig_inserted newId sid data _ He) as Hg.
      exists (Storage.inserted_row newId sid data). simpl.
      split_and!; try done; try apply orString_empty; try apply orString_idem;
        try apply orDelay_clamp;
        try (pose proof (clampDelay_bounds delay); destruct (clampDelay delay =? 0); lia).
      * intros e' He'. rewrite <- Hc1, He in He'. done.
      * by apply Hget.
Qed.

Lemma config_round_trip_witness :
  exists c,
    (post_config "s1" None (Some "tok") None (Some "1,2") (Some 500) "r1" emptyDb).1
    = Json (ConfigBody (Some c))
    /\ Schema.delay c = 250 /\ Schema.name c = "Default Config".
Proof.
  destruct (config_round_trip "s1" None (Some "tok") None (Some "1,2") (Some 500) "r1" "r2"
              emptyDb) as [_ H].
  destruct H as (c & H1 & _ & H3 & _ & _ & _ & H7 & _); [reflexivity|constructor|].
  exists c. split_and!; [exact H1|exact H7|exact H3].
Defined.

(** ** Locking the site *)

Lemma rows_of_Permutation s t t' : t ≡ₚ t' -> rows_of s t = rows_of s t'.
Proof.
  unfold rows_of. induction 1 as [|x l l' _ IH|x y l|l l1 l2 _ IH1 _ IH2]; simpl.
  - done.
  - destruct (String.eqb (Schema.sessionId x) s); simpl; by rewrite IH.
  - by destruct (String.eqb (Schema.sessionId x) s), (String.eqb (Schema.sessionId y) s).
  - by rewrite IH1.
Qed.

Lemma rows_of_pos s t x : x ∈ t -> Schema.sessionId x = s -> (1 <= rows_of s t)%nat.
Proof.
  unfold rows_of. induction t as [|y r IH]; intros Hin Hs; [by apply elem_of_nil in Hin|].
  simpl. apply elem_of_cons in Hin as [<-|Hin].
  - rewrite Hs, String.eqb_refl. simpl. lia.
  - specialize (IH Hin Hs). destruct (String.eqb (Schema.sessionId y) s); simpl; lia.
Qed.

Lemma rows_of_filter_out s (t : Storage.Table) c :
  NoDup (Schema.id <$> t) -> c ∈ t ->
  (rows_of s (List.filter (fun x => negb (String.eqb (Schema.id x) (Schema.id c))) t)
   + (if String.eqb (Schema.sessionId c) s then 1 else 0)
   = rows_of s t)%nat.
Proof.
  unfold rows_of. induction t as [|x r IH]; intros Hnd Hin; [by apply elem_of_nil in Hin|].
  rewrite fmap_cons in Hnd. apply NoDup_cons in Hnd as [Hx Hr]. simpl.
  destruct (String.eqb (Schema.id x) (Schema.id c)) eqn:E; simpl.
  - apply String.eqb_eq in E.
    assert (x = c) as ->.
    { apply elem_of_cons in Hin as [->|Hin]; [done|].
      exfalso. apply Hx. rewrite E. by apply list_elem_of_fmap_2. }
    rewrite (filter_all (fun x => negb (String.eqb (Schema.id x) (Schema.id c))) r).
    + destruct (String.eqb (Schema.sessionId c) s); simpl; lia.
    + intros y Hy. apply negb_true_iff, eqb_neq_false. intros Heq. apply Hx.
      rewrite <- Heq. by apply list_elem_of_fmap_2.
  - apply elem_of_cons in Hin as [->|Hin]; [by rewrite String.eqb_refl in E|].
    specialize (IH Hr Hin).
    destruct (String.eqb (Schema.sessionId x) s); simpl; lia.
Qed.

Lemma NoDup_ids_filter (P : Schema.Config -> bool) (t : Storage.Table) :
  NoDup (Schema.id <$> t) -> NoDup (Schema.id <$> List.filter P t).
Proof.
  induction t as [|x r IH]; intros Hnd; [done|].
  rewrite fmap_cons in Hnd. apply NoDup_cons in Hnd as [Hx Hr]. simpl.
  destruct (P x); [|by apply IH]. rewrite fmap_cons. apply NoDup_cons. split; [|by apply IH].
  intros Hin. apply Hx. apply list_elem_of_fmap in Hin as (y & -> & Hy).
  apply elem_of_filter_bool in Hy as [Hy _]. by apply list_elem_of_fmap_2.
Qed.

Lemma filter_none {A} (P : A -> bool) l : List.find P l = None -> List.filter P l = [].
Proof. induction l as [|x r IH]; simpl; [done|]. by destruct (P x). Qed.

(** What [deleteConfig] does to the tables, the identifiers being distinct. *)
Lemma deleteConfig_rows s d :
  NoDup (Schema.id <$> db_configs d) ->
  let d1 := deleteConfig s d in
  NoDup (Schema.id <$> db_configs d1)
  /\ (forall x, x ∈ db_configs d1 -> x ∈ db_configs d)
  /\ (forall x, x ∈ db_configs d -> Schema.sessionId x <> s -> x ∈ db_configs d1)
  /\ (forall s', rows_of s' (db_configs d1)
                 = if String.eqb s s' then Nat.pred (rows_of s' (db_configs d))
                   else rows_of s' (db_configs d))
  /\ (forall l, l ∈ db_logs d1 -> l ∈ db_logs d)
  /\ (forall l c, l ∈ db_logs d1 -> c ∈ db_configs d -> l_configId l = Schema.id c ->
        c ∈ db_configs d1)
  /\ (forall l, l ∈ db_logs d ->
        (forall c, c ∈ db_configs d -> l_configId l = Schema.id c ->
           Schema.sessionId c <> s) ->
        l ∈ db_logs d1)
  /\ db_approvedUsers d1 = db_approvedUsers d
  /\ db_accessRequests d1 = db_accessRequests d.
Proof.
  intros Hnd d1. subst d1. unfold deleteConfig.
  destruct (Storage.getConfig s (db_configs d)) as [c|] eqn:Hc; simpl.
  - pose proof (getConfig_elem _ _ _ Hc) as [Hin Hs]. split_and!; try done.
    + by apply NoDup_ids_filter.
    + by intros x [Hx _]%elem_of_filter_bool.
    + intros x Hx Hne. apply elem_of_filter_bool. split; [done|].
      apply negb_true_iff, eqb_neq_false. intros Hid.
      rewrite (find_unique_id (db_configs d) x c Hnd Hx Hin Hid) in Hne. done.
    + intros s'. pose proof (rows_of_filter_out s' (db_configs d) c Hnd Hin) as Hr.
      rewrite Hs in Hr. destruct (String.eqb s s'); lia.
    + by intros l [Hl _]%elem_of_filter_bool.
    + intros l x [Hl Hne]%elem_of_filter_bool Hx Hid. apply elem_of_filter_bool.
      split; [done|]. apply negb_true_iff in Hne. rewrite Hid in Hne.
      by rewrite Hne.
    + intros l Hl Hown. apply elem_of_filter_bool. split; [done|].
      apply negb_true_iff, eqb_neq_false. intros Hid. by apply (Hown c).
  - split_and!; try done.
    intros s'. destruct (String.eqb s s') eqn:E; [|done]. apply String.eqb_eq in E as <-.
    unfold Storage.getConfig in Hc. unfold rows_of.
    by rewrite (filter_none _ _ Hc).
Qed.

Lemma purge_inv approved d0 :
  forall rest d,
    NoDup (Schema.id <$> db_configs d) ->
    (forall s, s ∉ approved -> (rows_of s (db_configs d) <= rows_of s rest)%nat) ->
    (forall l c, l ∈ db_logs d -> c ∈ db_configs d0 -> l_configId l = Schema.id c ->
       c ∈ db_configs d) ->
    let d' := purge approved rest d in
    (forall x, x ∈ db_configs d' <-> x ∈ db_configs d /\ Schema.sessionId x ∈ approved)
    /\ db_approvedUsers d' = db_approvedUsers d
    /\ db_accessRequests d' = db_accessRequests d
    /\ (forall l, l ∈ db_logs d' -> l ∈ db_logs d)
    /\ (forall l c, l ∈ db_logs d' -> c ∈ db_configs d0 -> l_configId l = Schema.id c ->
          c ∈ db_configs d')
    /\ (forall l, l ∈ db_logs d ->
          (forall c, c ∈ db_configs d -> l_configId l = Schema.id c ->
             Schema.sessionId c ∈ approved) ->
          l ∈ db_logs d').
Proof.
  induction rest as [|c rest IH]; intros d Hnd Hcount Hlogs d'; subst d'; simpl.
  - split_and!; try done. intros x. split; [|tauto]. intros Hx. split; [done|].
    destruct (decide (Schema.sessionId x ∈ approved)) as [|Hout]; [done|].
    pose proof (Hcount _ Hout) as H0. pose proof (rows_of_pos _ _ x Hx eq_refl) as H1.
    unfold rows_of in H0 at 2. simpl in H0. lia.
  - destruct (bool_decide (Schema.sessionId c ∈ approved)) eqn:Hc.
    + apply bool_decide_eq_true in Hc. apply IH; [done| |done].
      intros s Hs. specialize (Hcount s Hs). unfold rows_of in Hcount at 2. simpl in Hcount.
      assert (String.eqb (Schema.sessionId c) s = false) as E
          by (apply eqb_neq_false; intros Heq; apply Hs; by rewrite <- Heq).
      rewrite E in Hcount. exact Hcount.
    + apply bool_decide_eq_false in Hc.
      destruct (deleteConfig_rows (Schema.sessionId c) d Hnd)
        as (Hnd1 & Hsub & Hkeep & Hrows & Hl1 & Hl2 & Hl3 & Hu & Hr).
      destruct (IH (deleteConfig (Schema.sessionId c) d))
        as (H1 & H2 & H3 & H4 & H5 & H6).
      * exact Hnd1.
      * intros s Hs. rewrite Hrows. specialize (Hcount s Hs).
        unfold rows_of in Hcount at 2. simpl in Hcount.
        unfold rows_of in *.
        destruct (String.eqb (Schema.sessionId c) s); simpl in *; lia.
      * intros l x Hl Hx Hid. eapply Hl2; [done| |done]. eapply Hlogs; [|done..]. by apply Hl1.
      * split_and!.
        -- intros x. rewrite H1. split.
           ++ intros [Hx Ha]. split; [by apply Hsub|done].
           ++ intros [Hx Ha]. split; [|done]. apply Hkeep; [done|].
              intros Heq. apply Hc. by rewrite <- Heq.
        -- by rewrite H2.
        -- by rewrite H3.
        -- intros l Hl. by apply Hl1, H4.
        -- exact H5.
        -- intros l Hl Hown. apply H6.
           ++ apply Hl3; [done|]. intros x Hx Hid Heq. apply Hc. rewrite <- Heq.
              by apply Hown.
           ++ intros x Hx Hid. apply Hown; [by apply Hsub|done].
Qed.

(** X23.  Locking the site removes the configurations of the sessions
    that are not approved, and only those.  Let the loop of POST
    /api/admin/toggle-lock run over the answer of [getAllConfigs], the rows
    of the table in any order, their identifiers being distinct: the
    configurations that remain are exactly those of the approved sessions,
    also when a session has several rows; the log lines of the removed
    configurations go with them and no other log line does; approved users
    and access requests are not touched. *)
Theorem lock_purges_unapproved :
  forall allConfigs d,
    allConfigs ≡ₚ db_configs d ->
    NoDup (Schema.id <$> db_configs d) ->
    let approved sid := sid ∈ (au_sessionId <$> db_approvedUsers d) in
    let d' := purge_unapproved allConfigs d in
    (forall c, c ∈ db_configs d' <-> c ∈ db_configs d /\ approved (Schema.sessionId c))
    /\ db_approvedUsers d' = db_approvedUsers d
    /\ db_accessRequests d' = db_accessRequests d
    /\ (forall l, l ∈ db_logs d' -> l ∈ db_logs d)
    /\ (forall l c, l ∈ db_logs d' -> c ∈ db_configs d -> l_configId l = Schema.id c ->
          approved (Schema.sessionId c))
    /\ (forall l c, l ∈ db_logs d -> c ∈ db_configs d -> l_configId l = Schema.id c ->
          approved (Schema.sessionId c) -> l ∈ db_logs d').
Proof.
  intros allConfigs d Hperm Hnd approved d'. subst d' approved.
  unfold purge_unapproved.
  set (appr := au_sessionId <$> getAllApprovedUsers d).
  assert (forall s, s ∈ appr <-> s ∈ (au_sessionId <$> db_approvedUsers d)) as Happr.
  { intros s. subst appr. unfold getAllApprovedUsers, newest_first.
    by rewrite merge_sort_Permutation. }
  destruct (purge_inv appr d allConfigs d Hnd) as (H1 & H2 & H3 & H4 & H5 & H6).
  { intros s _. by rewrite (rows_of_Permutation s _ _ Hperm). }
  { done. }
  split_and!; try done.
  - intros c. rewrite H1. by rewrite Happr.
  - intros l c Hl Hc Hid. apply Happr. eapply H1. by eapply H5.
  - intros l c Hl Hc Hid Ha. apply H6; [done|]. intros x Hx Hid'.
    rewrite (find_unique_id (db_configs d) x c Hnd Hx Hc) by congruence.
    by apply Happr.
Qed.

Lemma lock_purges_unapproved_witness :
  let kept := Schema.mkConfig "r2" "s2" "B" "t" "m" "3" 30 false false 0 in
  let d := mkDb [sample_row; kept] [] [] [] [mkUser "u1" "s2" "Bea" 1] [] in
  kept ∈ db_configs (purge_unapproved [kept; sample_row] d)
  /\ (sample_row ∈ db_configs (purge_unapproved [kept; sample_row] d) -> "s1" ∈ ["s2"]).
Proof.
  intros kept d.
  destruct (lock_purges_unapproved [kept; sample_row] d) as (H & _).
  - apply perm_swap.
  - apply NoDup_cons. split; [by intros ?%list_elem_of_singleton|apply NoDup_singleton].
  - split.
    + apply H. split; [apply list_elem_of_further, list_elem_of_here|apply list_elem_of_here].
    + intros Hin. apply H in Hin as [_ Hin]. exact Hin.
Defined.

End StorageProperties.
